(** * Verification of message-extractor's ingestion core

    Shallow embeddings of:
    - [ChunkedProcessor.process_chunked] and its checkpoint/results writes
      (src/src/utils/chunked_processor.py);
    - [safe_file_write] as used by [save_checkpoint]
      (src/src/utils/error_handling.py);
    - the SQLite projection of scripts/create_database.py and of
      import_whatsapp_to_database.py, with its triggers;
    - [ChatDatabaseCreator._normalize_phone];
    - [Contact.__eq__] / [Contact.__hash__] (src/schema.py). *)

From Stdlib Require Import List String Ascii ZArith Bool Arith Lia.
Import ListNotations.

(* ------------------------------------------------------------------ *)
(** ** Chunked processing engine *)
(* ------------------------------------------------------------------ *)

Module Chunked.

(** [ChunkProgress] (the timestamps [last_save_time] / [start_time] come
    from [datetime.now()] and play no role in the properties below; they
    are left out). *)
Record ChunkProgress := mkProgress {
  total_items : nat;
  processed_items : nat;
  successful_items : nat;
  failed_items : nat;
  skipped_items : nat;
  current_chunk : nat;
  total_chunks : nat;
  processed_ids : list string;
  failed_ids : list string
}.

(** [ChunkProgress()] with its [__post_init__]. *)
Definition fresh_progress : ChunkProgress :=
  mkProgress 0 0 0 0 0 0 0 [] [].

(** Python exceptions that matter here: [KeyboardInterrupt] is a
    [BaseException], every other error an [Exception]. The other
    [BaseException]s ([SystemExit], [GeneratorExit]) pass every
    [except Exception] of this code unhandled and are left out. *)
Inductive py_exn :=
| KeyboardInterrupt
| PyException (msg : string)
| ExtractionError (msg : string)
| ZeroDivisionError.

(** [isinstance(e, Exception)]. *)
Definition is_exception (e : py_exn) : bool :=
  match e with
  | KeyboardInterrupt => false
  | _ => true
  end.

(** What one call [process_func(item)] does. *)
Inductive call_result (R : Type) :=
| Returns (r : option R)
| Raises (e : py_exn).
Arguments Returns {R} r.
Arguments Raises {R} e.

(** One line of the newline-delimited results file: [json.dumps(result)]
    of one result, or of a list of results when a list is passed as one
    element of [results_batch] (line 222). *)
Inductive line (R : Type) :=
| Line (r : R)
| LineBatch (rs : list R).
Arguments Line {R} r.
Arguments LineBatch {R} rs.

(** A durable write issued by the processor, in program order. *)
Inductive write (R : Type) :=
| CheckpointWrite (p : ChunkProgress)
| ResultsWrite (ls : list (line R)).
Arguments CheckpointWrite {R} p.
Arguments ResultsWrite {R} ls.

(** Constructor arguments of [ChunkedProcessor]. *)
Record config := mkConfig {
  chunk_size : nat;
  save_interval : Z;
  isolated_errors : bool;
  has_result_file : bool
}.

(** The two files: [progress.json] and the results file. *)
Record disk (R : Type) := mkDisk {
  checkpoint_file : option ChunkProgress;
  result_file : list (line R)
}.
Arguments mkDisk {R} _ _.
Arguments checkpoint_file {R} _.
Arguments result_file {R} _.

Definition apply_write {R} (d : disk R) (w : write R) : disk R :=
  match w with
  | CheckpointWrite p => mkDisk (Some p) (result_file d)
  | ResultsWrite ls => mkDisk (checkpoint_file d) (result_file d ++ ls)
  end.

Definition disk_after {R} (d : disk R) (ws : list (write R)) : disk R :=
  fold_left apply_write ws d.

(** [load_checkpoint]: the constructor starts from [ChunkProgress()] and
    replaces it by the file's contents when there is one. *)
Definition load_checkpoint {R} (d : disk R) : ChunkProgress :=
  match checkpoint_file d with
  | Some p => p
  | None => fresh_progress
  end.

(** [save_checkpoint]: writes [asdict(self.progress)]. *)
Definition save_checkpoint {R} (p : ChunkProgress) : list (write R) :=
  [CheckpointWrite p].

(** [save_results]: nothing without a result file. *)
Definition save_results {R} (cfg : config) (batch : list (line R))
  : list (write R) :=
  if has_result_file cfg then [ResultsWrite batch] else [].

(** Python's [lst[-k:]]: for [k > 0] the last [k] elements (the whole
    list when [k] exceeds its length); [-0] is [0], so [k = 0] gives the
    whole list; for [k < 0], [-k] is a positive start index. *)
Definition py_last {A} (k : Z) (l : list A) : list A :=
  match k with
  | Z0 => l
  | Zpos p => skipn (List.length l - Pos.to_nat p) l
  | Zneg p => skipn (Pos.to_nat p) l
  end.

(** Python's [x in list_of_str]. *)
Definition py_in (x : string) (l : list string) : bool :=
  existsb (String.eqb x) l.

(** Local state of one [process_chunked] call. *)
Record st (R : Type) := mkSt {
  prog : ChunkProgress;
  cur : list R;             (* current_chunk *)
  chunk_results : list R;
  item_count : nat;
  writes : list (write R)
}.
Arguments mkSt {R} _ _ _ _ _.
Arguments prog {R} _.
Arguments cur {R} _.
Arguments chunk_results {R} _.
Arguments item_count {R} _.
Arguments writes {R} _.

Definition set_prog {R} (s : st R) (p : ChunkProgress) : st R :=
  mkSt p (cur s) (chunk_results s) (item_count s) (writes s).

(** Final outcome of [process_chunked]. *)
Inductive outcome (R : Type) :=
| Completed (results : list R)
| Aborted (e : py_exn).
Arguments Completed {R} results.
Arguments Aborted {R} e.

Section Process.

Variables (I R : Type).
(** [get_item_id] as a function that returns: its default
    [str(hash(x))] raises [TypeError] on an unhashable item, which is left
    out, like the [SystemExit] of [py_exn]. *)
Variable get_item_id : I -> string.
Variable process_func : I -> call_result R.
Variable cfg : config.

(** Field updates of the progress record. *)
Definition bump_skipped (p : ChunkProgress) : ChunkProgress :=
  mkProgress (total_items p) (processed_items p) (successful_items p)
    (failed_items p) (S (skipped_items p)) (current_chunk p) (total_chunks p)
    (processed_ids p) (failed_ids p).

Definition bump_processed (p : ChunkProgress) : ChunkProgress :=
  mkProgress (total_items p) (S (processed_items p)) (successful_items p)
    (failed_items p) (skipped_items p) (current_chunk p) (total_chunks p)
    (processed_ids p) (failed_ids p).

Definition record_success (p : ChunkProgress) (id : string) : ChunkProgress :=
  mkProgress (total_items p) (processed_items p) (S (successful_items p))
    (failed_items p) (skipped_items p) (current_chunk p) (total_chunks p)
    (processed_ids p ++ [id]) (failed_ids p).

Definition record_failure (p : ChunkProgress) (id : string) : ChunkProgress :=
  mkProgress (total_items p) (S (processed_items p)) (successful_items p)
    (S (failed_items p)) (skipped_items p) (current_chunk p) (total_chunks p)
    (processed_ids p) (failed_ids p ++ [id]).

Definition bump_chunk (p : ChunkProgress) : ChunkProgress :=
  mkProgress (total_items p) (processed_items p) (successful_items p)
    (failed_items p) (skipped_items p) (S (current_chunk p)) (total_chunks p)
    (processed_ids p) (failed_ids p).

(** Lines 252-267: checkpoint first, then the pending results. *)
Definition end_of_item (s : st R) : st R :=
  if chunk_size cfg <=? item_count s then
    let p := bump_chunk (prog s) in
    let ws := writes s ++ save_checkpoint p in
    let '(c, ws) :=
      match cur s with
      | [] => (cur s, ws)
      | _ => ([], ws ++ save_results cfg (map Line (cur s)))
      end in
    mkSt p c (chunk_results s) 0 ws
  else s.

(** Whether the resume filter (lines 205-208) skips an item. *)
Definition resume_skips (resume : bool) (processed_set : list string) (item : I)
  : bool :=
  resume && py_in (get_item_id item) processed_set.

(** One iteration of the [for] loop (lines 203-267): [inl] continues the
    loop, [inr] leaves it with an exception. *)
Definition step (resume : bool) (processed_set : list string) (s : st R)
    (item : I) : st R + (st R * py_exn) :=
  let item_id := get_item_id item in
  if resume_skips resume processed_set item then
    inl (set_prog s (bump_skipped (prog s)))
  else
    match process_func item with
    | Returns (Some r) =>
        let p := record_success (prog s) item_id in
        let c := cur s ++ [r] in
        let '(c, ws) :=
          if (save_interval cfg <=? Z.of_nat (List.length c))%Z then
            ([], writes s ++ save_results cfg [LineBatch (py_last (save_interval cfg) c)])
          else (c, writes s) in
        inl (end_of_item
               (mkSt (bump_processed p) c (chunk_results s ++ [r])
                     (S (item_count s)) ws))
    | Returns None =>
        inl (end_of_item
               (mkSt (bump_processed (bump_skipped (prog s))) (cur s)
                     (chunk_results s) (S (item_count s)) (writes s)))
    | Raises KeyboardInterrupt =>
        let ws := writes s ++ save_checkpoint (prog s)
                          ++ save_results cfg (map Line (cur s)) in
        inr (mkSt (prog s) (cur s) (chunk_results s) (item_count s) ws,
             KeyboardInterrupt)
    | Raises _ =>
        let s := set_prog s (record_failure (prog s) item_id) in
        if isolated_errors cfg then inl s
        else
          let ws := writes s ++ save_checkpoint (prog s) in
          inr (mkSt (prog s) (cur s) (chunk_results s) (item_count s) ws,
               ExtractionError item_id)
    end.

Fixpoint loop (resume : bool) (processed_set : list string) (s : st R)
    (items : list I) : st R * option py_exn :=
  match items with
  | [] => (s, None)
  | item :: rest =>
      match step resume processed_set s item with
      | inl s' => loop resume processed_set s' rest
      | inr (s', e) => (s', Some e)
      end
  end.

(** Lines 177-189: start of the run. *)
Definition init_progress (p : ChunkProgress) (total : option nat)
  : option ChunkProgress :=
  match total with
  | None | Some 0 => Some p
  | Some n =>
      if chunk_size cfg =? 0 then None
      else Some (mkProgress n (processed_items p) (successful_items p)
                   (failed_items p) (skipped_items p) (current_chunk p)
                   ((n + chunk_size cfg - 1) / chunk_size cfg)
                   (processed_ids p) (failed_ids p))
  end.

(** [process_chunked(items, process_func, total_items, resume)] run on a
    processor whose [self.progress] is [p0]. *)
Definition process_chunked (p0 : ChunkProgress) (items : list I)
    (total : option nat) (resume : bool) : st R * outcome R :=
  match init_progress p0 total with
  | None => (mkSt p0 [] [] 0 [], Aborted ZeroDivisionError)
  | Some p =>
      let processed_set := if resume then processed_ids p else [] in
      let '(s, r) := loop resume processed_set (mkSt p [] [] 0 []) items in
      match r with
      | None =>
          let ws := writes s
                    ++ (match cur s with [] => [] | _ => save_results cfg (map Line (cur s)) end)
                    ++ save_checkpoint (prog s) in
          (mkSt (prog s) (cur s) (chunk_results s) (item_count s) ws,
           Completed (chunk_results s))
      | Some KeyboardInterrupt => (s, Aborted KeyboardInterrupt)
      | Some e =>
          let ws := writes s ++ save_checkpoint (prog s)
                    ++ (match cur s with [] => [] | _ => save_results cfg (map Line (cur s)) end) in
          (mkSt (prog s) (cur s) (chunk_results s) (item_count s) ws, Aborted e)
      end
  end.

End Process.

Arguments end_of_item {R} cfg s.
Arguments resume_skips {I} get_item_id resume processed_set item.
Arguments step {I R} get_item_id process_func cfg resume processed_set s item.
Arguments loop {I R} get_item_id process_func cfg resume processed_set s items.
Arguments process_chunked {I R} get_item_id process_func cfg p0 items total resume.

End Chunked.

(* ------------------------------------------------------------------ *)
(** ** [safe_file_write] (src/src/utils/error_handling.py) *)
(* ------------------------------------------------------------------ *)

Module FileWrite.

(** A file system: path to contents, [None] for a missing file. *)
Definition fs := string -> option string.

Definition fs_set (m : fs) (p : string) (v : option string) : fs :=
  fun q => if String.eqb q p then v else m q.

(** The file-system effects [safe_file_open] / [safe_file_write] issue. *)
Inductive fs_op :=
| Rename (src dst : string)     (* Path.rename *)
| OpenWrite (path : string)     (* open(path, 'w'): create or truncate *)
| WriteData (path : string) (data : string).  (* f.write(data) *)

Definition apply_op (m : fs) (op : fs_op) : fs :=
  match op with
  | Rename src dst => fs_set (fs_set m dst (m src)) src None
  | OpenWrite p => fs_set m p (Some EmptyString)
  | WriteData p d =>
      fs_set m p (Some (match m p with Some c => c | None => EmptyString end ++ d)%string)
  end.

(** [file_path.with_suffix(file_path.suffix + '.bak')] for a path whose
    suffix is its whole extension: the backup sits next to the file. *)
Definition backup_path (p : string) : string := (p ++ ".bak")%string.

(** The operations of [safe_file_write(path, content, backup=backup)] when
    no error occurs: optional backup rename (only when the file exists),
    then open in mode ['w'], then [f.write(content)]. *)
Definition safe_file_write_ops (m : fs) (path content : string) (backup : bool)
  : list fs_op :=
  (if backup then
     match m path with Some _ => [Rename path (backup_path path)] | None => [] end
   else [])
  ++ [OpenWrite path; WriteData path content].

(** [save_checkpoint] calls [safe_file_write(checkpoint_file, json, create_dirs=True)],
    leaving [backup] at its default [False]. *)
Definition save_checkpoint_ops (m : fs) (checkpoint_file json : string) : list fs_op :=
  safe_file_write_ops m checkpoint_file json false.

(** The file systems an interruption can leave: the state after every
    prefix of the operations. *)
Fixpoint states_along (m : fs) (ops : list fs_op) : list fs :=
  m :: match ops with
       | [] => []
       | op :: rest => states_along (apply_op m op) rest
       end.

Definition is_rename (op : fs_op) : bool :=
  match op with Rename _ _ => true | _ => false end.

End FileWrite.

(* ------------------------------------------------------------------ *)
(** ** [ChatDatabaseCreator._normalize_phone] *)
(* ------------------------------------------------------------------ *)

Module Phone.

(** Python's [\d] and [str.isdigit] restricted to ASCII input. *)
Definition is_digit (c : ascii) : bool :=
  let n := nat_of_ascii c in (48 <=? n) && (n <=? 57).

(** [re.sub(r'[^\d+]', '', phone)]. *)
Fixpoint strip_non_phone (s : string) : string :=
  match s with
  | EmptyString => EmptyString
  | String c rest =>
      if is_digit c || Ascii.eqb c "+"%char
      then String c (strip_non_phone rest)
      else strip_non_phone rest
  end.

Fixpoint all_digits (s : string) : bool :=
  match s with
  | EmptyString => true
  | String c rest => is_digit c && all_digits rest
  end.

(** [str.isdigit()] is [False] on the empty string. *)
Definition py_isdigit (s : string) : bool :=
  match s with
  | EmptyString => false
  | _ => all_digits s
  end.

(** [_normalize_phone(phone)]; [None] for [return None]. *)
Definition normalize_phone (phone : string) : option string :=
  match phone with
  | EmptyString => None                         (* if not phone *)
  | _ =>
      let cleaned := strip_non_phone phone in
      let from_plus :=
        if String.prefix "+" cleaned then Some cleaned else Some phone in
      if py_isdigit cleaned then
        if String.length cleaned =? 10 then Some ("+1" ++ cleaned)%string
        else if (String.length cleaned =? 11) && String.prefix "1" cleaned
        then Some ("+" ++ cleaned)%string
        else if 10 <? String.length cleaned then Some ("+" ++ cleaned)%string%string
        else from_plus
      else from_plus
  end.

End Phone.

(* ------------------------------------------------------------------ *)
(** ** [Contact.__eq__] and [Contact.__hash__] (src/schema.py) *)
(* ------------------------------------------------------------------ *)

Module ContactHash.

Open Scope Z_scope.

(** [Contact] (the dataclass fields). *)
Record Contact := mkContact {
  name : option string;
  email : option string;
  phone : option string;
  platform_id : string;
  platform : string
}.

Definition opt_eqb (a b : option string) : bool :=
  match a, b with
  | Some x, Some y => String.eqb x y
  | None, None => true
  | _, _ => false
  end.

(** [Contact.__eq__] on two [Contact]s: email, phone and platform_id. *)
Definition contact_eq (a b : Contact) : bool :=
  opt_eqb (email a) (email b) && opt_eqb (phone a) (phone b)
  && String.eqb (platform_id a) (platform_id b).

(** 64-bit unsigned arithmetic. *)
Definition M64 : Z := 2 ^ 64.
Definition u64 (x : Z) : Z := x mod M64.
Definition rotl64 (x : Z) (s : Z) : Z :=
  u64 (Z.lor (Z.shiftl x s) (Z.shiftr x (64 - s))).
Definition to_signed (x : Z) : Z := if x <? 2 ^ 63 then x else x - M64.

(** CPython's SipHash-1-3 (Python/pyhash.c) over the bytes of a string. *)
Definition half_round (a b c d : Z) (s t : Z) : Z * Z * Z * Z :=
  let a := u64 (a + b) in
  let c := u64 (c + d) in
  let b := Z.lxor (rotl64 b s) a in
  let d := Z.lxor (rotl64 d t) c in
  let a := rotl64 a 32 in
  (a, b, c, d).

Definition single_round (v : Z * Z * Z * Z) : Z * Z * Z * Z :=
  let '(v0, v1, v2, v3) := v in
  let '(v0, v1, v2, v3) := half_round v0 v1 v2 v3 13 16 in
  let '(v2, v1, v0, v3) := half_round v2 v1 v0 v3 17 21 in
  (v0, v1, v2, v3).

(** Little-endian value of a list of bytes. *)
Fixpoint le_bytes (bs : list Z) : Z :=
  match bs with
  | [] => 0
  | b :: rest => b + 256 * le_bytes rest
  end.

Fixpoint sip_blocks (fuel : nat) (v : Z * Z * Z * Z) (bs : list Z)
  : Z * Z * Z * Z * list Z :=
  match fuel with
  | O => (v, bs)
  | S fuel =>
      if (8 <=? List.length bs)%nat then
        let mi := le_bytes (firstn 8 bs) in
        let '(v0, v1, v2, v3) := v in
        let '(v0, v1, v2, v3) := single_round (v0, v1, v2, Z.lxor v3 mi) in
        sip_blocks fuel (Z.lxor v0 mi, v1, v2, v3) (skipn 8 bs)
      else (v, bs)
  end.

Definition siphash13 (k0 k1 : Z) (bs : list Z) : Z :=
  let len := Z.of_nat (List.length bs) in
  let v := (Z.lxor k0 8317987319222330741, Z.lxor k1 7237128888997146477,
            Z.lxor k0 7816392313619706465, Z.lxor k1 8387220255154660723) in
  let '(v, rest) := sip_blocks (List.length bs) v bs in
  let b := Z.lor (u64 (Z.shiftl len 56)) (le_bytes rest) in
  let '(v0, v1, v2, v3) := v in
  let '(v0, v1, v2, v3) := single_round (v0, v1, v2, Z.lxor v3 b) in
  let '(v0, v1, v2, v3) := (Z.lxor v0 b, v1, Z.lxor v2 255, v3) in
  let '(v0, v1, v2, v3) := single_round (single_round (single_round (v0, v1, v2, v3))) in
  Z.lxor (Z.lxor v0 v1) (Z.lxor v2 v3).

Definition str_bytes (s : string) : list Z :=
  map (fun c => Z.of_nat (nat_of_ascii c)) (list_ascii_of_string s).

(** [hash(str)] for an ASCII string ([_Py_HashBytes]): 0 for the empty
    string, -1 remapped to -2. [k0], [k1] is the per-process secret;
    [PYTHONHASHSEED=0] makes it zero. *)
Definition str_hash (k0 k1 : Z) (s : string) : Z :=
  match s with
  | EmptyString => 0
  | _ => let x := to_signed (siphash13 k0 k1 (str_bytes s)) in
         if x =? -1 then -2 else x
  end.

(** CPython's tuple hash (Objects/tupleobject.c, xxHash based), on the
    hashes of the elements. *)
Definition XXPRIME_1 : Z := 11400714785074694791.
Definition XXPRIME_2 : Z := 14029467366897019727.
Definition XXPRIME_5 : Z := 2870177450012600261.

Definition tuple_hash (lanes : list Z) : Z :=
  let acc := fold_left (fun acc lane =>
               let acc := u64 (acc + u64 lane * XXPRIME_2) in
               let acc := rotl64 acc 31 in
               u64 (acc * XXPRIME_1)) lanes XXPRIME_5 in
  let acc := u64 (acc + Z.lxor (Z.of_nat (List.length lanes))
                                (Z.lxor XXPRIME_5 3527539)) in
  if acc =? M64 - 1 then 1546275796 else to_signed acc.

(** [Contact.__hash__]: [hash((email, phone, platform_id, platform))];
    [hash(None)] is a per-process constant [none_hash]. *)
Definition contact_hash (k0 k1 none_hash : Z) (c : Contact) : Z :=
  let h o := match o with Some s => str_hash k0 k1 s | None => none_hash end in
  tuple_hash [h (email c); h (phone c); str_hash k0 k1 (platform_id c);
              str_hash k0 k1 (platform c)].

End ContactHash.

(* ------------------------------------------------------------------ *)
(** ** The SQLite projection (scripts/create_database.py schema) *)
(* ------------------------------------------------------------------ *)

Module Db.

(** Timestamps are written as ISO text by the code; they are modelled as
    epoch seconds. *)
Record conversation := mkConv {
  conversation_id : nat;
  conversation_name : option string;
  conv_platform : string;
  thread_id : option string;
  first_message_at : option Z;
  last_message_at : option Z;
  message_count : Z;
  is_group : bool;
  participant_count : Z
}.

Record contact := mkContact {
  contact_id : nat;
  display_name : option string;
  c_email : option string;
  c_phone : option string;
  c_platform : string;
  c_platform_id : string;
  first_seen : option Z;
  last_seen : option Z;
  c_message_count : Z;
  is_me : bool
}.

Record conv_participant := mkPart {
  cp_conversation_id : nat;
  cp_contact_id : nat;
  role : string
}.

Record message := mkMsg {
  message_id : nat;
  m_platform : string;
  platform_message_id : string;
  m_conversation_id : nat;
  sender_id : nat;
  timestamp : Z;
  body : string
}.

(** The tables, with the AUTOINCREMENT counters of [sqlite_sequence]. *)
Record db := mkDb {
  conversations : list conversation;
  contacts : list contact;
  participants : list conv_participant;
  messages : list message;
  seq_conv : nat;
  seq_contact : nat;
  seq_msg : nat
}.

(** The database [_initialize_database] starts from: the old file is
    removed, the schema created, every table empty. *)
Definition empty_db : db := mkDb [] [] [] [] 0 0 0.

(** Errors raised by [sqlite3] (and the [ValueError] of
    [datetime.fromtimestamp], the [AttributeError] of a method call on a
    value of the wrong type). *)
Inductive sql_exn := IntegrityError | ValueError | AttributeError.

Inductive result (A : Type) :=
| Ok (a : A)
| Err (e : sql_exn).
Arguments Ok {A} a.
Arguments Err {A} e.

(** Statements run on one connection without rollback: an exception
    keeps the effects of the statements before it. *)
Definition M (A : Type) := db -> db * result A.

Definition ret {A} (a : A) : M A := fun d => (d, Ok a).
Definition bind {A B} (m : M A) (k : A -> M B) : M B :=
  fun d => match m d with
           | (d', Ok a) => k a d'
           | (d', Err e) => (d', Err e)
           end.
Definition raise {A} (e : sql_exn) : M A := fun d => (d, Err e).

Notation "x <- m ;; k" := (bind m (fun x => k))
  (at level 61, m at next level, right associativity).
Notation "m ;;; k" := (bind m (fun _ => k))
  (at level 61, right associativity).

(** [try: m except <any error>: pass]. *)
Definition try_ignore (m : M unit) : M unit :=
  fun d => match m d with
           | (d', Err _) => (d', Ok tt)
           | r => r
           end.

Definition get : M db := fun d => (d, Ok d).

Fixpoint mapM_ {A} (f : A -> M unit) (l : list A) : M unit :=
  match l with
  | [] => ret tt
  | x :: rest => f x ;;; mapM_ f rest
  end.

(** Column values of an INSERT. *)
Inductive sql_val :=
| VNull
| VInt (z : Z)
| VText (s : string)
| VBool (b : bool).

Inductive conv_col :=
| ColConversationName | ColPlatform | ColThreadId | ColFirstMessageAt
| ColLastMessageAt | ColIsGroup | ColParticipantCount | ColMessageCount.

Definition val_text (v : sql_val) : option string :=
  match v with VText s => Some s | _ => None end.
Definition val_int (v : sql_val) : option Z :=
  match v with VInt z => Some z | _ => None end.
Definition val_bool (v : sql_val) : bool :=
  match v with VBool b => b | VInt z => negb (z =? 0)%Z | _ => false end.

(** The column defaults of [CREATE TABLE conversations]. *)
Definition conv_defaults (id : nat) : conversation :=
  mkConv id None EmptyString None None None 0%Z false 2%Z.

Definition set_conv_col (c : conversation) (cv : conv_col * sql_val) : conversation :=
  let '(col, v) := cv in
  match col with
  | ColConversationName => mkConv (conversation_id c) (val_text v) (conv_platform c) (thread_id c) (first_message_at c) (last_message_at c) (message_count c) (is_group c) (participant_count c)
  | ColPlatform => mkConv (conversation_id c) (conversation_name c) (match v with VText s => s | _ => EmptyString end) (thread_id c) (first_message_at c) (last_message_at c) (message_count c) (is_group c) (participant_count c)
  | ColThreadId => mkConv (conversation_id c) (conversation_name c) (conv_platform c) (val_text v) (first_message_at c) (last_message_at c) (message_count c) (is_group c) (participant_count c)
  | ColFirstMessageAt => mkConv (conversation_id c) (conversation_name c) (conv_platform c) (thread_id c) (val_int v) (last_message_at c) (message_count c) (is_group c) (participant_count c)
  | ColLastMessageAt => mkConv (conversation_id c) (conversation_name c) (conv_platform c) (thread_id c) (first_message_at c) (val_int v) (message_count c) (is_group c) (participant_count c)
  | ColIsGroup => mkConv (conversation_id c) (conversation_name c) (conv_platform c) (thread_id c) (first_message_at c) (last_message_at c) (message_count c) (val_bool v) (participant_count c)
  | ColParticipantCount => mkConv (conversation_id c) (conversation_name c) (conv_platform c) (thread_id c) (first_message_at c) (last_message_at c) (message_count c) (is_group c) (match v with VInt z => z | _ => 0 end)
  | ColMessageCount => mkConv (conversation_id c) (conversation_name c) (conv_platform c) (thread_id c) (first_message_at c) (last_message_at c) (match v with VInt z => z | _ => 0 end) (is_group c) (participant_count c)
  end.

(** [INSERT INTO conversations (cols) VALUES (...)]; returns [lastrowid]. *)
Definition insert_conversation (cols : list (conv_col * sql_val)) : M nat :=
  fun d =>
    let id := S (seq_conv d) in
    let row := fold_left set_conv_col cols (conv_defaults id) in
    (mkDb (conversations d ++ [row]) (contacts d) (participants d) (messages d)
          id (seq_contact d) (seq_msg d), Ok id).

(** [INSERT INTO contacts (...)] with [UNIQUE(platform, platform_id)]. *)
Definition insert_contact (name email phone : option string) (platform pid : string)
    (me : bool) : M nat :=
  fun d =>
    if existsb (fun k => String.eqb (c_platform k) platform
                         && String.eqb (c_platform_id k) pid) (contacts d)
    then (d, Err IntegrityError)
    else
      let id := S (seq_contact d) in
      (mkDb (conversations d)
            (contacts d ++ [mkContact id name email phone platform pid None None 0 me])
            (participants d) (messages d) (seq_conv d) id (seq_msg d), Ok id).

(** [SELECT contact_id FROM contacts WHERE platform = ? AND platform_id = ?]. *)
Definition find_contact (platform pid : string) : M (option nat) :=
  fun d =>
    (d, Ok (option_map contact_id
              (find (fun k => String.eqb (c_platform k) platform
                              && String.eqb (c_platform_id k) pid) (contacts d)))).

Definition conv_exists (d : db) (cid : nat) : bool :=
  existsb (fun c => Nat.eqb (conversation_id c) cid) (conversations d).
Definition contact_exists (d : db) (kid : nat) : bool :=
  existsb (fun k => Nat.eqb (contact_id k) kid) (contacts d).

(** Trigger [detect_group_conversation] (AFTER INSERT ON conversation_participants). *)
Definition trg_detect_group (cid : nat) (d : db) : list conversation :=
  let n := Z.of_nat (List.length (filter (fun p => Nat.eqb (cp_conversation_id p) cid)
                                         (participants d))) in
  map (fun c => if Nat.eqb (conversation_id c) cid
                then mkConv (conversation_id c) (conversation_name c) (conv_platform c)
                       (thread_id c) (first_message_at c) (last_message_at c)
                       (message_count c) (2 <? n)%Z n
                else c) (conversations d).

(** [INSERT OR IGNORE INTO conversation_participants]: the UNIQUE
    conflict is ignored; a foreign-key failure still raises. *)
Definition insert_or_ignore_participant (cid kid : nat) (r : string) : M unit :=
  fun d =>
    if existsb (fun p => Nat.eqb (cp_conversation_id p) cid
                         && Nat.eqb (cp_contact_id p) kid) (participants d)
    then (d, Ok tt)
    else if negb (conv_exists d cid && contact_exists d kid)
    then (d, Err IntegrityError)
    else
      let d1 := mkDb (conversations d) (contacts d)
                     (participants d ++ [mkPart cid kid r]) (messages d)
                     (seq_conv d) (seq_contact d) (seq_msg d) in
      (mkDb (trg_detect_group cid d1) (contacts d1) (participants d1) (messages d1)
            (seq_conv d1) (seq_contact d1) (seq_msg d1), Ok tt).

(** Trigger [update_conversation_timestamps] (AFTER INSERT ON messages). *)
Definition trg_conversation_timestamps (m : message) (c : conversation) : conversation :=
  if Nat.eqb (conversation_id c) (m_conversation_id m) then
    mkConv (conversation_id c) (conversation_name c) (conv_platform c) (thread_id c)
      (match first_message_at c with Some t => Some t | None => Some (timestamp m) end)
      (Some (timestamp m)) (message_count c + 1)%Z (is_group c) (participant_count c)
  else c.

(** Trigger [update_contact_stats] (AFTER INSERT ON messages); the text
    defaults ['1970-01-01'] and ['9999-12-31'] as epoch seconds. *)
Definition trg_contact_stats (m : message) (k : contact) : contact :=
  if Nat.eqb (contact_id k) (sender_id m) then
    mkContact (contact_id k) (display_name k) (c_email k) (c_phone k) (c_platform k)
      (c_platform_id k)
      (Some (Z.min (match first_seen k with Some t => t | None => 253402214400 end)%Z (timestamp m)))
      (Some (Z.max (match last_seen k with Some t => t | None => 0 end)%Z (timestamp m)))
      (c_message_count k + 1)%Z (is_me k)
  else k.

(** [INSERT INTO messages (...)]: [UNIQUE(platform, platform_message_id)],
    [sender_id NOT NULL] and the foreign keys raise [IntegrityError];
    a successful insert fires both triggers. *)
Definition insert_message (platform pmid : string) (cid : nat) (sender : option nat)
    (ts : Z) (b : string) : M unit :=
  fun d =>
    match sender with
    | None => (d, Err IntegrityError)
    | Some sid =>
        if existsb (fun m => String.eqb (m_platform m) platform
                             && String.eqb (platform_message_id m) pmid) (messages d)
        then (d, Err IntegrityError)
        else if negb (conv_exists d cid && contact_exists d sid)
        then (d, Err IntegrityError)
        else
          let id := S (seq_msg d) in
          let m := mkMsg id platform pmid cid sid ts b in
          (mkDb (map (trg_conversation_timestamps m) (conversations d))
                (map (trg_contact_stats m) (contacts d))
                (participants d) (messages d ++ [m])
                (seq_conv d) (seq_contact d) id, Ok tt)
    end.

(** [SELECT c.contact_id, c.platform_id ... JOIN conversation_participants]
    of the WhatsApp importer, in row order. *)
Definition conversation_members (cid : nat) : M (list (string * nat)) :=
  fun d =>
    (d, Ok (flat_map (fun p =>
              if Nat.eqb (cp_conversation_id p) cid then
                match find (fun k => Nat.eqb (contact_id k) (cp_contact_id p)) (contacts d) with
                | Some k => [(c_platform_id k, contact_id k)]
                | None => []
                end
              else []) (participants d))).

(** [SELECT conversation_id FROM conversations WHERE platform = ? AND thread_id = ?]. *)
Definition find_conversation (platform thread : string) : M (option nat) :=
  fun d =>
    (d, Ok (option_map conversation_id
              (find (fun c => String.eqb (conv_platform c) platform
                              && match thread_id c with
                                 | Some t => String.eqb t thread
                                 | None => false
                                 end) (conversations d)))).

(** Number of [messages] rows of a conversation. *)
Definition count_messages_of (d : db) (cid : nat) : nat :=
  List.length (filter (fun m => Nat.eqb (m_conversation_id m) cid) (messages d)).

Definition msg_key (m : message) : string * string := (m_platform m, platform_message_id m).

End Db.

(* ------------------------------------------------------------------ *)
(** ** Python string and list helpers used by the importers *)
(* ------------------------------------------------------------------ *)

Module PyStr.

(** [sub in s]. *)
Fixpoint contains (sub s : string) : bool :=
  String.prefix sub s
  || match s with
     | EmptyString => false
     | String _ rest => contains sub rest
     end.

(** [s.split(sep)] for a non-empty [sep]. *)
Fixpoint split_fuel (fuel : nat) (sep s acc : string) : list string :=
  match fuel with
  | O => [(acc ++ s)%string]
  | S fuel =>
      match s with
      | EmptyString => [acc]
      | String c rest =>
          if String.prefix sep s
          then acc :: split_fuel fuel sep (substring (String.length sep)
                                            (String.length s) s) EmptyString
          else split_fuel fuel sep rest (acc ++ String c EmptyString)%string
      end
  end.

Definition split (sep s : string) : list string :=
  split_fuel (S (String.length s)) sep s EmptyString.

(** [s.split(sep)[0]]. *)
Definition split_first (sep s : string) : string :=
  match split sep s with
  | x :: _ => x
  | [] => EmptyString
  end.

(** [str.isspace] on ASCII characters. *)
Definition is_space (c : ascii) : bool :=
  let n := nat_of_ascii c in
  ((9 <=? n) && (n <=? 13)) || ((28 <=? n) && (n <=? 32)).

Fixpoint lstrip (s : string) : string :=
  match s with
  | EmptyString => EmptyString
  | String c rest => if is_space c then lstrip rest else s
  end.

Definition rev_string (s : string) : string :=
  string_of_list_ascii (rev (list_ascii_of_string s)).

(** [s.strip()]. *)
Definition strip (s : string) : string := rev_string (lstrip (rev_string (lstrip s))).

(** [s.lower()] on ASCII. *)
Definition lower_char (c : ascii) : ascii :=
  let n := nat_of_ascii c in
  if (65 <=? n) && (n <=? 90) then ascii_of_nat (n + 32) else c.

Fixpoint lower (s : string) : string :=
  match s with
  | EmptyString => EmptyString
  | String c rest => String (lower_char c) (lower rest)
  end.

(** [s.replace(c, '')] for a one-character [c]. *)
Fixpoint remove_char (c : ascii) (s : string) : string :=
  match s with
  | EmptyString => EmptyString
  | String d rest => if Ascii.eqb c d then remove_char c rest else String d (remove_char c rest)
  end.

(** Python truthiness of an optional string. *)
Definition truthy (o : option string) : bool :=
  match o with
  | Some (String _ _) => true
  | _ => false
  end.

(** [a or b] on optional strings. *)
Definition py_or (a b : option string) : option string :=
  if truthy a then a else b.

(** [d[k] = v] on a dict kept as an association list in insertion order. *)
Fixpoint dict_set {V} (k : string) (v : V) (l : list (string * V)) : list (string * V) :=
  match l with
  | [] => [(k, v)]
  | (k', v') :: rest =>
      if String.eqb k k' then (k, v) :: rest else (k', v') :: dict_set k v rest
  end.

Fixpoint dict_get {V} (k : string) (l : list (string * V)) : option V :=
  match l with
  | [] => None
  | (k', v) :: rest => if String.eqb k k' then Some v else dict_get k rest
  end.

(** [list.sort(key=...)]: stable. *)
Fixpoint insert_by {A} (key : A -> Z) (x : A) (l : list A) : list A :=
  match l with
  | [] => [x]
  | y :: rest => if (key x <=? key y)%Z then x :: l else y :: insert_by key x rest
  end.

Fixpoint sort_by {A} (key : A -> Z) (l : list A) : list A :=
  match l with
  | [] => []
  | x :: rest => insert_by key x (sort_by key rest)
  end.

(** [set.add] in first-occurrence order. The iteration order of a Python
    set of strings depends on the string hashes; no property below
    depends on it. *)
Definition set_add (x : string) (l : list string) : list string :=
  if existsb (String.eqb x) l then l else l ++ [x].

(** [str(n)] for an integer. *)
Fixpoint digits_of_pos (fuel : nat) (n : Z) (acc : string) : string :=
  match fuel with
  | O => acc
  | S fuel =>
      let d := String (ascii_of_nat (48 + Z.to_nat (n mod 10))) acc in
      if (n <? 10)%Z then d else digits_of_pos fuel (n / 10)%Z d
  end.

Definition z_to_string (n : Z) : string :=
  if (n <? 0)%Z then ("-" ++ digits_of_pos 64 (- n) EmptyString)%string
  else digits_of_pos 64 n EmptyString.

End PyStr.

(* ------------------------------------------------------------------ *)
(** ** [ChatDatabaseCreator]: the iMessage projection (scripts/create_database.py) *)
(* ------------------------------------------------------------------ *)

Module Imessage.
Import Db.

(** A parsed iMessage message dict. *)
Record imsg := mkImsg {
  im_platform_message_id : string;
  im_timestamp : Z;
  im_body : string;
  im_sender : string;   (* the parser always sets ['sender'] *)
  im_is_sent : bool
}.

(** A participant dict of [_extract_participants] (platform is always
    ['imessage']). *)
Record part := mkParticipant {
  p_platform_id : string;
  p_display_name : string;
  p_email : option string;
  p_phone : option string;
  p_is_me : bool
}.

(** A record of [self.contacts_lookup]. *)
Record lookup_rec := mkLookup {
  lk_phone : option string;
  lk_email : option string;
  lk_display_name : option string
}.

Definition is_phone_like (part : string) : bool :=
  String.prefix "+" part
  || Phone.py_isdigit (PyStr.remove_char ")" (PyStr.remove_char "(" (PyStr.remove_char "-"
       (PyStr.remove_char " " (PyStr.remove_char "+" part))))).

(** One part of the conversation identifier (lines 674-736). *)
Definition participant_of_part (lookup : string -> option lookup_rec) (raw : string) : part :=
  let part := PyStr.strip raw in
  let matched :=
    if PyStr.contains "@" part then lookup ("email:" ++ PyStr.lower part)%string
    else if is_phone_like part then
      let by_norm :=
        match Phone.normalize_phone part with
        | Some (String _ _ as n) => lookup ("phone:" ++ n)%string
        | _ => None
        end in
      match by_norm with
      | Some r => Some r
      | None => lookup ("phone:" ++ part)%string
      end
    else None in
  match matched with
  | Some r =>
      mkParticipant part (match PyStr.py_or (lk_display_name r) (Some part) with
                   | Some n => n | None => part end)
             (lk_email r) (lk_phone r) false
  | None =>
      if is_phone_like part then mkParticipant part part None (Some part) false
      else if PyStr.contains "@" part then mkParticipant part part (Some part) None false
      else mkParticipant part part None None false
  end.

Definition me_part : part := mkParticipant "me" "Me" None None true.

(** [_extract_participants(conv_id, messages)]. *)
Definition extract_participants (lookup : string -> option lookup_rec)
    (conv_id : string) (msgs : list imsg) : list part :=
  map (participant_of_part lookup) (PyStr.split ", " conv_id)
  ++ (if existsb im_is_sent msgs then [me_part] else []).

Definition min_ts (l : list Z) : option Z :=
  match l with [] => None | x :: r => Some (fold_left Z.min r x) end.
Definition max_ts (l : list Z) : option Z :=
  match l with [] => None | x :: r => Some (fold_left Z.max r x) end.

Definition ts_val (o : option Z) : sql_val :=
  match o with Some t => VInt t | None => VNull end.

(** The column list of the INSERT in [_create_conversation]. *)
Definition create_conversation_cols (conv_id : string) (ps : list part)
    (msgs : list imsg) : list (conv_col * sql_val) :=
  let conv_name :=
    if 2 <? List.length ps then PyStr.split_first "," conv_id
    else match filter (fun p => negb (p_is_me p)) ps with
         | p :: _ => p_display_name p
         | [] => conv_id
         end in
  let tss := map im_timestamp msgs in
  [(ColConversationName, VText conv_name); (ColPlatform, VText "imessage");
   (ColThreadId, VText conv_id); (ColFirstMessageAt, ts_val (min_ts tss));
   (ColLastMessageAt, ts_val (max_ts tss));
   (ColIsGroup, VBool (2 <? List.length ps));
   (ColParticipantCount, VInt (Z.of_nat (List.length ps)))].

Definition create_conversation (conv_id : string) (ps : list part) (msgs : list imsg)
  : M nat :=
  insert_conversation (create_conversation_cols conv_id ps msgs).

(** [_get_or_create_contact]. *)
Definition get_or_create_contact (p : part) : M nat :=
  found <- find_contact "imessage" (p_platform_id p) ;;
  match found with
  | Some id => ret id
  | None => insert_contact (Some (p_display_name p)) (p_email p) (p_phone p)
              "imessage" (p_platform_id p) (p_is_me p)
  end.

(** First loop of [_import_messages]: contacts and participant rows. *)
Fixpoint link_participants (cid : nat) (ps : list part) (ids : list (string * nat))
  : M (list (string * nat)) :=
  match ps with
  | [] => ret ids
  | p :: rest =>
      kid <- get_or_create_contact p ;;
      let ids := PyStr.dict_set (p_platform_id p) kid ids in
      insert_or_ignore_participant cid kid "member" ;;;
      link_participants cid rest ids
  end.

(** [for pid, cid in participant_ids.items(): if pid in sender_name or
    sender_name in pid: ...; break]. *)
Fixpoint match_sender (sender_name : string) (ids : list (string * nat)) : option nat :=
  match ids with
  | [] => None
  | (pid, kid) :: rest =>
      if PyStr.contains pid sender_name || PyStr.contains sender_name pid
      then Some kid else match_sender sender_name rest
  end.

(** Body of the second loop of [_import_messages] for one message. *)
Definition import_message (cid : nat) (ids : list (string * nat)) (msg : imsg) : M unit :=
  let sender_name := im_sender msg in
  let sender :=
    if String.eqb sender_name "Me" || im_is_sent msg then PyStr.dict_get "me" ids
    else match_sender sender_name ids in
  sid <- (match sender with
          | Some (S _ as k) => ret k
          | _ =>
              found <- find_contact "imessage" ("sender_" ++ sender_name)%string ;;
              match found with
              | Some k => ret k
              | None => insert_contact (Some sender_name) None None "imessage"
                          ("sender_" ++ sender_name)%string false
              end
          end) ;;
  (* try: INSERT ... except sqlite3.IntegrityError: logger.warning(...) *)
  try_ignore (insert_message "imessage" (im_platform_message_id msg) cid (Some sid)
                (im_timestamp msg) (im_body msg)).

(** [_import_messages(conv_id, participants, messages)]. *)
Definition import_messages (cid : nat) (ps : list part) (msgs : list imsg) : M unit :=
  ids <- link_participants cid ps [] ;;
  mapM_ (import_message cid ids) msgs.

(** One conversation of [process_imessage_exports] (lines 638-663), from
    its parsed messages. *)
Definition process_conversation (lookup : string -> option lookup_rec)
    (conv : string * list imsg) : M unit :=
  let '(conv_id, msgs) := conv in
  match msgs with
  | [] => ret tt
  | _ =>
      let msgs := PyStr.sort_by im_timestamp msgs in
      let ps := extract_participants lookup conv_id msgs in
      cid <- create_conversation conv_id ps msgs ;;
      import_messages cid ps msgs
  end.

(** A full run: fresh database, then every conversation. *)
Definition create_database_run (lookup : string -> option lookup_rec)
    (convs : list (string * list imsg)) : db * result unit :=
  mapM_ (process_conversation lookup) convs empty_db.

(** [import_unified_ledger(ledger_path)] (lines 890-910), from what
    [json.load] gives: [None] when opening or parsing raises (logged,
    [return]), [Some true] for a JSON object, [Some false] for any other
    JSON value, on which [ledger_data.get] raises. The method logs the
    message count and runs no statement. *)
Definition import_unified_ledger (loaded : option bool) : M unit :=
  match loaded with
  | None => ret tt
  | Some true => ret tt
  | Some false => raise AttributeError
  end.

End Imessage.

(* ------------------------------------------------------------------ *)
(** ** [iMessageExtractor.extract_all] (src/src/extractors/imessage_extractor.py) *)
(* ------------------------------------------------------------------ *)

Module ImessageExtractor.
Local Open Scope string_scope.

(** [Contact] of schema.py. *)
Record contact := mkContact {
  ct_name : option string;
  ct_email : option string;
  ct_phone : option string;
  ct_platform_id : string;
  ct_platform : string
}.

(** The fields of [Message] that [extract_all] reads. *)
Record message := mkMessage {
  m_sender : contact;
  m_recipients : list contact;
  m_participants : list contact;
  m_body : option string;
  m_attachments : list string
}.

Section Extract.

(** A row of the [message] query. *)
Variable row : Type.
Variable row_is_from_me : row -> bool.
(** [phone_email] of [_row_to_message] after its chat-participant
    fallback query. *)
Variable row_phone_email : row -> option string.
(** The [body] and [attachment_list] [_row_to_message] computes from the
    row (text, tapback, item_type and attachment queries); [None] when
    it raises. *)
Variable row_content : row -> option (option string * list string).
(** [get_contact_name] and [get_email_contact_name] (Contacts app). *)
Variable get_contact_name get_email_contact_name : string -> option string.

Definition me_contact : contact := mkContact (Some "Me") None None "me" "imessage".

(** The other party of a one-to-one message, from [phone_email]. *)
Definition other_contact (phone_email : option string) : contact :=
  match phone_email with
  | Some (String _ _ as s) =>
      if PyStr.contains "@" s
      then mkContact (get_email_contact_name s) (Some s) None s "imessage"
      else if String.prefix "+" s
              || Phone.py_isdigit (PyStr.remove_char " " (PyStr.remove_char "-"
                                     (PyStr.remove_char "+" s)))
      then mkContact (get_contact_name s) None (Some s) s "imessage"
      else mkContact None None None s "imessage"
  | _ => mkContact None None None "unknown" "imessage"
  end.

(** [_row_to_message(row, ...)]; [None] when it raises. *)
Definition row_to_message (r : row) : option message :=
  match row_content r with
  | None => None
  | Some (body, atts) =>
      let '(sender, recipients) :=
        if row_is_from_me r then (me_contact, [other_contact (row_phone_email r)])
        else (other_contact (row_phone_email r), [me_contact]) in
      Some (mkMessage sender recipients (sender :: recipients) body atts)
  end.

(** [is_tapback = message.body and '[Tapback' in message.body]. *)
Definition is_tapback (m : message) : bool :=
  PyStr.truthy (m_body m)
  && match m_body m with Some b => PyStr.contains "[Tapback" b | None => false end.

(** The first [continue] of [extract_all]: empty body, no attachment,
    not a tapback. *)
Definition skip_empty (m : message) : bool :=
  (if PyStr.truthy (m_body m)
   then match m_body m with Some b => String.eqb (PyStr.strip b) "" | None => true end
   else true)
  && match m_attachments m with [] => true | _ => false end
  && negb (is_tapback m).

(** [len(message.participants) if message.participants else 0]. *)
Definition participant_count (m : message) : nat := List.length (m_participants m).

(** [UnifiedLedger.add_message] of [UnifiedLedger()]: [start_date] is
    [None], the message is appended. *)
Definition add_message (ledger : list message) (m : message) : list message :=
  ledger ++ [m].

(** The loop of [extract_all] over the rows; [except Exception:
    continue]. *)
Fixpoint extract_rows (rows : list row) (ledger : list message) : list message :=
  match rows with
  | [] => ledger
  | r :: rest =>
      match row_to_message r with
      | None => extract_rows rest ledger
      | Some m =>
          if skip_empty m then extract_rows rest ledger
          else if Nat.ltb 7 (participant_count m) then extract_rows rest ledger
          else extract_rows rest (add_message ledger m)
      end
  end.

Definition extract_all (rows : list row) : list message := extract_rows rows [].

End Extract.

End ImessageExtractor.

(* ------------------------------------------------------------------ *)
(** ** [WhatsAppDatabaseImporter] (import_whatsapp_to_database.py) *)
(* ------------------------------------------------------------------ *)

Module WhatsApp.
Import Db.

(** [s.replace(pat, rep)] for a non-empty [pat]. *)
Fixpoint replace_fuel (fuel : nat) (pat rep s : string) : string :=
  match fuel with
  | O => s
  | S fuel =>
      match s with
      | EmptyString => EmptyString
      | String c rest =>
          if String.prefix pat s
          then (rep ++ replace_fuel fuel pat rep
                          (substring (String.length pat) (String.length s) s))%string
          else String c (replace_fuel fuel pat rep rest)
      end
  end.

Definition py_replace (pat rep s : string) : string :=
  replace_fuel (S (String.length s)) pat rep s.

(** A [Message] of the chat exporter, with the fields the importer reads.
    Timestamps are integers (seconds, or milliseconds above 9999999999). *)
Record wa_msg := mkWaMsg {
  from_me : bool;
  wm_timestamp : option Z;
  key_id : option string;
  data : option string;
  meta : bool;
  media : bool;
  caption : option string;
  wm_sender : option string
}.

(** A [ChatStore]: its name and [_messages.values()] in order. *)
Record chat_store := mkChatStore {
  store_name : option string;
  store_messages : list wa_msg
}.

Definition ts_truthy (o : option Z) : bool :=
  match o with Some t => negb (t =? 0)%Z | None => false end.

(** The local time zone of the run: [utc_offset t] is the offset, in
    seconds east of UTC, that [time.localtime] applies at the instant [t].
    Time zone offsets (the POSIX [TZ] syntax included) stay under 25
    hours. *)
Record time_zone := mkTimeZone {
  utc_offset : Z -> Z;
  utc_offset_range : forall t, (-90000 < utc_offset t < 90000)%Z
}.

(** [datetime.fromtimestamp(t)]: the local date must lie in the years 1 to
    9999 (from -62135596800 to 253402300800 seconds in local time),
    otherwise a [ValueError] (an [OverflowError] or [OSError] for values
    beyond the platform's [time_t], which the code handles alike). *)
Definition fromtimestamp (tz : time_zone) (t : Z) : M Z :=
  let local := (t + utc_offset tz t)%Z in
  if ((-62135596800 <=? local) && (local <? 253402300800))%Z then ret t
  else raise ValueError.

(** The participant set shared by [_count_participants] and
    [import_participants]: the names in first-occurrence order, and
    whether a message is [from_me]. *)
Definition participant_of_msg (chat_id : string) (cs : chat_store) (m : wa_msg)
  : option string :=
  if PyStr.truthy (wm_sender m) then wm_sender m
  else if PyStr.truthy (store_name cs) then store_name cs
  else if PyStr.contains "@s.whatsapp.net" chat_id then Some (PyStr.split_first "@" chat_id)
  else if PyStr.contains "@g.us" chat_id then Some chat_id
  else None.

Definition participant_set (chat_id : string) (cs : chat_store) (msgs : list wa_msg)
  : list string * bool :=
  fold_left (fun acc m =>
      let '(ps, me) := acc in
      if from_me m then (ps, true)
      else match participant_of_msg chat_id cs m with
           | Some p => (PyStr.set_add p ps, me)
           | None => (ps, me)
           end) msgs ([], false).

(** [_count_participants]. *)
Definition count_participants (chat_id : string) (cs : chat_store) (msgs : list wa_msg) : nat :=
  let '(ps, me) := participant_set chat_id cs msgs in
  List.length ps + (if me then 1 else 0).

(** [_get_or_create_whatsapp_contact]. *)
Definition get_or_create_whatsapp_contact (participant chat_id : string) (cs : chat_store)
  : M nat :=
  let is_me := String.eqb participant "me" in
  let '(platform_id, display_name, phone) :=
    if is_me then (Some "me"%string, Some "Me"%string, None)
    else if PyStr.contains "@" chat_id then
      let '(pid, ph) :=
        if PyStr.contains "@s.whatsapp.net" chat_id
        then (Some chat_id, Some (PyStr.split_first "@" chat_id))
        else if PyStr.contains "@g.us" chat_id then (Some chat_id, Some chat_id)
        else (None, None) in
      (pid, (if PyStr.truthy (Some participant) then Some participant
             else PyStr.py_or (store_name cs) ph), ph)
    else
      let p := if PyStr.truthy (Some participant) then participant else chat_id in
      (Some p, Some p,
       if PyStr.truthy (Some participant)
          && Phone.py_isdigit (PyStr.remove_char "+" participant)
       then Some participant else None) in
  let platform_id := match platform_id with
                     | Some (String _ _ as p) => p
                     | _ => chat_id
                     end in
  found <- find_contact "whatsapp" platform_id ;;
  match found with
  | Some k => ret k
  | None => insert_contact display_name None phone "whatsapp" platform_id is_me
  end.

(** [import_participants]. *)
Definition import_participants (conv_db_id : nat) (chat_id : string) (cs : chat_store)
    (msgs : list wa_msg) : M unit :=
  let '(ps, me) := participant_set chat_id cs msgs in
  let all_participants := (if me then ["me"%string] else []) ++ ps in
  mapM_ (fun p =>
           kid <- get_or_create_whatsapp_contact p chat_id cs ;;
           insert_or_ignore_participant conv_db_id kid "member") all_participants.

(** [_extract_message_body]. *)
Definition extract_message_body (m : wa_msg) : string :=
  let b :=
    if PyStr.truthy (data m) then match data m with Some s => s | None => EmptyString end
    else if meta m then "[Metadata]"%string
    else if media m then
      match caption m with
      | Some (String _ _ as c) => ("[Media] " ++ c)%string
      | _ => "[Media]"%string
      end
    else "[Empty message]"%string in
  let b := if PyStr.contains "<br>" b then py_replace "<br>" " " b else b in
  substring 0 (Z.to_nat 10000) b.

Definition first_other (ps : list (string * nat)) : option nat :=
  match filter (fun pc => negb (String.eqb (fst pc) "me")) ps with
  | (_, k) :: _ => Some k
  | [] => None
  end.

(** [str(msg.key_id) if msg.key_id else f"wa_{msg.timestamp}"]. *)
Definition platform_msg_id (m : wa_msg) : string :=
  match key_id m with
  | Some (String _ _ as k) => k
  | _ => ("wa_" ++ match wm_timestamp m with
                   | Some t => PyStr.z_to_string t
                   | None => "None"
                   end)%string
  end.

Section Messages.
(** The value of [datetime.now()] during the run. *)
Variable now : Z.
(** The local time zone [datetime.fromtimestamp] converts to. *)
Variable tz : time_zone.

(** The body of the [try] of [import_messages] for one message;
    [None] is the [continue] when no sender is found. *)
Definition import_message (conv_db_id : nat) (chat_id : string)
    (ps : list (string * nat)) (m : wa_msg) : M unit :=
  let sender :=
    if from_me m then Some (PyStr.dict_get "me" ps)
    else
      let s1 := match wm_sender m with
                | Some (String _ _ as snd) => Imessage.match_sender snd ps
                | _ => None
                end in
      let s2 := match s1 with
                | Some (S _) => s1
                | _ => if PyStr.contains "@s.whatsapp.net" chat_id
                       then match first_other ps with Some k => Some k | None => s1 end
                       else s1
                end in
      match s2 with
      | Some (S _) => Some s2
      | _ => None
      end in
  match sender with
  | None => ret tt
  | Some sender_id =>
      let body := extract_message_body m in
      let platform_msg_id := platform_msg_id m in
      ts <- (match wm_timestamp m with
             | Some t => if (t =? 0)%Z then ret now
                         (* [msg.timestamp / 1000] is a true division; its
                            fraction is dropped here *)
                         else fromtimestamp tz (if (9999999999 <? t)%Z then t / 1000 else t)%Z
             | None => ret now
             end) ;;
      insert_message "whatsapp" platform_msg_id conv_db_id sender_id ts body
  end.

(** [import_messages]: the participants dict from the join, then each
    message in its own [try] (every exception is caught). *)
Definition import_messages (conv_db_id : nat) (chat_id : string) (msgs : list wa_msg)
  : M unit :=
  rows <- conversation_members conv_db_id ;;
  let ps := fold_left (fun acc r => PyStr.dict_set (fst r) (snd r) acc) rows [] in
  mapM_ (fun m => try_ignore (import_message conv_db_id chat_id ps m)) msgs.

Definition sort_key (m : wa_msg) : Z :=
  match wm_timestamp m with Some t => t | None => 0%Z end.

Definition conv_ts (o : option Z) : M (option Z) :=
  match o with
  | Some t => if (t =? 0)%Z then ret None else (x <- fromtimestamp tz t ;; ret (Some x))
  | None => ret None
  end.

(** The column list of the INSERT in [import_conversation]. *)
Definition conversation_cols (conv_name chat_id : string) (first_ts last_ts : option Z)
    (is_group : bool) (n_messages : nat) : list (conv_col * sql_val) :=
  [(ColConversationName, VText conv_name);
   (ColPlatform, VText "whatsapp"); (ColThreadId, VText chat_id);
   (ColFirstMessageAt, Imessage.ts_val first_ts);
   (ColLastMessageAt, Imessage.ts_val last_ts);
   (ColIsGroup, VBool is_group); (ColParticipantCount, VInt 2);
   (ColMessageCount, VInt (Z.of_nat n_messages))].

(** [import_conversation]. *)
Definition import_conversation (chat_id : string) (cs : chat_store) : M unit :=
  let is_group := PyStr.contains "@g.us" chat_id in
  let conv_name := match PyStr.py_or (store_name cs) (Some chat_id) with
                   | Some n => n | None => chat_id end in
  match store_messages cs with
  | [] => ret tt
  | _ =>
      let msgs := PyStr.sort_by sort_key (store_messages cs) in
      if 7 <? count_participants chat_id cs msgs then ret tt
      else
        first_ts <- conv_ts (match msgs with m :: _ => wm_timestamp m | [] => None end) ;;
        last_ts <- conv_ts (match rev msgs with m :: _ => wm_timestamp m | [] => None end) ;;
        row <- find_conversation "whatsapp" chat_id ;;
        conv_db_id <- (match row with
                       | Some id => ret id
                       | None => insert_conversation
                           (conversation_cols conv_name chat_id first_ts last_ts is_group
                              (List.length msgs))
                       end) ;;
        import_participants conv_db_id chat_id cs msgs ;;;
        import_messages conv_db_id chat_id msgs
  end.

(** [import_all]: every conversation in its own [try]; nothing is rolled
    back. *)
Definition import_all (chats : list (string * chat_store)) : M unit :=
  mapM_ (fun c => try_ignore (import_conversation (fst c) (snd c))) chats.

End Messages.

End WhatsApp.

(* ------------------------------------------------------------------ *)
(** ** [ChatDatabaseCreator._load_contacts] (scripts/create_database.py) *)
(* ------------------------------------------------------------------ *)

Module ContactsCsv.
Import Imessage.

(** One row of [csv.DictReader]: [row.get(col, '')] for the four columns
    read. A column missing from the header gives [''] (as [Some EmptyString]);
    a row shorter than the header gives [None] for the missing fields. *)
Record csv_row := mkRow {
  col_name : option string;
  col_email : option string;
  col_phone : option string;
  col_organization : option string
}.

(** [contact_record] of [_load_contacts], from the stripped fields (the
    ['organization'] entry is never read back and is left out). *)
Definition row_record (name email phone organization : string) : lookup_rec :=
  mkLookup (Phone.normalize_phone phone)
    (if PyStr.truthy (Some email) then Some (PyStr.lower email) else None)
    (Some (if PyStr.truthy (Some name) then name else organization)).

Definition opt_str_eqb (a b : option string) : bool :=
  match a, b with
  | Some x, Some y => String.eqb x y
  | None, None => true
  | _, _ => false
  end.

(** One iteration of the [for row in reader] loop of [_load_contacts];
    [None] when [.strip()] is called on [None] and raises. *)
Definition load_row (lk : list (string * lookup_rec)) (row : csv_row)
  : option (list (string * lookup_rec)) :=
  match col_name row, col_email row, col_phone row, col_organization row with
  | Some n, Some e, Some p, Some o =>
      let name := PyStr.strip n in
      let email := PyStr.strip e in
      let phone := PyStr.strip p in
      let organization := PyStr.strip o in
      if negb (PyStr.truthy (Some name)) && negb (PyStr.truthy (Some email))
         && negb (PyStr.truthy (Some phone))
      then Some lk
      else
        let normalized_phone := Phone.normalize_phone phone in
        let record := row_record name email phone organization in
        let lk := if PyStr.truthy (Some email)
                  then PyStr.dict_set ("email:" ++ PyStr.lower email)%string record lk
                  else lk in
        let lk := match normalized_phone with
                  | Some (String _ _ as np) => PyStr.dict_set ("phone:" ++ np)%string record lk
                  | _ => lk
                  end in
        let lk := if PyStr.truthy (Some phone)
                     && negb (opt_str_eqb (Some phone) normalized_phone)
                  then PyStr.dict_set ("phone:" ++ phone)%string record lk
                  else lk in
        Some lk
  | _, _, _, _ => None
  end.

(** The loop inside [try]: an exception ends it, keeping the entries
    already stored in [self.contacts_lookup]. *)
Fixpoint load_rows (rows : list csv_row) (lk : list (string * lookup_rec))
  : list (string * lookup_rec) :=
  match rows with
  | [] => lk
  | row :: rest =>
      match load_row lk row with
      | Some lk' => load_rows rest lk'
      | None => lk
      end
  end.

(** [_load_contacts] on a readable CSV file, from the empty
    [self.contacts_lookup = {}]. *)
Definition load_contacts (rows : list csv_row) : list (string * lookup_rec) :=
  load_rows rows [].

(** [key in self.contacts_lookup] followed by [self.contacts_lookup[key]]. *)
Definition contacts_lookup (lk : list (string * lookup_rec)) (key : string)
  : option lookup_rec :=
  PyStr.dict_get key lk.

End ContactsCsv.

(* ------------------------------------------------------------------ *)
(** ** [IsolatedLLMProcessor] (src/src/utils/chunked_processor.py) *)
(* ------------------------------------------------------------------ *)

Module Llm.
Import Chunked.

(** How the retry loop of [__call__] ends. *)
Inductive loop_end (R : Type) :=
| LReturn (r : R)          (* [return result] *)
| LInterrupt               (* [KeyboardInterrupt] re-raised *)
| LExhausted (last_error : option py_exn).
Arguments LReturn {R} r.
Arguments LInterrupt {R}.
Arguments LExhausted {R} last_error.

Section Call.

Variables (I R : Type).
(** Python truthiness of a result ([if result:]). *)
Variable truthy : R -> bool.
(** What the call [self.llm_func(item)] of attempt [k] (0-based) does. *)
Variable llm_func : nat -> I -> call_result R.
Variable fallback_func : option (I -> call_result R).
Variable max_retries : nat.
Variable continue_on_error : bool.

(** [for attempt in range(...)], from [attempt] on, with [remaining]
    attempts left. *)
Fixpoint attempts (item : I) (attempt remaining : nat) (last_error : option py_exn)
  : loop_end R :=
  match remaining with
  | O => LExhausted last_error
  | S remaining =>
      match llm_func attempt item with
      | Returns (Some r) =>
          if truthy r then LReturn r
          else attempts item (S attempt) remaining last_error
      | Returns None => attempts item (S attempt) remaining last_error
      | Raises KeyboardInterrupt => LInterrupt
      | Raises e => attempts item (S attempt) remaining (Some e)
      end
  end.

(** [__call__(item)]. *)
Definition call (item : I) : call_result R :=
  match attempts item 0 (S max_retries) None with
  | LReturn r => Returns (Some r)
  | LInterrupt => Raises KeyboardInterrupt
  | LExhausted last_error =>
      let from_fallback :=
        match fallback_func with
        | Some f =>
            match f item with
            | Returns v => Some (Returns v)
            | Raises KeyboardInterrupt => Some (Raises KeyboardInterrupt)
            | Raises _ => None      (* except Exception: logged *)
            end
        | None => None
        end in
      match from_fallback with
      | Some res => res
      | None =>
          if continue_on_error then Returns None
          else Raises (match last_error with
                       | Some e => e
                       | None => PyException "LLM processing failed"
                       end)
      end
  end.

End Call.

Arguments attempts {I R} truthy llm_func item attempt remaining last_error.
Arguments call {I R} truthy llm_func fallback_func max_retries continue_on_error item.

End Llm.

(* ------------------------------------------------------------------ *)
(** ** [retry_with_backoff] and [safe_subprocess_run]
       (src/src/utils/error_handling.py) *)
(* ------------------------------------------------------------------ *)

Module Retry.

(** How the wrapped call ends: a value, an exception, or the [TypeError]
    of [raise last_exception] with [last_exception = None]. *)
Inductive retry_result (A E : Type) :=
| RReturns (a : A)
| RRaises (e : E)
| RRaiseNone.
Arguments RReturns {A E} a.
Arguments RRaises {A E} e.
Arguments RRaiseNone {A E}.

Section Backoff.

Variables (A E D : Type).
(** [isinstance(e, exceptions)]. *)
Variable caught : E -> bool.
(** What the wrapped [func] does on attempt [k] (1-based). *)
Variable func : nat -> A + E.
(** The [on_retry] callback, if any: [Some x] when [on_retry(e, attempt)]
    raises [x]. *)
Variable on_retry : option (E -> nat -> option E).
(** [time.sleep(delay)]: [Some x] when it raises [x] (a [ValueError] for
    a negative delay). *)
Variable sleep : D -> option E.
(** [min(delay * backoff_factor, max_delay)]. *)
Variable next_delay : D -> D.
Variable max_attempts : Z.

(** The [for attempt in range(1, max_attempts + 1)] loop from [attempt]
    on; the second component lists the [time.sleep(delay)] calls that
    returned. An exception of [on_retry] or [time.sleep], raised inside the
    [except] block, leaves [wrapper]. *)
Fixpoint retry_loop (attempt remaining : nat) (delay : D) (last_exception : option E)
  : retry_result A E * list D :=
  match remaining with
  | O => (match last_exception with
          | Some e => RRaises e
          | None => RRaiseNone
          end, [])
  | S remaining =>
      match func attempt with
      | inl a => (RReturns a, [])
      | inr e =>
          if caught e then
            if (Z.of_nat attempt =? max_attempts)%Z then (RRaises e, [])
            else
              match match on_retry with
                    | Some f => f e attempt
                    | None => None
                    end with
              | Some x => (RRaises x, [])
              | None =>
                  match sleep delay with
                  | Some x => (RRaises x, [])
                  | None =>
                      let '(r, sleeps) :=
                        retry_loop (S attempt) remaining (next_delay delay) (Some e) in
                      (r, delay :: sleeps)
                  end
              end
          else (RRaises e, [])
      end
  end.

(** [wrapper()] of [retry_with_backoff(max_attempts, initial_delay, ...)]. *)
Definition retry_with_backoff (initial_delay : D) : retry_result A E * list D :=
  retry_loop 1 (Z.to_nat max_attempts) initial_delay None.

End Backoff.

Arguments retry_loop {A E D} caught func on_retry sleep next_delay max_attempts attempt
  remaining delay last_exception.
Arguments retry_with_backoff {A E D} caught func on_retry sleep next_delay max_attempts
  initial_delay.

(** The exceptions [subprocess.run] can raise, by the classes the code
    distinguishes. *)
Inductive sp_exn :=
| TimeoutExpired                 (* a SubprocessError *)
| CalledProcessError             (* a SubprocessError, with check=True *)
| OSErr                          (* OSError: FileNotFoundError, PermissionError, ... *)
| OtherException                 (* any other Exception *)
| SpKeyboardInterrupt.           (* a BaseException only *)

Definition sp_retryable (e : sp_exn) : bool :=
  match e with
  | TimeoutExpired | CalledProcessError | OSErr => true
  | _ => false
  end.

(** Delays in seconds: [initial_delay=1.0], [backoff_factor=2.0],
    [max_delay=60.0] are exact in floating point along the run. *)
Definition sp_next_delay (d : Z) : Z := Z.min (d * 2) 60.

(** [time.sleep(d)]: a [ValueError] for a negative [d]. *)
Definition sp_sleep (d : Z) : option sp_exn :=
  if (d <? 0)%Z then Some OtherException else None.

(** [safe_subprocess_run(cmd, ..., retries)]: [run k] is what
    [subprocess.run] does on attempt [k]. The outer handlers turn every
    [Exception] (and the [TypeError] of [raise None]) into [None]; a
    [KeyboardInterrupt] propagates. It passes no [on_retry]. *)
Definition safe_subprocess_run {CP} (run : nat -> CP + sp_exn) (retries : Z)
  : (option CP + sp_exn) * list Z :=
  let '(r, sleeps) :=
    retry_with_backoff sp_retryable run None sp_sleep sp_next_delay (retries + 1) 1%Z in
  (match r with
   | RReturns cp => inl (Some cp)
   | RRaises SpKeyboardInterrupt => inr SpKeyboardInterrupt
   | RRaises _ => inl None
   | RRaiseNone => inl None
   end, sleeps).

End Retry.

(* ================================================================== *)
(** * Properties *)
(* ================================================================== *)

Module ChunkedFacts.
Import Chunked.

Lemma py_in_In (x : string) (l : list string) : py_in x l = true <-> In x l.
Proof.
  unfold py_in. rewrite existsb_exists. split.
  - intros [y [Hy Heq]]. apply String.eqb_eq in Heq. subst. exact Hy.
  - intros H. exists x. split; [exact H | apply String.eqb_refl].
Qed.

(** At a chunk boundary the checkpoint write comes before the write of the
    pending results. *)
Lemma end_of_item_order {R} (cfg : config) (s : st R) :
  chunk_size cfg <= item_count s -> cur s <> [] -> has_result_file cfg = true ->
  writes (end_of_item cfg s)
  = writes s ++ [CheckpointWrite (bump_chunk (prog s)); ResultsWrite (map Line (cur s))].
Proof.
  intros Hle Hc Hrf. unfold end_of_item.
  apply Nat.leb_le in Hle. rewrite Hle.
  destruct (cur s) as [|r rs]; [congruence|].
  simpl. unfold save_results. rewrite Hrf. rewrite <- app_assoc. reflexivity.
Qed.

(** Where the checkpoint on disk comes from after a list of writes. *)
Lemma load_checkpoint_after {R} (d : disk R) (ws : list (write R)) :
  load_checkpoint (disk_after d ws) = load_checkpoint d
  \/ In (CheckpointWrite (load_checkpoint (disk_after d ws))) ws.
Proof.
  unfold disk_after. revert d. induction ws as [|w ws IH]; intros d; simpl.
  - left. reflexivity.
  - destruct (IH (apply_write d w)) as [H|H].
    + rewrite H. destruct w as [p|ls]; simpl.
      * right. left. reflexivity.
      * left. unfold load_checkpoint. reflexivity.
    + right. right. exact H.
Qed.

Section Resume.
Variables (I R : Type) (gid : I -> string) (f : I -> call_result R).
Variable cfg : config.
Variables (p0 : ChunkProgress) (items : list I).

(** An id may be in a checkpoint written by the run only if it was there
    before the run or an item of the run with that id returned a result. *)
Definition from_run (k : string) : Prop :=
  In k (processed_ids p0)
  \/ exists y r, In y items /\ gid y = k /\ f y = Returns (Some r).
Definition ids_ok (p : ChunkProgress) : Prop :=
  forall k, In k (processed_ids p) -> from_run k.
Definition writes_ok (ws : list (write R)) : Prop :=
  forall p, In (CheckpointWrite p) ws -> ids_ok p.
Definition st_ok (s : st R) : Prop := ids_ok (prog s) /\ writes_ok (writes s).

Lemma writes_ok_app ws1 ws2 : writes_ok ws1 -> writes_ok ws2 -> writes_ok (ws1 ++ ws2).
Proof.
  intros H1 H2 p Hp. apply in_app_or in Hp. destruct Hp; [apply H1 | apply H2]; assumption.
Qed.

Lemma writes_ok_results b : writes_ok (save_results cfg b).
Proof.
  intros p Hp. unfold save_results in Hp.
  destruct (has_result_file cfg); simpl in Hp; [destruct Hp as [H|H]|]; try discriminate; contradiction.
Qed.

Lemma writes_ok_ckpt p : ids_ok p -> writes_ok (save_checkpoint p).
Proof.
  intros H q [Hq|[]]. injection Hq as <-. exact H.
Qed.

Lemma ids_ok_p0 : ids_ok p0.
Proof. intros k Hk. left. exact Hk. Qed.

Lemma ids_ok_same p q : processed_ids q = processed_ids p -> ids_ok p -> ids_ok q.
Proof. intros He H k Hk. rewrite He in Hk. apply H. exact Hk. Qed.

Create HintDb resume.
#[local] Hint Resolve writes_ok_app writes_ok_results writes_ok_ckpt : resume.
#[local] Hint Extern 2 (ids_ok _) => (eapply ids_ok_same; [reflexivity|]) : resume.

Lemma end_of_item_ok s : st_ok s -> st_ok (end_of_item cfg s).
Proof.
  intros [Hp Hw]. unfold end_of_item.
  destruct (chunk_size cfg <=? item_count s); [|split; assumption].
  destruct (cur s); split; simpl; auto with resume.
Qed.

Lemma step_ok resume ps s item :
  In item items -> st_ok s ->
  match step gid f cfg resume ps s item with
  | inl s' => st_ok s'
  | inr (s', _) => st_ok s'
  end.
Proof.
  intros Hin [Hp Hw]. unfold step.
  destruct (resume_skips gid resume ps item).
  { split; assumption. }
  destruct (f item) as [[r|]|e] eqn:Hf.
  - assert (Hr : ids_ok (record_success (prog s) (gid item))).
    { intros k Hk. simpl in Hk. apply in_app_or in Hk. destruct Hk as [Hk|[Hk|[]]].
      - apply Hp. exact Hk.
      - right. exists item, r. auto. }
    destruct (save_interval cfg <=? Z.of_nat (List.length (cur s ++ [r])))%Z;
      apply end_of_item_ok; split; simpl; auto with resume.
  - apply end_of_item_ok. split; assumption.
  - destruct e;
      [ split; cbn [prog writes]; auto with resume
      | unfold set_prog; cbn [prog writes];
        destruct (isolated_errors cfg); split; cbn [prog writes]; auto with resume .. ].
Qed.

Lemma loop_ok resume ps s l :
  incl l items -> st_ok s -> st_ok (fst (loop gid f cfg resume ps s l)).
Proof.
  revert s. induction l as [|x l IH]; intros s Hincl Hs; simpl; [exact Hs|].
  pose proof (step_ok resume ps s x (Hincl x (or_introl eq_refl)) Hs) as Hst.
  destruct (step gid f cfg resume ps s x) as [s'|[s' e]].
  - apply IH; [intros y Hy; apply Hincl; right; exact Hy | exact Hst].
  - exact Hst.
Qed.

Lemma writes_ok_nil : writes_ok [].
Proof. intros q []. Qed.
#[local] Hint Resolve writes_ok_nil : resume.

Lemma process_chunked_ok total resume :
  writes_ok (writes (fst (process_chunked gid f cfg p0 items total resume))).
Proof.
  unfold process_chunked.
  destruct (init_progress cfg p0 total) as [p|] eqn:Hp; [|intros q []].
  assert (Hpk : ids_ok p).
  { unfold init_progress in Hp.
    destruct total as [[|n]|];
      [| destruct (chunk_size cfg =? 0); [discriminate|] |];
      injection Hp as <-; auto with resume;
      apply ids_ok_p0. }
  pose proof (loop_ok resume (if resume then processed_ids p else [])
                (mkSt p [] [] 0 []) items (incl_refl _)) as Hl.
  destruct (loop gid f cfg resume _ _ items) as [s r].
  destruct Hl as [Hs Hw]; [split; [exact Hpk | intros q []]|].
  destruct r as [e|]; [destruct e|]; cbn [fst writes];
    repeat apply writes_ok_app; auto with resume;
    destruct (cur s); auto with resume.
Qed.

End Resume.

(** Concrete instances used by the statements below. *)
Definition c4_f (n : nat) : call_result nat :=
  if n =? 3 then Raises (PyException "boom") else Returns (Some (10 * n)).
Definition c4_id (n : nat) : string := String (ascii_of_nat (48 + n)) EmptyString.
Definition c4_cfg : config := mkConfig 2 10 true true.

Example c4_run :
  let '(s, o) := process_chunked c4_id c4_f c4_cfg fresh_progress [1;2;3;4;5] None true in
  (processed_items (prog s), failed_items (prog s), processed_ids (prog s), failed_ids (prog s))
  = (5, 1, ["1";"2";"4";"5"]%string, ["3"]%string).
Proof. reflexivity. Qed.

(** One item, a chunk of one item, the default [save_interval] of 10. *)
Definition c1_cfg : config := mkConfig 1 10 true true.
Definition c1_writes : list (write nat) :=
  writes (fst (process_chunked (fun s : string => s) (fun _ => Returns (Some 7))
                 c1_cfg fresh_progress ["a"%string] None true)).
Definition c1_ckpt : ChunkProgress :=
  mkProgress 0 1 1 0 0 1 0 ["a"%string] [].

Definition c10_f (n : nat) : call_result nat :=
  if n =? 2 then Returns None else Returns (Some n).

(** ** C1 (code_bug)
    At a chunk boundary [process_chunked] persists the checkpoint (line 262)
    before it writes the chunk's pending results (line 264). On the run of
    one item with [chunk_size = 1], the disk after the first write holds a
    checkpoint whose [processed_ids] contains ["a"] while the results file
    is still empty: the id is recorded before the item's result is durable. *)
Theorem checkpoint_written_before_results :
  c1_writes = [CheckpointWrite c1_ckpt; ResultsWrite [Line 7]; CheckpointWrite c1_ckpt]
  /\ disk_after (mkDisk None []) (firstn 1 c1_writes) = mkDisk (Some c1_ckpt) []
  /\ In "a"%string (processed_ids c1_ckpt)
  /\ disk_after (mkDisk None []) c1_writes = mkDisk (Some c1_ckpt) [Line 7].
Proof.
  repeat split; try reflexivity. left. reflexivity.
Qed.

(** ** C4
    With [chunk_size = 2], isolated errors, a fresh progress and five items
    of which the third raises an [Exception] (not [KeyboardInterrupt]) and
    the others return a result, the run ends with [processed_items = 5],
    [failed_items = 1], [processed_ids] the ids of items 1, 2, 4, 5 and
    [failed_ids] the id of item 3, whatever the save interval, the result
    file, [total_items] and [resume]. *)
Theorem chunked_scenario_five_items {I R} (get_item_id : I -> string)
  (f : I -> call_result R) (si : Z) (hrf resume : bool) (total : option nat)
  (i1 i2 i3 i4 i5 : I) (r1 r2 r4 r5 : R) (e : py_exn) :
  f i1 = Returns (Some r1) -> f i2 = Returns (Some r2) ->
  f i3 = Raises e -> e <> KeyboardInterrupt ->
  f i4 = Returns (Some r4) -> f i5 = Returns (Some r5) ->
  let '(s, o) := process_chunked get_item_id f (mkConfig 2 si true hrf)
                   fresh_progress [i1; i2; i3; i4; i5] total resume in
  processed_items (prog s) = 5 /\ failed_items (prog s) = 1 /\
  processed_ids (prog s)
    = [get_item_id i1; get_item_id i2; get_item_id i4; get_item_id i5] /\
  failed_ids (prog s) = [get_item_id i3] /\ o = Completed [r1; r2; r4; r5].
Proof.
  intros H1 H2 H3 He H4 H5.
  assert (Hsk : forall ps i, ps = [] -> resume_skips get_item_id resume ps i = false)
    by (intros ps i ->; unfold resume_skips; simpl; destruct resume; reflexivity).
  destruct e; try congruence; clear He;
  destruct total as [[|n]|]; unfold process_chunked, init_progress; simpl;
  unfold step; rewrite !Hsk by (destruct resume; reflexivity);
  rewrite H1, H2, H3, H4, H5; simpl;
  repeat (match goal with |- context [if ?b then _ else _] => destruct b end; simpl);
  repeat split; reflexivity.
Qed.

Lemma chunked_scenario_five_items_witness :
  (c4_f 1 = Returns (Some 10) /\ c4_f 2 = Returns (Some 20)
   /\ c4_f 3 = Raises (PyException "boom") /\ PyException "boom" <> KeyboardInterrupt
   /\ c4_f 4 = Returns (Some 40) /\ c4_f 5 = Returns (Some 50))
  /\ let '(s, o) := process_chunked c4_id c4_f (mkConfig 2 10 true true)
                      fresh_progress [1; 2; 3; 4; 5] None true in
     processed_items (prog s) = 5 /\ failed_items (prog s) = 1 /\
     processed_ids (prog s) = [c4_id 1; c4_id 2; c4_id 4; c4_id 5] /\
     failed_ids (prog s) = [c4_id 3] /\ o = Completed [10; 20; 40; 50].
Proof.
  split.
  - repeat split; try reflexivity. discriminate.
  - apply (chunked_scenario_five_items c4_id c4_f 10 true true None 1 2 3 4 5
             10 20 40 50 (PyException "boom")); try reflexivity. discriminate.
Defined.

(** ** C10
    An item whose [process_func] returns [None] is counted once in
    [skipped_items] and once in [processed_items]; its id is not added to
    [processed_ids] and the only results the step writes are those already
    pending in [current_chunk]. Consequently, when no item of the run with
    that id returns a result and the id was not in the loaded checkpoint,
    the checkpoint on disk after the run does not contain it, and the
    resume filter of a later run does not skip the item. *)
Theorem none_result_not_checkpointed {I R} (gid : I -> string)
  (f : I -> call_result R) (cfg : config) (x : I) :
  f x = Returns None ->
  (forall resume ps (s : st R), resume_skips gid resume ps x = false ->
     exists s', step gid f cfg resume ps s x = inl s'
       /\ processed_items (prog s') = S (processed_items (prog s))
       /\ skipped_items (prog s') = S (skipped_items (prog s))
       /\ successful_items (prog s') = successful_items (prog s)
       /\ processed_ids (prog s') = processed_ids (prog s)
       /\ chunk_results s' = chunk_results s
       /\ exists ws, writes s' = writes s ++ ws
            /\ forall ls, In (ResultsWrite ls) ws -> ls = map Line (cur s))
  /\
  (forall (d0 : disk R) items total resume,
     ~ In (gid x) (processed_ids (load_checkpoint d0)) ->
     (forall y r, In y items -> gid y = gid x -> f y <> Returns (Some r)) ->
     let d1 := disk_after d0 (writes (fst (process_chunked gid f cfg
                                           (load_checkpoint d0) items total resume))) in
     ~ In (gid x) (processed_ids (load_checkpoint d1))
     /\ resume_skips gid true (processed_ids (load_checkpoint d1)) x = false).
Proof.
  intros Hf. split.
  - intros resume ps s Hsk. unfold step. rewrite Hsk, Hf.
    eexists. split; [reflexivity|].
    unfold end_of_item. cbn [item_count cur].
    destruct (chunk_size cfg <=? S (item_count s)).
    + destruct (cur s) as [|c cs] eqn:Hc; cbn [prog writes chunk_results];
        repeat split; try reflexivity.
      * exists (save_checkpoint (bump_chunk (bump_processed (bump_skipped (prog s))))).
        split; [reflexivity|]. intros ls [H|[]]; discriminate.
      * eexists. split; [rewrite <- app_assoc; reflexivity|].
        intros ls Hin. apply in_app_or in Hin.
        destruct Hin as [[H|[]]|Hin]; [discriminate|].
        unfold save_results in Hin. destruct (has_result_file cfg); simpl in Hin;
          [destruct Hin as [H|[]]; injection H as <-; reflexivity | contradiction].
    + cbn [prog writes chunk_results]. repeat split; try reflexivity.
      exists []. split; [symmetry; apply app_nil_r|]. intros ls [].
  - intros d0 items total resume Hnot Hno d1.
    assert (Hout : ~ In (gid x) (processed_ids (load_checkpoint d1))).
    { intros Hin. unfold d1 in Hin.
      destruct (load_checkpoint_after d0 (writes (fst (process_chunked gid f cfg
                  (load_checkpoint d0) items total resume)))) as [Heq|Hw].
      - rewrite Heq in Hin. contradiction.
      - pose proof (process_chunked_ok I R gid f cfg (load_checkpoint d0) items
                      total resume _ Hw (gid x) Hin) as [H|[y [r [Hy [Hid Hr]]]]].
        + contradiction.
        + exact (Hno y r Hy Hid Hr). }
    split; [exact Hout|].
    unfold resume_skips. simpl.
    destruct (py_in (gid x) _) eqn:E; [|reflexivity].
    apply py_in_In in E. contradiction.
Qed.

Lemma none_result_not_checkpointed_witness :
  c10_f 2 = Returns None /\
  ((forall resume ps (s : st nat), resume_skips c4_id resume ps 2 = false ->
     exists s', step c4_id c10_f c4_cfg resume ps s 2 = inl s'
       /\ processed_items (prog s') = S (processed_items (prog s))
       /\ skipped_items (prog s') = S (skipped_items (prog s))
       /\ successful_items (prog s') = successful_items (prog s)
       /\ processed_ids (prog s') = processed_ids (prog s)
       /\ chunk_results s' = chunk_results s
       /\ exists ws, writes s' = writes s ++ ws
            /\ forall ls, In (ResultsWrite ls) ws -> ls = map Line (cur s))
  /\
  (forall (d0 : disk nat) items total resume,
     ~ In (c4_id 2) (processed_ids (load_checkpoint d0)) ->
     (forall y r, In y items -> c4_id y = c4_id 2 -> c10_f y <> Returns (Some r)) ->
     let d1 := disk_after d0 (writes (fst (process_chunked c4_id c10_f c4_cfg
                                           (load_checkpoint d0) items total resume))) in
     ~ In (c4_id 2) (processed_ids (load_checkpoint d1))
     /\ resume_skips c4_id true (processed_ids (load_checkpoint d1)) 2 = false)).
Proof.
  split; [reflexivity|].
  apply (none_result_not_checkpointed c4_id c10_f c4_cfg 2). reflexivity.
Defined.

End ChunkedFacts.

Module FileWriteFacts.
Import FileWrite.

Definition c2_path : string := "checkpoints/progress.json".
Definition c2_before : fs := fun q => if String.eqb q c2_path then Some "{old}"%string else None.

(** ** C2 (counterexample)
    [save_checkpoint] goes through [safe_file_write] with [backup=False]:
    no operation is a rename, and between the open in mode ['w'] and the
    write the checkpoint file is empty, neither the old nor the new
    contents. *)
Theorem save_checkpoint_not_atomic :
  let ops := save_checkpoint_ops c2_before c2_path "{new}" in
  forallb (fun op => negb (is_rename op)) ops = true
  /\ exists m, In m (states_along c2_before ops)
       /\ m c2_path = Some EmptyString
       /\ m c2_path <> c2_before c2_path
       /\ m c2_path <> Some "{new}"%string.
Proof.
  simpl. split; [reflexivity|].
  eexists. split; [right; left; reflexivity|].
  cbv. repeat split; discriminate.
Qed.

(** ** C2 (amended)
    For every file system, checkpoint path and JSON text, [save_checkpoint]
    issues exactly [open(path, 'w')] then [f.write(json)] (no temporary file,
    no rename), and the states an interruption can leave the checkpoint
    file in are: the old contents, the empty file, the new contents. *)
Theorem save_checkpoint_in_place (m : fs) (path json : string) :
  save_checkpoint_ops m path json = [OpenWrite path; WriteData path json]
  /\ map (fun m' => m' path) (states_along m (save_checkpoint_ops m path json))
     = [m path; Some EmptyString; Some json].
Proof.
  split; [reflexivity|].
  simpl. unfold fs_set. rewrite String.eqb_refl. reflexivity.
Qed.

End FileWriteFacts.

Module PhoneFacts.
Import Phone.

Lemma prefix_plus_not_digits (c : string) :
  String.prefix "+" c = true -> py_isdigit c = false.
Proof.
  destruct c as [|ch rest]; [discriminate|].
  intros H.
  change ((if ascii_dec "+"%char ch then String.prefix "" rest else false) = true) in H.
  destruct (ascii_dec "+"%char ch) as [<-|]; [reflexivity | discriminate H].
Qed.

Lemma strip_nonempty (phone : string) :
  strip_non_phone phone <> EmptyString -> phone <> EmptyString.
Proof. destruct phone; [contradiction | discriminate]. Qed.

(** ** C7
    Let [cleaned] be [phone] without the characters that are neither a
    digit nor ['+']. If [cleaned] is ten digits the result is ["+1"] followed
    by it; if it is eleven digits starting with ['1'] the result is ['+']
    followed by it; if it starts with ['+'] the result is [cleaned]. *)
Theorem normalize_phone_cases (phone : string) :
  let cleaned := strip_non_phone phone in
  (py_isdigit cleaned = true -> String.length cleaned = 10 ->
     normalize_phone phone = Some ("+1" ++ cleaned)%string)
  /\ (py_isdigit cleaned = true -> String.length cleaned = 11 ->
      String.prefix "1" cleaned = true ->
      normalize_phone phone = Some ("+" ++ cleaned)%string)
  /\ (String.prefix "+" cleaned = true -> normalize_phone phone = Some cleaned).
Proof.
  intros cleaned.
  assert (Hne : forall n, String.length cleaned = S n -> phone <> EmptyString).
  { intros n Hl. apply strip_nonempty. fold cleaned. intros He. rewrite He in Hl. discriminate. }
  assert (Hunf : phone <> EmptyString -> normalize_phone phone =
     (if py_isdigit cleaned then
        if String.length cleaned =? 10 then Some ("+1" ++ cleaned)%string
        else if (String.length cleaned =? 11) && String.prefix "1" cleaned
        then Some ("+" ++ cleaned)%string
        else if 10 <? String.length cleaned then Some ("+" ++ cleaned)%string
        else (if String.prefix "+" cleaned then Some cleaned else Some phone)
      else (if String.prefix "+" cleaned then Some cleaned else Some phone))).
  { intros Hp. destruct phone as [|c r]; [contradiction|]. reflexivity. }
  split; [|split].
  - intros Hd Hl. rewrite Hunf by (apply (Hne 9); exact Hl).
    rewrite Hd, Hl. reflexivity.
  - intros Hd Hl H1. rewrite Hunf by (apply (Hne 10); exact Hl).
    rewrite Hd, Hl, H1. reflexivity.
  - intros Hp. assert (Hd := prefix_plus_not_digits _ Hp).
    assert (Hph : phone <> EmptyString).
    { apply strip_nonempty. fold cleaned. intros He. rewrite He in Hp. discriminate. }
    rewrite Hunf by exact Hph. rewrite Hd, Hp. reflexivity.
Qed.

Lemma normalize_phone_cases_witness :
  normalize_phone "(555) 123-4567" = Some "+15551234567"%string
  /\ normalize_phone "1-555-123-4567" = Some "+15551234567"%string
  /\ normalize_phone "+44 20 7946 0958" = Some "+442079460958"%string.
Proof.
  split; [|split].
  - apply (proj1 (normalize_phone_cases "(555) 123-4567")); reflexivity.
  - apply (proj1 (proj2 (normalize_phone_cases "1-555-123-4567"))); reflexivity.
  - apply (proj2 (proj2 (normalize_phone_cases "+44 20 7946 0958"))); reflexivity.
Defined.

End PhoneFacts.

Module HashFacts.
Import ContactHash.

Example str_hash_imessage : str_hash 0 0 "imessage" = -7362444879354762807.
Proof. vm_compute. reflexivity. Qed.
Example str_hash_a : str_hash 0 0 "a" = 4644417185603328019.
Proof. vm_compute. reflexivity. Qed.

Definition c9_a : Contact :=
  mkContact None (Some "a@x.com"%string) (Some "+15551234567"%string) "p1" "imessage".
Definition c9_b : Contact :=
  mkContact None (Some "a@x.com"%string) (Some "+15551234567"%string) "p1" "gmail".

(** ** C9 (code_bug)
    Two contacts that differ only in [platform] are equal under [__eq__],
    but their [__hash__] values differ (CPython 3.11 string and tuple
    hashes with the hash secret of [PYTHONHASHSEED=0], for any value of
    [hash(None)]). *)
Theorem contact_eq_hash_mismatch (none_hash : Z) :
  contact_eq c9_a c9_b = true
  /\ contact_hash 0 0 none_hash c9_a = -4864820973808131743
  /\ contact_hash 0 0 none_hash c9_b = 1149956346576048496
  /\ contact_hash 0 0 none_hash c9_a <> contact_hash 0 0 none_hash c9_b.
Proof.
  assert (Ha : contact_hash 0 0 none_hash c9_a = -4864820973808131743)
    by (vm_compute; reflexivity).
  assert (Hb : contact_hash 0 0 none_hash c9_b = 1149956346576048496)
    by (vm_compute; reflexivity).
  split; [reflexivity|]. split; [exact Ha|]. split; [exact Hb|].
  rewrite Ha, Hb. discriminate.
Qed.

End HashFacts.

Module ImessageExtractorFacts.
Import ImessageExtractor.

Section Facts.
Variable row : Type.
Variable row_is_from_me : row -> bool.
Variable row_phone_email : row -> option string.
Variable row_content : row -> option (option string * list string).
Variable get_contact_name get_email_contact_name : string -> option string.

Let to_msg := row_to_message row row_is_from_me row_phone_email row_content
                get_contact_name get_email_contact_name.

Lemma row_to_message_two_participants r m :
  to_msg r = Some m -> participant_count m = 2.
Proof.
  unfold to_msg, row_to_message. destruct (row_content r) as [[b a]|]; [|discriminate].
  destruct (row_is_from_me r); intros E; inversion E; reflexivity.
Qed.

Lemma extract_rows_no_ceiling rows : forall ledger,
  extract_rows row row_is_from_me row_phone_email row_content
    get_contact_name get_email_contact_name rows ledger
  = ledger ++ flat_map (fun r => match to_msg r with
                                 | Some m => if skip_empty m then [] else [m]
                                 | None => [] end) rows.
Proof.
  induction rows as [|r rest IH]; intros ledger; simpl.
  - symmetry. apply app_nil_r.
  - fold to_msg. destruct (to_msg r) as [m|] eqn:Hm; [|apply IH].
    destruct (skip_empty m); [apply IH|].
    rewrite (row_to_message_two_participants r m Hm). simpl.
    rewrite IH. unfold add_message. rewrite <- app_assoc. reflexivity.
Qed.

End Facts.
End ImessageExtractorFacts.

(** ** The SQLite projection *)

Module DbFacts.
Import Db.

Definition preserves {A} (P : db -> Prop) (m : M A) : Prop :=
  forall d, P d -> P (fst (m d)).

Lemma preserves_ret {A} P (a : A) : preserves P (ret a).
Proof. intros d H; exact H. Qed.

Lemma preserves_raise {A} P e : preserves P (@raise A e).
Proof. intros d H; exact H. Qed.

Lemma preserves_bind {A B} P (m : M A) (k : A -> M B) :
  preserves P m -> (forall a, preserves P (k a)) -> preserves P (bind m k).
Proof.
  intros Hm Hk d H. unfold bind. specialize (Hm d H).
  destruct (m d) as [d' [a|e]]; simpl in *; auto. apply Hk; exact Hm.
Qed.

Lemma preserves_try_ignore P m : preserves P m -> preserves P (try_ignore m).
Proof.
  intros Hm d H. unfold try_ignore. specialize (Hm d H).
  destruct (m d) as [d' [a|e]]; exact Hm.
Qed.

Lemma preserves_mapM_ {A} P (f : A -> M unit) (l : list A) :
  (forall x, preserves P (f x)) -> preserves P (mapM_ f l).
Proof.
  intros Hf. induction l as [|x l IH]; simpl.
  - apply preserves_ret.
  - apply preserves_bind; auto.
Qed.

(** Statements that only read the database. *)
Definition read_only {A} (m : M A) : Prop := forall d, fst (m d) = d.

Lemma read_only_preserves {A} P (m : M A) : read_only m -> preserves P m.
Proof. intros Hm d H. rewrite Hm. exact H. Qed.

Lemma find_contact_ro p i : read_only (find_contact p i).
Proof. intros d; reflexivity. Qed.
Lemma find_conversation_ro p t : read_only (find_conversation p t).
Proof. intros d; reflexivity. Qed.
Lemma conversation_members_ro c : read_only (conversation_members c).
Proof. intros d; reflexivity. Qed.

(** Statements that leave the [messages] table alone. *)
Definition keeps_messages {A} (m : M A) : Prop := forall d, messages (fst (m d)) = messages d.

Lemma insert_conversation_msgs cols : keeps_messages (insert_conversation cols).
Proof. intros d; reflexivity. Qed.
Lemma insert_contact_msgs n e p pl i me : keeps_messages (insert_contact n e p pl i me).
Proof.
  intros d; unfold insert_contact. destruct existsb; reflexivity.
Qed.
Lemma insert_or_ignore_participant_msgs c k r :
  keeps_messages (insert_or_ignore_participant c k r).
Proof.
  intros d; unfold insert_or_ignore_participant.
  destruct existsb; [reflexivity|]. destruct negb; reflexivity.
Qed.

Definition nodup_keys (d : db) : Prop := NoDup (map msg_key (messages d)).

Lemma keeps_messages_nodup {A} (m : M A) : keeps_messages m -> preserves nodup_keys m.
Proof. intros Hm d H. unfold nodup_keys. rewrite Hm. exact H. Qed.

Lemma insert_message_nodup pl pm c s t b : preserves nodup_keys (insert_message pl pm c s t b).
Proof.
  intros d H. unfold insert_message.
  destruct s as [sid|]; [|exact H].
  destruct (existsb _ (messages d)) eqn:E; [exact H|].
  destruct negb; [exact H|].
  unfold nodup_keys; simpl. rewrite map_app. simpl.
  apply NoDup_app; auto.
  - constructor; [intros []|constructor].
  - intros x Hx [<-|[]].
    apply in_map_iff in Hx as [m' [Hk Hm']].
    assert (Hex : existsb (fun m => String.eqb (m_platform m) pl
                          && String.eqb (platform_message_id m) pm) (messages d) = true).
    { apply existsb_exists. exists m'. split; [exact Hm'|].
      unfold msg_key in Hk; simpl in Hk. injection Hk as -> ->.
      rewrite !String.eqb_refl; reflexivity. }
    congruence.
Qed.

Create HintDb pres.
#[local] Hint Resolve preserves_ret preserves_raise read_only_preserves find_contact_ro
  find_conversation_ro conversation_members_ro : pres.

Ltac pres :=
  repeat match goal with
  | |- preserves _ (bind _ _) => apply preserves_bind; [|intros ?]
  | |- preserves _ (try_ignore _) => apply preserves_try_ignore
  | |- preserves _ (mapM_ _ _) => apply preserves_mapM_; intros ?
  | |- preserves _ (match ?x with _ => _ end) => destruct x
  | |- preserves _ (if ?b then _ else _) => destruct b
  end; auto with pres.

#[local] Hint Resolve keeps_messages_nodup insert_conversation_msgs insert_contact_msgs
  insert_or_ignore_participant_msgs insert_message_nodup : pres.

Lemma link_participants_nodup cid ps ids :
  preserves nodup_keys (Imessage.link_participants cid ps ids).
Proof.
  revert ids; induction ps as [|p ps IH]; intros ids; simpl.
  - pres.
  - unfold Imessage.get_or_create_contact. pres.
Qed.
#[local] Hint Resolve link_participants_nodup : pres.

Lemma process_conversation_nodup lookup conv :
  preserves nodup_keys (Imessage.process_conversation lookup conv).
Proof.
  destruct conv as [conv_id msgs].
  unfold Imessage.process_conversation, Imessage.create_conversation,
    Imessage.import_messages, Imessage.import_message.
  pres.
Qed.

Lemma wa_import_all_nodup now tz chats :
  preserves nodup_keys (WhatsApp.import_all now tz chats).
Proof.
  unfold WhatsApp.import_all, WhatsApp.import_conversation, WhatsApp.import_participants,
    WhatsApp.get_or_create_whatsapp_contact, WhatsApp.import_messages,
    WhatsApp.import_message, WhatsApp.conv_ts, WhatsApp.fromtimestamp.
  pres.
Qed.


(** The trigger-maintained [message_count], with the bounds of the
    AUTOINCREMENT counter that make a fresh row start at zero. *)
Definition count_ok (d : db) : Prop :=
  (forall c, In c (conversations d) ->
     message_count c = Z.of_nat (count_messages_of d (conversation_id c))) /\
  (forall c, In c (conversations d) -> (conversation_id c <= seq_conv d)%nat) /\
  (forall m, In m (messages d) -> (m_conversation_id m <= seq_conv d)%nat).

Lemma set_conv_col_id c cv : conversation_id (set_conv_col c cv) = conversation_id c.
Proof. destruct cv as [[] v]; reflexivity. Qed.

Lemma fold_set_conv_col_id cols c :
  conversation_id (fold_left set_conv_col cols c) = conversation_id c.
Proof.
  revert c; induction cols as [|cv cols IH]; intros c; simpl; auto.
  rewrite IH. apply set_conv_col_id.
Qed.

Lemma fold_set_conv_col_count cols c :
  ~ In ColMessageCount (map fst cols) ->
  message_count (fold_left set_conv_col cols c) = message_count c.
Proof.
  revert c; induction cols as [|[col v] cols IH]; intros c Hn; simpl in *; auto.
  rewrite IH by tauto. destruct col; try reflexivity. tauto.
Qed.

Lemma count_messages_of_fresh d n :
  (forall m, In m (messages d) -> (m_conversation_id m <= n)%nat) ->
  count_messages_of d (S n) = 0%nat.
Proof.
  intros H. unfold count_messages_of.
  induction (messages d) as [|m ms IH]; simpl; auto.
  destruct (Nat.eqb_spec (m_conversation_id m) (S n)) as [E|E].
  - specialize (H m (or_introl eq_refl)). lia.
  - apply IH. intros m' Hm'. apply H. right; exact Hm'.
Qed.

Lemma insert_conversation_count cols :
  ~ In ColMessageCount (map fst cols) -> preserves count_ok (insert_conversation cols).
Proof.
  intros Hn d [H1 [H2 H3]]. unfold insert_conversation, count_ok; simpl.
  split; [|split].
  - intros c Hc. apply in_app_or in Hc as [Hc|[<-|[]]].
    + apply H1; exact Hc.
    + rewrite fold_set_conv_col_count by exact Hn. rewrite fold_set_conv_col_id. simpl.
      pose proof (count_messages_of_fresh d (seq_conv d) H3) as E.
      unfold count_messages_of in E |- *; simpl. rewrite E. reflexivity.
  - intros c Hc. apply in_app_or in Hc as [Hc|[<-|[]]].
    + specialize (H2 c Hc). lia.
    + rewrite fold_set_conv_col_id. simpl. lia.
  - intros m Hm. specialize (H3 m Hm). lia.
Qed.

Lemma insert_contact_count n e p pl i me : preserves count_ok (insert_contact n e p pl i me).
Proof.
  intros d H. unfold insert_contact. destruct existsb; [exact H|].
  exact H.
Qed.

Lemma trg_detect_group_In cid d c :
  In c (trg_detect_group cid d) ->
  exists c0, In c0 (conversations d) /\ conversation_id c = conversation_id c0
             /\ message_count c = message_count c0.
Proof.
  unfold trg_detect_group. intros Hc. apply in_map_iff in Hc as [c0 [<- Hc0]].
  exists c0. split; [exact Hc0|]. destruct Nat.eqb; auto.
Qed.

Lemma insert_or_ignore_participant_count c k r :
  preserves count_ok (insert_or_ignore_participant c k r).
Proof.
  intros d H. unfold insert_or_ignore_participant.
  destruct existsb; [exact H|]. destruct negb; [exact H|].
  destruct H as [H1 [H2 H3]]. unfold count_ok; simpl. split; [|split].
  - intros c' Hc'. apply trg_detect_group_In in Hc' as [c0 [Hc0 [-> ->]]].
    apply H1; exact Hc0.
  - intros c' Hc'. apply trg_detect_group_In in Hc' as [c0 [Hc0 [-> _]]].
    apply H2; exact Hc0.
  - exact H3.
Qed.

Lemma insert_message_count pl pm cid s t b : preserves count_ok (insert_message pl pm cid s t b).
Proof.
  intros d H. unfold insert_message.
  destruct s as [sid|]; [|exact H].
  destruct existsb; [exact H|].
  destruct (conv_exists d cid) eqn:Ec; simpl; [|exact H].
  destruct (contact_exists d sid); simpl; [|exact H].
  destruct H as [H1 [H2 H3]].
  assert (Hcid : (cid <= seq_conv d)%nat).
  { unfold conv_exists in Ec. apply existsb_exists in Ec as [c0 [Hc0 E]].
    apply Nat.eqb_eq in E. subst cid. apply H2; exact Hc0. }
  unfold count_ok; simpl. split; [|split].
  - intros c' Hc'. apply in_map_iff in Hc' as [c0 [<- Hc0]].
    unfold trg_conversation_timestamps, count_messages_of; simpl.
    rewrite filter_app, length_app. simpl.
    destruct (Nat.eqb_spec (conversation_id c0) cid) as [E|E]; simpl.
    + rewrite E, Nat.eqb_refl. simpl. rewrite H1 by exact Hc0.
      unfold count_messages_of. rewrite E. lia.
    + destruct (Nat.eqb_spec cid (conversation_id c0)); [congruence|]. simpl.
      rewrite H1 by exact Hc0. unfold count_messages_of. lia.
  - intros c' Hc'. apply in_map_iff in Hc' as [c0 [<- Hc0]].
    unfold trg_conversation_timestamps. destruct Nat.eqb; simpl; apply H2; exact Hc0.
  - intros m Hm. apply in_app_or in Hm as [Hm|[<-|[]]]; simpl; auto.
Qed.

Lemma link_participants_count cid ps ids :
  preserves count_ok (Imessage.link_participants cid ps ids).
Proof.
  revert ids; induction ps as [|p ps IH]; intros ids; simpl.
  - apply preserves_ret.
  - unfold Imessage.get_or_create_contact.
    pres; auto using insert_contact_count, insert_or_ignore_participant_count.
Qed.

Lemma process_conversation_count lookup conv :
  preserves count_ok (Imessage.process_conversation lookup conv).
Proof.
  destruct conv as [conv_id msgs].
  unfold Imessage.process_conversation, Imessage.create_conversation,
    Imessage.import_messages, Imessage.import_message.
  pres; auto using insert_contact_count, insert_message_count, link_participants_count.
  apply insert_conversation_count. simpl. intuition discriminate.
Qed.

Lemma create_database_count_ok lookup convs :
  count_ok (fst (Imessage.create_database_run lookup convs)).
Proof.
  unfold Imessage.create_database_run.
  apply (preserves_mapM_ count_ok _ convs (process_conversation_count lookup)).
  unfold count_ok; simpl. repeat split; intros ? [].
Qed.


(** Re-ingesting a stored key. *)

Lemma find_none_existsb {A} (f : A -> bool) l : find f l = None -> existsb f l = false.
Proof.
  induction l as [|x l IH]; simpl; auto. destruct (f x); [discriminate|auto].
Qed.

Lemma key_exists d pl pm :
  In (pl, pm) (map msg_key (messages d)) ->
  existsb (fun m => String.eqb (m_platform m) pl && String.eqb (platform_message_id m) pm)
    (messages d) = true.
Proof.
  intros Hin. apply in_map_iff in Hin as [m [Hk Hm]]. apply existsb_exists.
  exists m. split; [exact Hm|]. unfold msg_key in Hk. injection Hk as -> ->.
  rewrite !String.eqb_refl. reflexivity.
Qed.

Lemma imessage_commit_dup cid ids msg d :
  In ("imessage"%string, Imessage.im_platform_message_id msg) (map msg_key (messages d)) ->
  let r := Imessage.import_message cid ids msg d in
  snd r = Ok tt /\ messages (fst r) = messages d /\ conversations (fst r) = conversations d.
Proof.
  intros Hin. apply key_exists in Hin.
  unfold Imessage.import_message, bind, try_ignore.
  cbv zeta.
  destruct (if String.eqb (Imessage.im_sender msg) "Me" || Imessage.im_is_sent msg
            then PyStr.dict_get "me" ids
            else Imessage.match_sender (Imessage.im_sender msg) ids) as [[|k]|].
  all: simpl.
  all: try (rewrite Hin; simpl; auto; fail).
  all: destruct (find _ (contacts d)) eqn:Ef; simpl; [rewrite Hin; simpl; auto|].
  all: unfold insert_contact; rewrite (find_none_existsb _ _ Ef); simpl.
  all: rewrite Hin; simpl; auto.
Qed.

Lemma insert_message_dup pl pm c s t b d :
  In (pl, pm) (map msg_key (messages d)) ->
  insert_message pl pm c s t b d = (d, Err IntegrityError).
Proof.
  intros Hin. apply key_exists in Hin. unfold insert_message.
  destruct s; [rewrite Hin|]; reflexivity.
Qed.

Lemma whatsapp_commit_dup now tz cid chat ps m d :
  In ("whatsapp"%string, WhatsApp.platform_msg_id m) (map msg_key (messages d)) ->
  try_ignore (WhatsApp.import_message now tz cid chat ps m) d = (d, Ok tt).
Proof.
  intros Hin. unfold WhatsApp.import_message, try_ignore. cbv zeta.
  destruct (if WhatsApp.from_me m then _ else _) as [s|]; [|reflexivity].
  unfold bind, WhatsApp.fromtimestamp.
  destruct (WhatsApp.wm_timestamp m) as [t|];
    [destruct (t =? 0)%Z; [|destruct (_ && _)%Z]|];
    simpl; try reflexivity; rewrite insert_message_dup by exact Hin; reflexivity.
Qed.

(** Conversation rows keep their thread identifiers, in order, through
    every statement except the INSERT into [conversations]. *)
Definition threads_are (l : list (option string)) (d : db) : Prop :=
  map thread_id (conversations d) = l.

Lemma insert_contact_threads l n e p pl i me : preserves (threads_are l) (insert_contact n e p pl i me).
Proof. intros d H. unfold insert_contact. destruct existsb; exact H. Qed.

Lemma insert_or_ignore_participant_threads l c k r :
  preserves (threads_are l) (insert_or_ignore_participant c k r).
Proof.
  intros d H. unfold insert_or_ignore_participant.
  destruct existsb; [exact H|]. destruct negb; [exact H|].
  unfold threads_are, trg_detect_group; simpl. rewrite map_map. rewrite <- H.
  apply map_ext. intros c'. destruct Nat.eqb; reflexivity.
Qed.

Lemma insert_message_threads l pl pm c s t b : preserves (threads_are l) (insert_message pl pm c s t b).
Proof.
  intros d H. unfold insert_message.
  destruct s; [|exact H]. destruct existsb; [exact H|]. destruct negb; [exact H|].
  unfold threads_are, trg_conversation_timestamps; simpl. rewrite map_map. rewrite <- H.
  apply map_ext. intros c'. destruct Nat.eqb; reflexivity.
Qed.

Lemma link_participants_threads l cid ps ids :
  preserves (threads_are l) (Imessage.link_participants cid ps ids).
Proof.
  revert ids; induction ps as [|p ps IH]; intros ids; simpl.
  - apply preserves_ret.
  - unfold Imessage.get_or_create_contact.
    pres; auto using insert_contact_threads, insert_or_ignore_participant_threads.
Qed.

Lemma import_messages_threads l cid ps msgs :
  preserves (threads_are l) (Imessage.import_messages cid ps msgs).
Proof.
  unfold Imessage.import_messages, Imessage.import_message.
  pres; auto using insert_contact_threads, insert_message_threads, link_participants_threads.
Qed.

(** The conversations row built by an INSERT with the given columns. *)
Definition inserted_row (cols : list (conv_col * sql_val)) (d : db) : conversation :=
  fold_left set_conv_col cols (conv_defaults (S (seq_conv d))).

Lemma insert_conversation_row cols d :
  insert_conversation cols d
  = (mkDb (conversations d ++ [inserted_row cols d]) (contacts d) (participants d)
          (messages d) (S (seq_conv d)) (seq_contact d) (seq_msg d), Ok (S (seq_conv d))).
Proof. reflexivity. Qed.

Lemma val_int_ts_val o : val_int (Imessage.ts_val o) = o.
Proof. destruct o; reflexivity. Qed.

(** Inputs of the scenarios below. *)
Definition no_contacts (_ : string) : option Imessage.lookup_rec := None.

Definition c3_msg : Imessage.imsg := Imessage.mkImsg "K1" 100 "hi" "Bob" false.
Definition c3_db : db := fst (Imessage.create_database_run no_contacts [("Bob"%string, [c3_msg])]).

Definition c5_convs : list (string * list Imessage.imsg) :=
  [("Alice"%string, [Imessage.mkImsg "K1" 100 "hi" "Alice" false]);
   ("Bob"%string, [Imessage.mkImsg "K1" 200 "hi" "Bob" false])].

Definition c6_chat : string := "15551234567@s.whatsapp.net".
Definition c6_msg : WhatsApp.wa_msg :=
  WhatsApp.mkWaMsg true (Some 1700000000%Z) (Some "K1"%string) (Some "hi"%string)
    false false None None.
Definition c6_store : WhatsApp.chat_store := WhatsApp.mkChatStore (Some "Alice"%string) [c6_msg].

Definition c8_conv_id : string :=
  "+15550000001, +15550000002, +15550000003, +15550000004, +15550000005, +15550000006, +15550000007, +15550000008".
Definition c8_msgs : list Imessage.imsg :=
  [Imessage.mkImsg "G8" 100 "hello" "+15550000001" false].

Definition wa_from (sender : string) (k : string) : WhatsApp.wa_msg :=
  WhatsApp.mkWaMsg false (Some 1700000000%Z) (Some k) (Some "hi"%string) false false None
    (Some sender).
Definition c8_group : WhatsApp.chat_store :=
  WhatsApp.mkChatStore (Some "Team"%string)
    (map (fun n => wa_from (PyStr.z_to_string n) ("W" ++ PyStr.z_to_string n)%string)
         [1; 2; 3; 4; 5; 6; 7; 8]%Z).

Definition rows_of (d : db) (cid : nat) : nat :=
  List.length (filter (fun p => Nat.eqb (cp_conversation_id p) cid) (participants d)).

(** C3: re-ingesting a message whose [(platform, platform_message_id)]
    key is already stored is a silent no-op for the messages table: the
    iMessage commit of the message returns normally and leaves the
    [messages] and [conversations] tables unchanged (the IntegrityError is
    caught), the WhatsApp commit leaves the database unchanged; a
    create_database run, which always starts from a fresh database, ends
    with pairwise distinct keys, and a WhatsApp import keeps them
    distinct. *)
Theorem duplicate_message_is_noop :
  (forall cid ids msg d,
     In ("imessage"%string, Imessage.im_platform_message_id msg) (map msg_key (messages d)) ->
     let r := Imessage.import_message cid ids msg d in
     snd r = Ok tt /\ messages (fst r) = messages d /\ conversations (fst r) = conversations d)
  /\ (forall now tz cid chat_id ps m d,
     In ("whatsapp"%string, WhatsApp.platform_msg_id m) (map msg_key (messages d)) ->
     try_ignore (WhatsApp.import_message now tz cid chat_id ps m) d = (d, Ok tt))
  /\ (forall lookup convs,
     NoDup (map msg_key (messages (fst (Imessage.create_database_run lookup convs)))))
  /\ (forall now tz chats d,
     NoDup (map msg_key (messages d)) ->
     NoDup (map msg_key (messages (fst (WhatsApp.import_all now tz chats d))))).
Proof.
  split; [|split; [|split]].
  - exact imessage_commit_dup.
  - exact whatsapp_commit_dup.
  - intros lookup convs. unfold Imessage.create_database_run.
    apply (preserves_mapM_ nodup_keys _ convs (process_conversation_nodup lookup)).
    constructor.
  - intros now tz chats d H. exact (wa_import_all_nodup now tz chats d H).
Qed.

Lemma duplicate_message_is_noop_witness :
  In ("imessage"%string, "K1"%string) (map msg_key (messages c3_db))
  /\ snd (Imessage.import_message 1 [] c3_msg c3_db) = Ok tt
  /\ messages (fst (Imessage.import_message 1 [] c3_msg c3_db)) = messages c3_db.
Proof.
  assert (H : In ("imessage"%string, Imessage.im_platform_message_id c3_msg)
                 (map msg_key (messages c3_db))) by (vm_compute; left; reflexivity).
  pose proof (proj1 duplicate_message_is_noop 1%nat [] c3_msg c3_db H) as [H1 [H2 _]].
  split; [exact H|]. split; [exact H1|exact H2].
Defined.

(** C5 (counterexample): the aggregate columns of a conversation row are
    written by the ingestion INSERT, not by the triggers: in a
    create_database run over two conversations that share the message key
    K1, the second conversation has no message row (so no trigger ever
    updated it) and still carries the first and last message timestamps
    200 that [_create_conversation] wrote. *)
Theorem conversation_aggregates_from_insert :
  let d := fst (Imessage.create_database_run no_contacts c5_convs) in
  map (fun c => (conversation_id c, first_message_at c, last_message_at c)) (conversations d)
    = [(1%nat, Some 100%Z, Some 100%Z); (2%nat, Some 200%Z, Some 200%Z)]
  /\ count_messages_of d 2 = 0%nat.
Proof. split; vm_compute; reflexivity. Qed.

(** C5 (amended): the ingestion INSERTs set the aggregates explicitly:
    [_create_conversation] writes the earliest and latest message
    timestamps and [len(participants)] and leaves [message_count] at its
    default 0; the WhatsApp INSERT writes the given first and last
    timestamps and a participant count of 2. In every create_database run
    [message_count] is then maintained by the message trigger alone and
    equals the number of [messages] rows of the conversation. *)
Theorem conversation_aggregates_at_insert :
  (forall conv_id ps msgs d,
     let c := inserted_row (Imessage.create_conversation_cols conv_id ps msgs) d in
     conversations (fst (Imessage.create_conversation conv_id ps msgs d)) = conversations d ++ [c]
     /\ first_message_at c = Imessage.min_ts (map Imessage.im_timestamp msgs)
     /\ last_message_at c = Imessage.max_ts (map Imessage.im_timestamp msgs)
     /\ participant_count c = Z.of_nat (List.length ps)
     /\ message_count c = 0%Z)
  /\ (forall conv_name chat_id first_ts last_ts is_group n d,
     let cols := WhatsApp.conversation_cols conv_name chat_id first_ts last_ts is_group n in
     let c := inserted_row cols d in
     conversations (fst (insert_conversation cols d)) = conversations d ++ [c]
     /\ first_message_at c = first_ts /\ last_message_at c = last_ts
     /\ participant_count c = 2%Z)
  /\ (forall lookup convs c,
     let d := fst (Imessage.create_database_run lookup convs) in
     In c (conversations d) -> message_count c = Z.of_nat (count_messages_of d (conversation_id c))).
Proof.
  split; [|split].
  - intros conv_id ps msgs d. cbv zeta.
    unfold inserted_row, Imessage.create_conversation_cols; simpl.
    rewrite !val_int_ts_val. repeat split.
  - intros conv_name chat_id first_ts last_ts is_group n d. cbv zeta.
    unfold inserted_row, WhatsApp.conversation_cols; simpl.
    rewrite !val_int_ts_val. repeat split.
  - intros lookup convs c. cbv zeta. apply create_database_count_ok.
Qed.

(** [datetime.fromtimestamp] returns, in every time zone, on a
    timestamp more than 25 hours inside the years 1 to 9999. *)
Lemma fromtimestamp_in_range tz t :
  (-62135596800 + 90000 <= t <= 253402300800 - 90000)%Z ->
  WhatsApp.fromtimestamp tz t = ret t.
Proof.
  intros Ht. unfold WhatsApp.fromtimestamp.
  pose proof (WhatsApp.utc_offset_range tz t) as Ho.
  destruct (Z.leb_spec (-62135596800) (t + WhatsApp.utc_offset tz t)); [|lia].
  destruct (Z.ltb_spec (t + WhatsApp.utc_offset tz t) 253402300800); [|lia].
  reflexivity.
Qed.

(** A run with [TZ=UTC]. *)
Definition w_utc : WhatsApp.time_zone :=
  WhatsApp.mkTimeZone (fun _ => 0%Z) (fun _ => conj eq_refl eq_refl).

(** C6: a WhatsApp import breaks the aggregate invariant. Importing a new
    one-to-one chat with a single message into an empty database leaves
    its conversation row with [message_count = 2] while one [messages]
    row has its [conversation_id]: the INSERT writes [len(messages)] and
    the trigger adds one per inserted message. *)
Theorem whatsapp_message_count_doubled (now : Z) (tz : WhatsApp.time_zone) :
  let d := fst (WhatsApp.import_all now tz [(c6_chat, c6_store)] empty_db) in
  map (fun c => (conversation_id c, message_count c)) (conversations d) = [(1%nat, 2%Z)]
  /\ count_messages_of d 1 = 1%nat.
Proof.
  assert (Hf : WhatsApp.fromtimestamp tz 1700000000 = ret 1700000000%Z)
    by (apply fromtimestamp_in_range; lia).
  cbv zeta. unfold WhatsApp.import_all, WhatsApp.import_conversation,
    WhatsApp.import_messages, WhatsApp.import_message, WhatsApp.conv_ts.
  cbn -[WhatsApp.fromtimestamp]. rewrite !Hf.
  split; vm_compute; reflexivity.
Qed.

(** How one state of the database extends another: rows are never
    removed, and the triggers keep the identifying columns of the rows
    they update. *)
Definition db_le (d1 d2 : db) : Prop :=
  (forall c, In c (conversations d1) -> exists c', In c' (conversations d2)
     /\ conversation_id c' = conversation_id c /\ thread_id c' = thread_id c
     /\ conv_platform c' = conv_platform c)
  /\ (forall k, In k (contacts d1) -> exists k', In k' (contacts d2)
     /\ contact_id k' = contact_id k /\ c_platform k' = c_platform k
     /\ c_platform_id k' = c_platform_id k)
  /\ incl (participants d1) (participants d2)
  /\ incl (messages d1) (messages d2).

Lemma db_le_refl d : db_le d d.
Proof.
  repeat split; try (intros x Hx; exists x; auto); apply incl_refl.
Qed.

Lemma db_le_trans d1 d2 d3 : db_le d1 d2 -> db_le d2 d3 -> db_le d1 d3.
Proof.
  intros [C1 [K1 [P1 M1]]] [C2 [K2 [P2 M2]]]. repeat split.
  - intros c Hc. destruct (C1 c Hc) as [c' [Hc' [E1 [E2 E3]]]].
    destruct (C2 c' Hc') as [c'' [Hc'' [F1 [F2 F3]]]].
    exists c''. repeat split; congruence.
  - intros k Hk. destruct (K1 k Hk) as [k' [Hk' [E1 [E2 E3]]]].
    destruct (K2 k' Hk') as [k'' [Hk'' [F1 [F2 F3]]]].
    exists k''. repeat split; congruence.
  - eapply incl_tran; eauto.
  - eapply incl_tran; eauto.
Qed.

Definition grows {A} (m : M A) : Prop := forall d, db_le d (fst (m d)).

Lemma grows_ret {A} (a : A) : grows (ret a).
Proof. intros d. apply db_le_refl. Qed.

Lemma grows_read_only {A} (m : M A) : read_only m -> grows m.
Proof. intros H d. rewrite H. apply db_le_refl. Qed.

Lemma grows_bind {A B} (m : M A) (k : A -> M B) :
  grows m -> (forall a, grows (k a)) -> grows (bind m k).
Proof.
  intros Hm Hk d. unfold bind. specialize (Hm d).
  destruct (m d) as [d' [a|e]]; [|exact Hm].
  eapply db_le_trans; [exact Hm | apply Hk].
Qed.

Lemma grows_try_ignore (m : M unit) : grows m -> grows (try_ignore m).
Proof.
  intros Hm d. unfold try_ignore. specialize (Hm d).
  destruct (m d) as [d' [a|e]]; exact Hm.
Qed.

Lemma grows_mapM_ {A} (f : A -> M unit) l : (forall x, grows (f x)) -> grows (mapM_ f l).
Proof.
  intros Hf. induction l as [|x l IH]; simpl; [apply grows_ret|].
  apply grows_bind; [apply Hf | intros _; exact IH].
Qed.

Lemma insert_conversation_grows cols : grows (insert_conversation cols).
Proof.
  intros d. repeat split; simpl.
  - intros c Hc. exists c. split; [apply in_or_app; left; exact Hc | auto].
  - intros k Hk. exists k. auto.
  - apply incl_refl.
  - apply incl_refl.
Qed.

Lemma insert_contact_grows n e p pl i me : grows (insert_contact n e p pl i me).
Proof.
  intros d. unfold insert_contact.
  destruct (existsb _ (contacts d)); [apply db_le_refl|].
  repeat split; simpl.
  - intros c Hc. exists c. auto.
  - intros k Hk. exists k. split; [apply in_or_app; left; exact Hk | auto].
  - apply incl_refl.
  - apply incl_refl.
Qed.

Lemma insert_or_ignore_participant_grows c k r : grows (insert_or_ignore_participant c k r).
Proof.
  intros d. unfold insert_or_ignore_participant.
  destruct (existsb _ (participants d)); [apply db_le_refl|].
  destruct (negb _); [apply db_le_refl|].
  repeat split; simpl.
  - intros x Hx. unfold trg_detect_group. simpl.
    eexists. split; [apply in_map; exact Hx|].
    destruct (Nat.eqb (conversation_id x) c); auto.
  - intros x Hx. exists x. auto.
  - intros x Hx. apply in_or_app. left. exact Hx.
  - apply incl_refl.
Qed.

Lemma insert_message_grows pl pm c s t b : grows (insert_message pl pm c s t b).
Proof.
  intros d. unfold insert_message.
  destruct s as [sid|]; [|apply db_le_refl].
  destruct (existsb _ (messages d)); [apply db_le_refl|].
  destruct (negb _); [apply db_le_refl|].
  repeat split; simpl.
  - intros x Hx. eexists. split; [apply in_map; exact Hx|].
    unfold trg_conversation_timestamps. destruct (Nat.eqb _ _); auto.
  - intros x Hx. eexists. split; [apply in_map; exact Hx|].
    unfold trg_contact_stats. destruct (Nat.eqb _ _); auto.
  - apply incl_refl.
  - intros x Hx. apply in_or_app. left. exact Hx.
Qed.


(** The conversation row of [cid] with its thread and platform. *)
Definition conv_row (d : db) (cid : nat) (thread : string) : Prop :=
  exists c, In c (conversations d) /\ conversation_id c = cid
    /\ thread_id c = Some thread /\ conv_platform c = "imessage"%string.

(** A contact row with [contact_id = kid] for the iMessage id [pid]. *)
Definition contact_row (d : db) (kid : nat) (pid : string) : Prop :=
  exists k, In k (contacts d) /\ contact_id k = kid
    /\ c_platform k = "imessage"%string /\ c_platform_id k = pid.

Definition ids_valid (d : db) (ids : list (string * nat)) : Prop :=
  forall s kid, In (s, kid) ids -> contact_exists d kid = true.

(** A [conversation_participants] row links [cid] to the contact of [pid]. *)
Definition linked (d : db) (cid : nat) (pid : string) : Prop :=
  exists kid pr, contact_row d kid pid /\ In pr (participants d)
    /\ cp_conversation_id pr = cid /\ cp_contact_id pr = kid.

(** A [messages] row of [cid] has the key [("imessage", pmid)]. *)
Definition has_row (d : db) (cid : nat) (pmid : string) : Prop :=
  exists mr, In mr (messages d) /\ msg_key mr = ("imessage"%string, pmid)
    /\ m_conversation_id mr = cid.

(** Every row whose key was not in [d0] belongs to [cid]. *)
Definition new_rows_in (d0 d : db) (cid : nat) : Prop :=
  forall mr, In mr (messages d) -> ~ In (msg_key mr) (map msg_key (messages d0)) ->
  m_conversation_id mr = cid.

Lemma conv_row_le d d' cid t : db_le d d' -> conv_row d cid t -> conv_row d' cid t.
Proof.
  intros [C _] [c [Hc [E1 [E2 E3]]]]. destruct (C c Hc) as [c' [Hc' [F1 [F2 F3]]]].
  exists c'. repeat split; congruence.
Qed.

Lemma contact_row_le d d' kid pid : db_le d d' -> contact_row d kid pid -> contact_row d' kid pid.
Proof.
  intros [_ [K _]] [k [Hk [E1 [E2 E3]]]]. destruct (K k Hk) as [k' [Hk' [F1 [F2 F3]]]].
  exists k'. repeat split; congruence.
Qed.

Lemma contact_exists_le d d' kid : db_le d d' -> contact_exists d kid = true ->
  contact_exists d' kid = true.
Proof.
  intros [_ [K _]] H. unfold contact_exists in *. apply existsb_exists in H as [k [Hk E]].
  destruct (K k Hk) as [k' [Hk' [F1 _]]]. apply existsb_exists. exists k'.
  split; [exact Hk'|]. rewrite F1. exact E.
Qed.

Lemma ids_valid_le d d' ids : db_le d d' -> ids_valid d ids -> ids_valid d' ids.
Proof. intros Hle H s kid Hin. eapply contact_exists_le; [exact Hle|]. eapply H; eauto. Qed.

Lemma linked_le d d' cid pid : db_le d d' -> linked d cid pid -> linked d' cid pid.
Proof.
  intros Hle [kid [pr [Hk [Hp [E1 E2]]]]]. exists kid, pr.
  split; [eapply contact_row_le; eauto|]. destruct Hle as [_ [_ [P _]]].
  split; [apply P; exact Hp | auto].
Qed.

Lemma has_row_le d d' cid pmid : db_le d d' -> has_row d cid pmid -> has_row d' cid pmid.
Proof.
  intros [_ [_ [_ Ms]]] [mr [Hm E]]. exists mr. split; [apply Ms; exact Hm | exact E].
Qed.

Lemma conv_row_exists d cid t : conv_row d cid t -> conv_exists d cid = true.
Proof.
  intros [c [Hc [E _]]]. apply existsb_exists. exists c. split; [exact Hc|].
  apply Nat.eqb_eq. exact E.
Qed.

Lemma contact_row_exists d kid pid : contact_row d kid pid -> contact_exists d kid = true.
Proof.
  intros [k [Hk [E _]]]. apply existsb_exists. exists k. split; [exact Hk|].
  apply Nat.eqb_eq. exact E.
Qed.

(** [SELECT] then [INSERT] of an iMessage contact: it always ends with a
    row for [pid], without touching [messages]. *)
Lemma find_or_insert_contact_ok name email phone pid me d :
  exists kid d',
    (found <- find_contact "imessage" pid ;;
     match found with
     | Some k => ret k
     | None => insert_contact name email phone "imessage" pid me
     end) d = (d', Ok kid)
    /\ db_le d d' /\ contact_row d' kid pid /\ messages d' = messages d.
Proof.
  unfold bind, find_contact.
  destruct (find _ (contacts d)) as [k|] eqn:Hf; simpl.
  - exists (contact_id k), d. split; [reflexivity|]. split; [apply db_le_refl|].
    split; [|reflexivity].
    apply find_some in Hf as [Hk E]. apply andb_true_iff in E as [E1 E2].
    apply String.eqb_eq in E1, E2. exists k. auto.
  - pose proof (insert_contact_grows name email phone "imessage" pid me d) as Hg.
    unfold insert_contact in *. rewrite (find_none_existsb _ _ Hf) in *.
    eexists; eexists. split; [reflexivity|]. split; [exact Hg|].
    split; [|reflexivity].
    eexists. split; [apply in_or_app; right; left; reflexivity|]. simpl. auto.
Qed.


Lemma bind_ok {A B} (m : M A) (k : A -> M B) d d' a :
  m d = (d', Ok a) -> bind m k d = k a d'.
Proof. intros E. unfold bind. rewrite E. reflexivity. Qed.

Lemma get_or_create_contact_ok p d :
  exists kid d', Imessage.get_or_create_contact p d = (d', Ok kid)
    /\ db_le d d' /\ contact_row d' kid (Imessage.p_platform_id p) /\ messages d' = messages d.
Proof. apply find_or_insert_contact_ok. Qed.

Lemma insert_or_ignore_participant_ok cid kid r d :
  conv_exists d cid = true -> contact_exists d kid = true ->
  exists d', insert_or_ignore_participant cid kid r d = (d', Ok tt)
    /\ db_le d d' /\ messages d' = messages d
    /\ exists pr, In pr (participants d') /\ cp_conversation_id pr = cid
                  /\ cp_contact_id pr = kid.
Proof.
  intros Hc Hk. pose proof (insert_or_ignore_participant_grows cid kid r d) as Hg.
  unfold insert_or_ignore_participant in *.
  destruct (existsb _ (participants d)) eqn:Hp.
  - exists d. split; [reflexivity|]. split; [apply db_le_refl|]. split; [reflexivity|].
    apply existsb_exists in Hp as [pr [Hpr E]]. apply andb_true_iff in E as [E1 E2].
    apply Nat.eqb_eq in E1, E2. exists pr. auto.
  - rewrite Hc, Hk in *. simpl in *. eexists. split; [reflexivity|].
    split; [exact Hg|]. split; [reflexivity|].
    exists (mkPart cid kid r). split; [apply in_or_app; right; left; reflexivity | auto].
Qed.

Lemma in_dict_set {V} key (v : V) s k : forall ids,
  In (s, k) (PyStr.dict_set key v ids) -> (s, k) = (key, v) \/ In (s, k) ids.
Proof.
  induction ids as [|[k' v'] ids IH]; simpl; [intuition|].
  destruct (String.eqb key k'); simpl.
  - intros [H|H]; [left; symmetry; exact H | right; right; exact H].
  - intros [H|H]; [right; left; exact H|]. destruct (IH H); auto.
Qed.

Lemma link_participants_ok cid thread ps : forall ids d,
  conv_row d cid thread -> ids_valid d ids ->
  exists ids' d', Imessage.link_participants cid ps ids d = (d', Ok ids')
    /\ db_le d d' /\ ids_valid d' ids' /\ messages d' = messages d
    /\ forall p, In p ps -> linked d' cid (Imessage.p_platform_id p).
Proof.
  induction ps as [|p ps IH]; intros ids d Hc Hids.
  - exists ids, d. split; [reflexivity|]. split; [apply db_le_refl|].
    split; [exact Hids|]. split; [reflexivity|]. intros p [].
  - destruct (get_or_create_contact_ok p d) as (kid & d1 & E1 & Hle1 & Hk1 & Hm1).
    cbn [Imessage.link_participants]. rewrite (bind_ok _ _ _ _ _ E1).
    assert (Hc1 : conv_exists d1 cid = true)
      by (apply (conv_row_exists d1 cid thread); eapply conv_row_le; eauto).
    destruct (insert_or_ignore_participant_ok cid kid "member" d1 Hc1
                (contact_row_exists _ _ _ Hk1)) as (d2 & E2 & Hle2 & Hm2 & Hpr).
    rewrite (bind_ok _ _ _ _ _ E2).
    assert (Hle12 : db_le d d2) by (eapply db_le_trans; eauto).
    destruct (IH (PyStr.dict_set (Imessage.p_platform_id p) kid ids) d2)
      as (ids' & d3 & E3 & Hle3 & Hids3 & Hm3 & Hl3).
    + eapply conv_row_le; eauto.
    + intros s k Hin. apply in_dict_set in Hin as [Hin|Hin].
      * injection Hin as -> ->. eapply contact_exists_le; [exact Hle2|].
        eapply contact_row_exists. exact Hk1.
      * eapply contact_exists_le; [exact Hle12|]. eapply Hids. exact Hin.
    + exists ids', d3. split; [exact E3|]. split; [eapply db_le_trans; eauto|].
      split; [exact Hids3|]. split; [congruence|].
      intros q [<- | Hq]; [|apply Hl3; exact Hq].
      eapply linked_le; [exact Hle3|].
      destruct Hpr as [pr [Hpr [P1 P2]]]. exists kid, pr.
      split; [exact (contact_row_le _ _ _ _ Hle2 Hk1) | auto].
Qed.


Lemma dict_get_in {V} key : forall (ids : list (string * V)) v,
  PyStr.dict_get key ids = Some v -> exists s, In (s, v) ids.
Proof.
  induction ids as [|[k' v'] ids IH]; intros v; simpl; [discriminate|].
  destruct (String.eqb key k').
  - intros E. injection E as <-. exists k'. left. reflexivity.
  - intros E. destruct (IH v E) as [s Hs]. exists s. right. exact Hs.
Qed.

Lemma match_sender_in name : forall ids v,
  Imessage.match_sender name ids = Some v -> exists s, In (s, v) ids.
Proof.
  induction ids as [|[k' v'] ids IH]; intros v; simpl; [discriminate|].
  destruct (_ || _).
  - intros E. injection E as <-. exists k'. left. reflexivity.
  - intros E. destruct (IH v E) as [s Hs]. exists s. right. exact Hs.
Qed.

(** The sender resolution of [import_message]: an id from the
    participants dict, or the [sender_<name>] contact. *)
Lemma sender_ok ids sender_name (o : option nat) d :
  ids_valid d ids -> (forall v, o = Some v -> exists s, In (s, v) ids) ->
  exists sid d1,
    (match o with
     | Some (S _ as k) => ret k
     | _ =>
         found <- find_contact "imessage" ("sender_" ++ sender_name)%string ;;
         match found with
         | Some k => ret k
         | None => insert_contact (Some sender_name) None None "imessage"
                     ("sender_" ++ sender_name)%string false
         end
     end) d = (d1, Ok sid)
    /\ db_le d d1 /\ contact_exists d1 sid = true /\ messages d1 = messages d.
Proof.
  intros Hids Ho.
  assert (Hfb : exists sid d1,
    (found <- find_contact "imessage" ("sender_" ++ sender_name)%string ;;
     match found with
     | Some k => ret k
     | None => insert_contact (Some sender_name) None None "imessage"
                 ("sender_" ++ sender_name)%string false
     end) d = (d1, Ok sid)
    /\ db_le d d1 /\ contact_exists d1 sid = true /\ messages d1 = messages d).
  { destruct (find_or_insert_contact_ok (Some sender_name) None None
                ("sender_" ++ sender_name)%string false d) as (kid & d1 & E & Hle & Hk & Hm).
    exists kid, d1. split; [exact E|]. split; [exact Hle|].
    split; [eapply contact_row_exists; exact Hk | exact Hm]. }
  destruct o as [[|n]|]; [exact Hfb | | exact Hfb].
  destruct (Ho (S n) eq_refl) as [s Hs]. exists (S n), d.
  split; [reflexivity|]. split; [apply db_le_refl|].
  split; [exact (Hids s (S n) Hs) | reflexivity].
Qed.

Lemma import_message_ok d0 cid thread ids msg d :
  conv_row d cid thread -> ids_valid d ids -> new_rows_in d0 d cid ->
  exists d', Imessage.import_message cid ids msg d = (d', Ok tt)
    /\ db_le d d' /\ new_rows_in d0 d' cid
    /\ (~ In ("imessage"%string, Imessage.im_platform_message_id msg) (map msg_key (messages d0)) ->
        has_row d' cid (Imessage.im_platform_message_id msg)).
Proof.
  intros Hc Hids Hnew. unfold Imessage.import_message. cbv zeta.
  destruct (sender_ok ids (Imessage.im_sender msg)
              (if (String.eqb (Imessage.im_sender msg) "Me" || Imessage.im_is_sent msg)%bool
               then PyStr.dict_get "me" ids
               else Imessage.match_sender (Imessage.im_sender msg) ids) d Hids)
    as (sid & d1 & E1 & Hle1 & Hk1 & Hm1).
  { intros v. destruct (_ || _)%bool; [apply dict_get_in | apply match_sender_in]. }
  rewrite (bind_ok _ _ _ _ _ E1).
  assert (Hc1 : conv_exists d1 cid = true)
    by (apply (conv_row_exists d1 cid thread); eapply conv_row_le; eauto).
  assert (Hnew1 : new_rows_in d0 d1 cid) by (intros mr; rewrite Hm1; apply Hnew).
  pose proof (insert_message_grows "imessage" (Imessage.im_platform_message_id msg) cid
                (Some sid) (Imessage.im_timestamp msg) (Imessage.im_body msg) d1) as Hg.
  unfold try_ignore, insert_message in *.
  destruct (existsb _ (messages d1)) eqn:Hkey.
  - exists d1. split; [reflexivity|]. split; [exact Hle1|]. split; [exact Hnew1|].
    intros Hnot. apply existsb_exists in Hkey as [mr [Hmr E]].
    apply andb_true_iff in E as [E1' E2']. apply String.eqb_eq in E1', E2'.
    assert (Hkmr : msg_key mr = ("imessage"%string, Imessage.im_platform_message_id msg))
      by (unfold msg_key; rewrite E1', E2'; reflexivity).
    exists mr. split; [exact Hmr|]. split; [exact Hkmr|].
    apply Hnew1; [exact Hmr|]. rewrite Hkmr. exact Hnot.
  - rewrite Hc1, Hk1 in *. simpl in *.
    eexists. split; [reflexivity|]. split; [eapply db_le_trans; eauto|].
    split.
    + intros mr Hmr Hnot. apply in_app_or in Hmr as [Hmr|[<-|[]]];
        [exact (Hnew1 mr Hmr Hnot) | reflexivity].
    + intros _. eexists. split; [apply in_or_app; right; left; reflexivity|].
      split; reflexivity.
Qed.

Lemma import_messages_loop d0 cid thread ids msgs : forall d,
  conv_row d cid thread -> ids_valid d ids -> new_rows_in d0 d cid ->
  exists d', mapM_ (Imessage.import_message cid ids) msgs d = (d', Ok tt)
    /\ db_le d d'
    /\ forall m, In m msgs ->
       ~ In ("imessage"%string, Imessage.im_platform_message_id m) (map msg_key (messages d0)) ->
       has_row d' cid (Imessage.im_platform_message_id m).
Proof.
  induction msgs as [|m rest IH]; intros d Hc Hids Hnew.
  - exists d. split; [reflexivity|]. split; [apply db_le_refl|]. intros _ [].
  - destruct (import_message_ok d0 cid thread ids m d Hc Hids Hnew)
      as (d1 & E1 & Hle1 & Hnew1 & Hrow1).
    destruct (IH d1 (conv_row_le _ _ _ _ Hle1 Hc) (ids_valid_le _ _ _ Hle1 Hids) Hnew1)
      as (d2 & E2 & Hle2 & Hrows2).
    exists d2. simpl. rewrite (bind_ok _ _ _ _ _ E1). split; [exact E2|].
    split; [exact (db_le_trans _ _ _ Hle1 Hle2)|].
    intros m' [<-|Hm'] Hnot.
    + exact (has_row_le _ _ _ _ Hle2 (Hrow1 Hnot)).
    + exact (Hrows2 m' Hm' Hnot).
Qed.

Lemma in_insert_by_iff {A} (key : A -> Z) x y : forall l,
  In y (PyStr.insert_by key x l) <-> y = x \/ In y l.
Proof.
  induction l as [|z l IH]; simpl.
  - intuition.
  - destruct (key x <=? key z)%Z; simpl; [intuition|]. rewrite IH. intuition.
Qed.

Lemma in_sort_by_iff {A} (key : A -> Z) y : forall l, In y (PyStr.sort_by key l) <-> In y l.
Proof.
  induction l as [|x l IH]; simpl; [tauto|]. rewrite in_insert_by_iff, IH. intuition.
Qed.

Lemma existsb_sort_by {A} (key : A -> Z) (f : A -> bool) l :
  existsb f (PyStr.sort_by key l) = existsb f l.
Proof.
  apply Bool.eq_true_iff_eq. rewrite !existsb_exists.
  split; intros [x [Hx E]]; exists x; rewrite ?in_sort_by_iff in *; auto.
Qed.

Lemma extract_participants_sort_by lookup conv_id msgs :
  Imessage.extract_participants lookup conv_id (PyStr.sort_by Imessage.im_timestamp msgs)
  = Imessage.extract_participants lookup conv_id msgs.
Proof. unfold Imessage.extract_participants. rewrite existsb_sort_by. reflexivity. Qed.

Lemma create_conversation_ok conv_id ps msgs d :
  exists d', Imessage.create_conversation conv_id ps msgs d = (d', Ok (S (seq_conv d)))
    /\ db_le d d' /\ conv_row d' (S (seq_conv d)) conv_id /\ messages d' = messages d.
Proof.
  unfold Imessage.create_conversation. rewrite insert_conversation_row.
  pose proof (insert_conversation_grows (Imessage.create_conversation_cols conv_id ps msgs) d)
    as Hg.
  rewrite insert_conversation_row in Hg.
  eexists. split; [reflexivity|]. split; [exact Hg|]. split; [|reflexivity].
  eexists. split; [simpl; apply in_or_app; right; left; reflexivity|].
  unfold inserted_row. split; [reflexivity|]. split; reflexivity.
Qed.

(** [process_conversation] on a non-empty conversation: it returns, the
    conversation row carries [conv_id], each extracted participant is
    linked to it and each message with a new key has its row there. *)
Lemma process_conversation_ok lookup conv_id msgs d :
  msgs <> [] ->
  exists d' cid, Imessage.process_conversation lookup (conv_id, msgs) d = (d', Ok tt)
    /\ conv_row d' cid conv_id
    /\ (forall p, In p (Imessage.extract_participants lookup conv_id msgs) ->
          linked d' cid (Imessage.p_platform_id p))
    /\ (forall m, In m msgs ->
          ~ In ("imessage"%string, Imessage.im_platform_message_id m) (map msg_key (messages d)) ->
          has_row d' cid (Imessage.im_platform_message_id m)).
Proof.
  intros Hne. unfold Imessage.process_conversation.
  assert (E0 : forall B (k : M B) (k' : M B), msgs <> [] ->
    match msgs with [] => k' | _ :: _ => k end = k) by (intros B k k' H; destruct msgs; congruence).
  rewrite E0 by exact Hne. clear E0.
  rewrite extract_participants_sort_by.
  set (ps := Imessage.extract_participants lookup conv_id msgs).
  set (smsgs := PyStr.sort_by Imessage.im_timestamp msgs).
  destruct (create_conversation_ok conv_id ps smsgs d) as (d1 & E1 & Hle1 & Hc1 & Hm1).
  rewrite (bind_ok _ _ _ _ _ E1).
  unfold Imessage.import_messages.
  destruct (link_participants_ok (S (seq_conv d)) conv_id ps [] d1 Hc1
              ltac:(intros s kid [])) as (ids & d2 & E2 & Hle2 & Hids2 & Hm2 & Hlink2).
  rewrite (bind_ok _ _ _ _ _ E2).
  assert (Hnew2 : new_rows_in d d2 (S (seq_conv d))).
  { intros mr Hmr Hnot. exfalso. apply Hnot. rewrite Hm2, Hm1 in Hmr.
    apply in_map. exact Hmr. }
  destruct (import_messages_loop d (S (seq_conv d)) conv_id ids smsgs d2
              (conv_row_le _ _ _ _ Hle2 Hc1) Hids2 Hnew2) as (d3 & E3 & Hle3 & Hrows3).
  exists d3, (S (seq_conv d)). split; [exact E3|].
  split; [exact (conv_row_le _ _ _ _ (db_le_trans _ _ _ Hle2 Hle3) Hc1)|].
  split.
  - intros p Hp. exact (linked_le _ _ _ _ Hle3 (Hlink2 p Hp)).
  - intros m Hm Hnot. apply Hrows3; [apply in_sort_by_iff; exact Hm | exact Hnot].
Qed.

(** C8 (counterexample): the iMessage projection has no participant
    ceiling: a conversation with 8 distinct participants gets its
    conversations row, 8 conversation_participants rows and its message. *)
Theorem imessage_large_group_imported :
  let d := fst (Imessage.create_database_run no_contacts [(c8_conv_id, c8_msgs)]) in
  map thread_id (conversations d) = [Some c8_conv_id]
  /\ rows_of d 1 = 8%nat
  /\ count_messages_of d 1 = 1%nat.
Proof. split; [|split]; vm_compute; reflexivity. Qed.

(** C8 (amended): the ceiling of 7 is not part of the projection of
    create_database.py. (1) The WhatsApp importer applies it: when a chat
    counts more than 7 participants, [import_conversation] returns before
    any statement and the database is unchanged. (2) The check of
    [iMessageExtractor.extract_all] never fires: every message
    [_row_to_message] builds has 2 participants, so the ledger holds every
    message that passes the empty-message filter. (3)
    [import_unified_ledger] writes nothing. (4) The iMessage projection
    imports every conversation with at least one message, whatever its
    number of participants: it returns, the conversation has its
    conversations row with [thread_id = conv_id], each extracted
    participant is linked to it, and each message whose key is new has its
    messages row there. *)
Theorem participant_ceiling_whatsapp_only :
  (forall now tz chat_id cs d,
     (7 < WhatsApp.count_participants chat_id cs
            (PyStr.sort_by WhatsApp.sort_key (WhatsApp.store_messages cs)))%nat ->
     WhatsApp.import_conversation now tz chat_id cs d = (d, Ok tt))
  /\ (forall (row : Type) from_me phone_email content get_contact_name
        get_email_contact_name (rows : list row),
     let to_msg := ImessageExtractor.row_to_message row from_me phone_email content
                     get_contact_name get_email_contact_name in
     (forall r m, to_msg r = Some m -> ImessageExtractor.participant_count m = 2%nat)
     /\ ImessageExtractor.extract_all row from_me phone_email content
          get_contact_name get_email_contact_name rows
        = flat_map (fun r => match to_msg r with
                             | Some m => if ImessageExtractor.skip_empty m then [] else [m]
                             | None => []
                             end) rows)
  /\ (forall loaded d, fst (Imessage.import_unified_ledger loaded d) = d)
  /\ (forall lookup conv_id msgs d,
     msgs <> [] ->
     exists d' cid, Imessage.process_conversation lookup (conv_id, msgs) d = (d', Ok tt)
       /\ conv_row d' cid conv_id
       /\ (forall p, In p (Imessage.extract_participants lookup conv_id msgs) ->
             linked d' cid (Imessage.p_platform_id p))
       /\ (forall m, In m msgs ->
             ~ In ("imessage"%string, Imessage.im_platform_message_id m)
                  (map msg_key (messages d)) ->
             has_row d' cid (Imessage.im_platform_message_id m))).
Proof.
  split; [|split; [|split]].
  - intros now tz chat_id cs d H. unfold WhatsApp.import_conversation.
    destruct (WhatsApp.store_messages cs) as [|m ms]; [reflexivity|].
    cbv zeta. apply Nat.ltb_lt in H. rewrite H. reflexivity.
  - intros row from_me phone_email content gcn gecn rows. cbv zeta. split.
    + apply ImessageExtractorFacts.row_to_message_two_participants.
    + unfold ImessageExtractor.extract_all.
      rewrite ImessageExtractorFacts.extract_rows_no_ceiling. reflexivity.
  - intros [[|]|] d; reflexivity.
  - exact process_conversation_ok.
Qed.

Lemma participant_ceiling_whatsapp_only_witness :
  (7 < WhatsApp.count_participants "team@g.us" c8_group
         (PyStr.sort_by WhatsApp.sort_key (WhatsApp.store_messages c8_group)))%nat
  /\ WhatsApp.import_conversation 0 w_utc "team@g.us" c8_group empty_db = (empty_db, Ok tt)
  /\ c8_msgs <> []
  /\ exists d' cid,
       Imessage.process_conversation no_contacts (c8_conv_id, c8_msgs) empty_db = (d', Ok tt)
       /\ conv_row d' cid c8_conv_id
       /\ forall p, In p (Imessage.extract_participants no_contacts c8_conv_id c8_msgs) ->
            linked d' cid (Imessage.p_platform_id p).
Proof.
  assert (H : (7 < WhatsApp.count_participants "team@g.us" c8_group
                 (PyStr.sort_by WhatsApp.sort_key (WhatsApp.store_messages c8_group)))%nat)
    by (apply Nat.ltb_lt; vm_compute; reflexivity).
  assert (Hne : c8_msgs <> []) by discriminate.
  destruct participant_ceiling_whatsapp_only as [Hw [_ [_ Hi]]].
  split; [exact H|]. split; [exact (Hw 0%Z w_utc _ _ empty_db H)|].
  split; [exact Hne|].
  destruct (Hi no_contacts c8_conv_id c8_msgs empty_db Hne) as (d' & cid & E & Hc & Hl & _).
  exists d', cid. split; [exact E|]. split; [exact Hc | exact Hl].
Defined.

Lemma conversation_aggregates_at_insert_witness :
  let d := fst (Imessage.create_database_run no_contacts c5_convs) in
  exists c, In c (conversations d) /\ conversation_id c = 1%nat
            /\ message_count c = Z.of_nat (count_messages_of d 1) /\ message_count c = 1%Z.
Proof.
  cbv zeta.
  set (d := fst (Imessage.create_database_run no_contacts c5_convs)).
  assert (Hc : In (hd (conv_defaults 0) (conversations d)) (conversations d))
    by (vm_compute; left; reflexivity).
  exists (hd (conv_defaults 0) (conversations d)).
  split; [exact Hc|]. split; [vm_compute; reflexivity|].
  pose proof (proj2 (proj2 conversation_aggregates_at_insert) no_contacts c5_convs _ Hc) as E.
  split; [exact E|]. vm_compute; reflexivity.
Defined.

End DbFacts.

Module PhoneNormFacts.
Import Phone.

Lemma strip_non_phone_idem (s : string) :
  strip_non_phone (strip_non_phone s) = strip_non_phone s.
Proof.
  induction s as [|c s IH]; [reflexivity|]. simpl.
  destruct (is_digit c || Ascii.eqb c "+") eqn:E; simpl; [rewrite E, IH|]; auto.
Qed.

Lemma strip_non_phone_all_digits (s : string) :
  all_digits s = true -> strip_non_phone s = s.
Proof.
  induction s as [|c s IH]; [reflexivity|]. simpl.
  intros H. apply andb_prop in H as [H1 H2]. rewrite H1. simpl. rewrite IH; auto.
Qed.

Lemma normalize_phone_unfold (phone : string) :
  phone <> EmptyString ->
  normalize_phone phone =
  (let cleaned := strip_non_phone phone in
   let from_plus := if String.prefix "+" cleaned then Some cleaned else Some phone in
   if py_isdigit cleaned then
     if String.length cleaned =? 10 then Some ("+1" ++ cleaned)%string
     else if (String.length cleaned =? 11) && String.prefix "1" cleaned
     then Some ("+" ++ cleaned)%string
     else if 10 <? String.length cleaned then Some ("+" ++ cleaned)%string
     else from_plus
   else from_plus).
Proof. destruct phone; [contradiction|reflexivity]. Qed.

Lemma py_isdigit_all (s : string) : py_isdigit s = true -> all_digits s = true.
Proof. destruct s; [discriminate|exact id]. Qed.

(** A string that starts with ['+'] and only has digits and ['+'] is its
    own normalisation. *)
Lemma normalize_phone_plus_fixed (y : string) :
  String.prefix "+" y = true -> strip_non_phone y = y -> normalize_phone y = Some y.
Proof.
  intros Hp Hs. assert (Hne : y <> EmptyString) by (intros ->; discriminate).
  rewrite normalize_phone_unfold by exact Hne. cbv zeta. rewrite Hs.
  rewrite (PhoneFacts.prefix_plus_not_digits _ Hp), Hp. reflexivity.
Qed.

(** ** Normalisation is idempotent
    A phone number produced by [_normalize_phone] normalises to itself; it
    is either the input unchanged or a ['+'] followed by digits and ['+']
    only. *)
Theorem normalize_phone_idempotent (phone y : string) :
  normalize_phone phone = Some y ->
  normalize_phone y = Some y
  /\ (y = phone \/ (String.prefix "+" y = true /\ strip_non_phone y = y)).
Proof.
  intros H0. pose proof H0 as H.
  destruct (string_dec phone EmptyString) as [->|Hne]; [discriminate|].
  rewrite normalize_phone_unfold in H by exact Hne. cbv zeta in H.
  assert (Hc : strip_non_phone (strip_non_phone phone) = strip_non_phone phone)
    by apply strip_non_phone_idem.
  set (c := strip_non_phone phone) in H, Hc.
  assert (Hfp : (if String.prefix "+" c then Some c else Some phone) = Some y ->
                normalize_phone y = Some y
                /\ (y = phone \/ (String.prefix "+" y = true /\ strip_non_phone y = y))).
  { destruct (String.prefix "+" c) eqn:Hp; intros E; injection E as <-.
    - split; [apply normalize_phone_plus_fixed; auto|right; auto].
    - split; [exact H0|left; reflexivity]. }
  assert (Hplus : forall pre, pre = "+"%string \/ pre = "+1"%string ->
            py_isdigit c = true -> Some (pre ++ c)%string = Some y ->
            normalize_phone y = Some y
            /\ (y = phone \/ (String.prefix "+" y = true /\ strip_non_phone y = y))).
  { intros pre Hpre Hd E. injection E as <-.
    assert (Hs : strip_non_phone (pre ++ c) = (pre ++ c)%string).
    { rewrite (strip_non_phone_all_digits c (py_isdigit_all c Hd)) in Hc.
      destruct Hpre as [->| ->]; simpl; rewrite strip_non_phone_all_digits;
        auto using py_isdigit_all. }
    assert (Hp : String.prefix "+" (pre ++ c) = true)
      by (destruct Hpre as [->| ->]; simpl; destruct c; reflexivity).
    split; [apply normalize_phone_plus_fixed; auto|right; auto]. }
  destruct (py_isdigit c) eqn:Hd; [|exact (Hfp H)]. specialize (fun pre Hpre => Hplus pre Hpre eq_refl).
  destruct (String.length c =? 10); [exact (Hplus "+1"%string (or_intror eq_refl) H)|].
  destruct ((String.length c =? 11) && String.prefix "1" c);
    [exact (Hplus "+"%string (or_introl eq_refl) H)|].
  destruct (10 <? String.length c); [exact (Hplus "+"%string (or_introl eq_refl) H)|].
  exact (Hfp H).
Qed.

Lemma normalize_phone_idempotent_witness :
  Phone.normalize_phone "+15551234567" = Some "+15551234567"%string
  /\ ("+15551234567"%string = "(555) 123-4567"%string
      \/ (String.prefix "+" "+15551234567" = true
          /\ Phone.strip_non_phone "+15551234567" = "+15551234567"%string)).
Proof. apply (normalize_phone_idempotent "(555) 123-4567"). reflexivity. Defined.

End PhoneNormFacts.

Module BodyFacts.
Import WhatsApp.

Definition no_br_char (p : string) : Prop :=
  forall n c, String.get n p = Some c -> c <> "<"%char /\ c <> " "%char.

Lemma no_br_char_tail c p : no_br_char (String c p) -> no_br_char p.
Proof. intros H n d Hn. apply (H (S n)). exact Hn. Qed.

Lemma prefix_cons (a c : ascii) p s :
  String.prefix (String a p) (String c s) = if ascii_dec a c then String.prefix p s else false.
Proof. reflexivity. Qed.

Lemma prefix_cons_neq (a c : ascii) p s :
  a <> c -> String.prefix (String a p) (String c s) = false.
Proof. intros Hne. rewrite prefix_cons. destruct (ascii_dec a c); [contradiction|reflexivity]. Qed.

Lemma prefix_br_head s :
  String.prefix "<br>" s = true -> exists rest, s = String "<" rest.
Proof.
  destruct s as [|c rest]; [discriminate|]. intros H. rewrite prefix_cons in H.
  destruct (ascii_dec "<" c) as [<-|]; [eauto|discriminate H].
Qed.

Lemma replace_br_prefix (fuel : nat) : forall p s,
  String.length s < fuel -> no_br_char p ->
  String.prefix p (replace_fuel fuel "<br>" " " s) = String.prefix p s.
Proof.
  induction fuel as [|fuel IH]; intros p s Hl Hp; [lia|].
  destruct s as [|c rest]; [reflexivity|].
  cbn [replace_fuel].
  destruct (String.prefix "<br>" (String c rest)) eqn:Hb.
  - destruct p as [|a p']; [destruct (replace_fuel _ _ _ _); reflexivity|].
    destruct (Hp 0 a eq_refl) as [Hlt Hsp].
    destruct (prefix_br_head _ Hb) as [r Hr]. injection Hr as -> ->.
    simpl (String " " EmptyString ++ _)%string.
    rewrite !prefix_cons_neq by congruence. reflexivity.
  - destruct p as [|a p']; [reflexivity|]. rewrite !prefix_cons.
    destruct (ascii_dec a c); [|reflexivity].
    apply IH; [simpl in Hl; lia|]. exact (no_br_char_tail _ _ Hp).
Qed.

Lemma contains_cons sub c r :
  PyStr.contains sub (String c r) = String.prefix sub (String c r) || PyStr.contains sub r.
Proof. reflexivity. Qed.

Lemma prefix_app_inv (p : string) : forall s,
  String.prefix p s = true -> exists r, s = (p ++ r)%string.
Proof.
  induction p as [|a p IH]; intros s H; [exists s; reflexivity|].
  destruct s as [|c s]; [discriminate H|]. rewrite prefix_cons in H.
  destruct (ascii_dec a c) as [<-|]; [|discriminate H].
  destruct (IH s H) as [r ->]. exists r; reflexivity.
Qed.

Lemma substring0_long (s : string) : forall n,
  String.length s <= n -> substring 0 n s = s.
Proof.
  induction s as [|c s IH]; intros n Hn; [destruct n; reflexivity|].
  destruct n as [|n]; [simpl in Hn; lia|]. simpl. rewrite IH; [reflexivity|simpl in Hn; lia].
Qed.

Lemma no_br_char_br : no_br_char "br>".
Proof.
  intros n c H. destruct n as [|[|[|n]]]; simpl in H; try discriminate H;
    injection H as <-; split; discriminate.
Qed.

Lemma replace_br_no_br (fuel : nat) : forall s,
  String.length s < fuel ->
  PyStr.contains "<br>" (replace_fuel fuel "<br>" " " s) = false.
Proof.
  induction fuel as [|fuel IH]; intros s Hl; [lia|].
  destruct s as [|c rest]; [reflexivity|].
  cbn [replace_fuel].
  destruct (String.prefix "<br>" (String c rest)) eqn:Hb.
  - destruct (prefix_app_inv _ _ Hb) as [r Hr].
    rewrite Hr. simpl (String.length ("<br>" ++ r)).
    assert (Hsub : substring (String.length "<br>") (S (S (S (S (String.length r)))))
                     ("<br>" ++ r) = r) by (simpl; apply substring0_long; lia).
    rewrite Hsub.
    simpl (String " " EmptyString ++ _)%string. rewrite contains_cons.
    rewrite prefix_cons_neq by discriminate. simpl.
    apply IH. rewrite Hr in Hl. simpl in Hl. lia.
  - rewrite contains_cons. rewrite IH by (simpl in Hl; lia). rewrite orb_false_r.
    destruct (ascii_dec "<" c) as [<-|Hn].
    + rewrite prefix_cons. rewrite prefix_cons in Hb.
      destruct (ascii_dec "<" "<"); [|reflexivity].
      rewrite replace_br_prefix; [exact Hb|simpl in Hl; lia|exact no_br_char_br].
    + apply prefix_cons_neq. exact Hn.
Qed.

Lemma prefix_substring0 (sub s : string) : forall n,
  String.prefix sub (substring 0 n s) = true -> String.prefix sub s = true.
Proof.
  revert s. induction sub as [|a sub IH]; intros s n H; [destruct s; reflexivity|].
  destruct s as [|c s]; [destruct n; discriminate H|].
  destruct n as [|n]; [discriminate H|].
  cbn [substring] in H. rewrite prefix_cons in *.
  destruct (ascii_dec a c); [|discriminate H]. exact (IH s n H).
Qed.

Lemma contains_substring0 (sub s : string) : forall n,
  PyStr.contains sub (substring 0 n s) = true -> PyStr.contains sub s = true.
Proof.
  induction s as [|c s IH]; intros n H; [destruct n; exact H|].
  destruct n as [|n].
  - destruct sub; [reflexivity|discriminate].
  - simpl substring in H. rewrite contains_cons in *.
    apply orb_true_iff in H as [H|H]; apply orb_true_iff.
    + left. exact (prefix_substring0 sub (String c s) (S n) H).
    + right. eauto.
Qed.

Lemma substring0_length (s : string) : forall n,
  String.length (substring 0 n s) <= n.
Proof.
  induction s as [|c s IH]; intros n; destruct n; simpl; try lia.
  specialize (IH n). lia.
Qed.

Lemma replace_fuel_nonempty fuel pat s :
  fuel <> 0 -> s <> EmptyString -> replace_fuel fuel pat " " s <> EmptyString.
Proof.
  intros Hf Hs. destruct fuel as [|fuel]; [contradiction|].
  destruct s as [|c r]; [contradiction|]. cbn [replace_fuel].
  destruct String.prefix; discriminate.
Qed.

(** ** Stored WhatsApp bodies are non-empty, bounded and free of [<br>]
    [_extract_message_body] never returns an empty string, never more
    than 10000 characters, and never a string containing ["<br>"]. *)
Theorem extract_message_body_clean (m : wa_msg) :
  let b := extract_message_body m in
  b <> EmptyString /\ (Z.of_nat (String.length b) <= 10000)%Z
  /\ PyStr.contains "<br>" b = false.
Proof.
  unfold extract_message_body.
  set (b0 := if PyStr.truthy (data m) then _ else _).
  assert (H0 : b0 <> EmptyString).
  { subst b0. destruct (data m) as [[|c r]|] eqn:E; simpl;
      try (intros; discriminate);
      destruct (meta m); try discriminate; destruct (media m); try discriminate;
      destruct (caption m) as [[|c' r']|]; discriminate. }
  set (b1 := if PyStr.contains "<br>" b0 then _ else _).
  assert (H1 : b1 <> EmptyString /\ PyStr.contains "<br>" b1 = false).
  { subst b1. destruct (PyStr.contains "<br>" b0) eqn:E; [|auto].
    split; [apply replace_fuel_nonempty; [discriminate|exact H0]|].
    apply replace_br_no_br. lia. }
  destruct H1 as [H1ne H1br].
  assert (Hn : Z.to_nat 10000 = S (pred (Z.to_nat 10000))) by reflexivity.
  cbv zeta. split; [|split].
  - rewrite Hn. destruct b1 as [|c r]; [contradiction|discriminate].
  - pose proof (substring0_length b1 (Z.to_nat 10000)). lia.
  - destruct (PyStr.contains "<br>" (substring 0 (Z.to_nat 10000) b1)) eqn:E; [|reflexivity].
    apply contains_substring0 in E. congruence.
Qed.

End BodyFacts.

Module ContactsFacts.
Import ContactsCsv Imessage PhoneNormFacts.

Lemma dict_get_set {V} (k k' : string) (v : V) (l : list (string * V)) :
  PyStr.dict_get k (PyStr.dict_set k' v l)
  = if String.eqb k k' then Some v else PyStr.dict_get k l.
Proof.
  induction l as [|[k0 v0] l IH]; simpl; [reflexivity|].
  destruct (String.eqb k' k0) eqn:E.
  - apply String.eqb_eq in E as ->. simpl. destruct (String.eqb k k0); reflexivity.
  - simpl. destruct (String.eqb k k0) eqn:E0.
    + apply String.eqb_eq in E0 as ->. rewrite String.eqb_sym, E. reflexivity.
    + exact IH.
Qed.

Lemma email_phone_keys_differ (a b : string) :
  String.eqb ("email:" ++ a) ("phone:" ++ b) = false.
Proof. reflexivity. Qed.

Definition row_complete (x : csv_row) : Prop :=
  col_name x <> None /\ col_email x <> None /\ col_phone x <> None
  /\ col_organization x <> None.

Lemma load_row_complete lk x :
  row_complete x -> exists lk', load_row lk x = Some lk'.
Proof.
  intros (H1 & H2 & H3 & H4). unfold load_row.
  destruct (col_name x); [|contradiction]. destruct (col_email x); [|contradiction].
  destruct (col_phone x); [|contradiction]. destruct (col_organization x); [|contradiction].
  destruct (_ && _); eauto.
Qed.

Lemma load_rows_app rows rest lk :
  (forall x, In x rows -> row_complete x) ->
  load_rows (rows ++ rest) lk = load_rows rest (load_rows rows lk).
Proof.
  revert lk. induction rows as [|x rows IH]; intros lk H; [reflexivity|].
  simpl. destruct (load_row_complete lk x (H x (or_introl eq_refl))) as [lk' E].
  rewrite E. apply IH. intros y Hy. apply H. right. exact Hy.
Qed.

Lemma normalize_phone_nonempty (phone : string) :
  phone <> EmptyString -> exists c r, Phone.normalize_phone phone = Some (String c r).
Proof.
  intros Hne. rewrite normalize_phone_unfold by exact Hne. cbv zeta.
  assert (Hfp : exists c r, (if String.prefix "+" (Phone.strip_non_phone phone)
                             then Some (Phone.strip_non_phone phone) else Some phone)
                            = Some (String c r)).
  { destruct (String.prefix "+" _) eqn:E.
    - destruct (Phone.strip_non_phone phone) as [|c r]; [discriminate E|eauto].
    - destruct phone as [|c r]; [contradiction|eauto]. }
  set (cl := Phone.strip_non_phone phone) in *.
  destruct (Phone.py_isdigit cl); [|exact Hfp].
  destruct (String.length cl =? 10); [do 2 eexists; reflexivity|].
  destruct ((String.length cl =? 11) && String.prefix "1" cl); [do 2 eexists; reflexivity|].
  destruct (10 <? String.length cl); [do 2 eexists; reflexivity|exact Hfp].
Qed.

Lemma truthy_some (s : string) : PyStr.truthy (Some s) = true <-> s <> EmptyString.
Proof. destruct s; simpl; split; congruence. Qed.

(** The dictionary after one complete row [r] on top of [lk]. *)
Lemma load_row_lookup lk n e p o k :
  (k = ("email:" ++ PyStr.lower (PyStr.strip e))%string
     /\ PyStr.strip e <> EmptyString)
  \/ (exists np, Phone.normalize_phone (PyStr.strip p) = Some np
        /\ k = ("phone:" ++ np)%string /\ PyStr.strip p <> EmptyString) ->
  exists lk', load_row lk (mkRow (Some n) (Some e) (Some p) (Some o)) = Some lk'
    /\ PyStr.dict_get k lk'
       = Some (row_record (PyStr.strip n) (PyStr.strip e) (PyStr.strip p) (PyStr.strip o)).
Proof.
  intros Hk. unfold load_row. cbn [col_name col_email col_phone col_organization].
  cbv beta iota zeta.
  set (name := PyStr.strip n). set (email := PyStr.strip e).
  set (phone := PyStr.strip p). set (org := PyStr.strip o).
  fold name email phone org in Hk.
  set (record := row_record name email phone org).
  assert (Hskip : negb (PyStr.truthy (Some name)) && negb (PyStr.truthy (Some email))
                  && negb (PyStr.truthy (Some phone)) = false).
  { destruct Hk as [[_ He]|[np [_ [_ Hp]]]].
    - apply truthy_some in He. rewrite He. rewrite andb_false_r. reflexivity.
    - apply truthy_some in Hp. rewrite Hp. rewrite andb_false_r. reflexivity. }
  rewrite Hskip. eexists. split; [reflexivity|].
  destruct Hk as [[-> He]|[np [Hnp [-> Hp]]]].
  - apply truthy_some in He. rewrite He.
    set (l1 := PyStr.dict_set _ record lk).
    assert (H1 : PyStr.dict_get ("email:" ++ PyStr.lower email) l1 = Some record).
    { unfold l1. rewrite dict_get_set, String.eqb_refl. reflexivity. }
    destruct (Phone.normalize_phone phone) as [[|c r]|];
      match goal with |- context [if ?b then _ else _] => destruct b end;
      rewrite ?dict_get_set, ?email_phone_keys_differ; exact H1.
  - rewrite Hnp. destruct np as [|c r].
    + (* normalised phones are never empty *)
      destruct (normalize_phone_nonempty phone) as [c [r Hn]]; [exact Hp|congruence].
    + apply truthy_some in Hp. rewrite Hp. simpl andb.
      match goal with |- context [if ?b then _ else _] => destruct b end;
        rewrite !dict_get_set;
        [destruct (String.eqb ("phone:" ++ String c r) ("phone:" ++ phone)); [reflexivity|]|];
        rewrite String.eqb_refl; reflexivity.
Qed.
(** ** The email of the last row of the contacts CSV is matched case-insensitively *)
Theorem contacts_csv_email_match rows n e p o raw :
  (forall x, In x rows -> row_complete x) ->
  PyStr.strip e <> EmptyString ->
  PyStr.contains "@" (PyStr.strip raw) = true ->
  PyStr.lower (PyStr.strip raw) = PyStr.lower (PyStr.strip e) ->
  let r := row_record (PyStr.strip n) (PyStr.strip e) (PyStr.strip p) (PyStr.strip o) in
  participant_of_part
    (contacts_lookup (load_contacts (rows ++ [mkRow (Some n) (Some e) (Some p) (Some o)]))) raw
  = mkParticipant (PyStr.strip raw)
      (match PyStr.py_or (lk_display_name r) (Some (PyStr.strip raw)) with
       | Some d => d | None => PyStr.strip raw end)
      (lk_email r) (lk_phone r) false.
Proof.
  intros Hrows He Hat Hlow r.
  unfold load_contacts. rewrite load_rows_app by exact Hrows.
  destruct (load_row_lookup (load_rows rows []) n e p o
              ("email:" ++ PyStr.lower (PyStr.strip e))%string (or_introl (conj eq_refl He)))
    as [lk' [E G]].
  simpl load_rows. rewrite E.
  unfold participant_of_part. cbv beta zeta. rewrite Hat.
  unfold contacts_lookup. rewrite Hlow, G. reflexivity.
Qed.

(** ** A phone-like identifier with the normalisation of the last row's phone is matched *)
Theorem contacts_csv_phone_match rows n e p o raw :
  (forall x, In x rows -> row_complete x) ->
  PyStr.strip p <> EmptyString ->
  PyStr.contains "@" (PyStr.strip raw) = false ->
  is_phone_like (PyStr.strip raw) = true ->
  Phone.normalize_phone (PyStr.strip raw) = Phone.normalize_phone (PyStr.strip p) ->
  let r := row_record (PyStr.strip n) (PyStr.strip e) (PyStr.strip p) (PyStr.strip o) in
  participant_of_part
    (contacts_lookup (load_contacts (rows ++ [mkRow (Some n) (Some e) (Some p) (Some o)]))) raw
  = mkParticipant (PyStr.strip raw)
      (match PyStr.py_or (lk_display_name r) (Some (PyStr.strip raw)) with
       | Some d => d | None => PyStr.strip raw end)
      (lk_email r) (lk_phone r) false.
Proof.
  intros Hrows Hp Hat Hlike Hnorm r.
  destruct (normalize_phone_nonempty _ Hp) as [c [s Hn]].
  unfold load_contacts. rewrite load_rows_app by exact Hrows.
  destruct (load_row_lookup (load_rows rows []) n e p o ("phone:" ++ String c s)%string
              (or_intror (ex_intro _ (String c s) (conj Hn (conj eq_refl Hp)))))
    as [lk' [E G]].
  simpl load_rows. rewrite E.
  unfold participant_of_part. cbv beta zeta. rewrite Hat, Hlike, Hnorm, Hn.
  unfold contacts_lookup. rewrite G. reflexivity.
Qed.

(** ** A short CSV row stops the loading *)
Theorem contacts_csv_short_row_stops rows r rest :
  col_name r = None \/ col_email r = None \/ col_phone r = None
  \/ col_organization r = None ->
  load_contacts (rows ++ r :: rest) = load_contacts rows.
Proof.
  intros Hr. unfold load_contacts. generalize (@nil (string * lookup_rec)).
  induction rows as [|x rows IH]; intros lk; simpl.
  - assert (load_row lk r = None) as ->; [|reflexivity].
    unfold load_row.
    destruct Hr as [-> | [-> | [-> | ->]]];
      destruct (col_name r), (col_email r), (col_phone r), (col_organization r); reflexivity.
  - destruct (load_row lk x); [apply IH|reflexivity].
Qed.

Definition w_rows : list csv_row :=
  [mkRow (Some "Carol"%string) (Some "carol@example.com"%string) (Some ""%string) (Some "Acme"%string)].

Lemma contacts_csv_email_match_witness :
  participant_of_part
    (contacts_lookup (load_contacts (w_rows ++ [mkRow (Some " Alice "%string) (Some "Alice@Example.com "%string)
                                                 (Some ""%string) (Some ""%string)])))
    " alice@example.COM"%string
  = mkParticipant "alice@example.COM"%string "Alice"%string (Some "alice@example.com"%string) None false.
Proof.
  apply (contacts_csv_email_match w_rows " Alice "%string "Alice@Example.com "%string ""%string ""%string " alice@example.COM"%string).
  - intros x [<-|[]]. repeat split; discriminate.
  - vm_compute. discriminate.
  - vm_compute. reflexivity.
  - vm_compute. reflexivity.
Defined.

Lemma contacts_csv_phone_match_witness :
  participant_of_part
    (contacts_lookup (load_contacts (w_rows ++ [mkRow (Some "Bob"%string) (Some ""%string)
                                                 (Some "(555) 123-4567"%string) (Some ""%string)])))
    "+1 555 123 4567"%string
  = mkParticipant "+1 555 123 4567"%string "Bob"%string None (Some "+15551234567"%string) false.
Proof.
  apply (contacts_csv_phone_match w_rows "Bob"%string ""%string "(555) 123-4567"%string ""%string "+1 555 123 4567"%string).
  - intros x [<-|[]]. repeat split; discriminate.
  - vm_compute. discriminate.
  - vm_compute. reflexivity.
  - vm_compute. reflexivity.
  - vm_compute. reflexivity.
Defined.

Lemma contacts_csv_short_row_stops_witness :
  load_contacts (w_rows ++ mkRow (Some "Dan"%string) None None None
                   :: [mkRow (Some "Eve"%string) (Some "eve@example.com"%string) (Some ""%string) (Some ""%string)])
  = load_contacts w_rows.
Proof. apply contacts_csv_short_row_stops. right; left; reflexivity. Defined.

End ContactsFacts.

Module ChunkedRunFacts.
Import Chunked.

(** The results a list of lines carries. *)
Definition lines_items {R} (ls : list (line R)) : list R :=
  flat_map (fun l => match l with Line r => [r] | LineBatch rs => rs end) ls.

(** The results carried by the [ResultsWrite]s of a write list. *)
Definition written {R} (ws : list (write R)) : list R :=
  flat_map (fun w => match w with CheckpointWrite _ => [] | ResultsWrite ls => lines_items ls end) ws.

Lemma written_app {R} (a b : list (write R)) : written (a ++ b) = written a ++ written b.
Proof. unfold written. apply flat_map_app. Qed.

Lemma written_checkpoint {R} (p : ChunkProgress) (ws : list (write R)) :
  written (CheckpointWrite p :: ws) = written ws.
Proof. reflexivity. Qed.

Lemma lines_items_map_Line {R} (l : list R) : lines_items (map Line l) = l.
Proof. induction l; simpl; f_equal; auto. Qed.

Lemma disk_after_results {R} (ws : list (write R)) : forall d,
  lines_items (result_file (disk_after d ws)) = lines_items (result_file d) ++ written ws.
Proof.
  induction ws as [|w ws IH]; intros d; simpl.
  - rewrite app_nil_r. reflexivity.
  - unfold disk_after in *. simpl. rewrite IH.
    destruct w; simpl; [reflexivity|].
    unfold lines_items at 1. rewrite flat_map_app. fold (lines_items (result_file d)).
    fold (lines_items ls). rewrite app_assoc. reflexivity.
Qed.

Section Durable.
Variables (I R : Type).
Variable get_item_id : I -> string.
Variable process_func : I -> call_result R.
Variable cfg : config.
Hypothesis Hfile : has_result_file cfg = true.
Hypothesis Hsi : (0 <= save_interval cfg)%Z.

Definition inv (s : st R) : Prop :=
  written (writes s) ++ cur s = chunk_results s
  /\ (cur s = [] \/ (Z.of_nat (List.length (cur s)) < save_interval cfg)%Z).

Lemma save_results_written (b : list (line R)) :
  written (save_results cfg b) = lines_items b.
Proof. unfold save_results. rewrite Hfile. simpl. apply app_nil_r. Qed.

Lemma end_of_item_inv s : inv s -> inv (end_of_item cfg s).
Proof.
  intros [H1 H2]. unfold end_of_item, inv.
  destruct (chunk_size cfg <=? item_count s); [|split; auto].
  destruct (cur s) as [|x xs] eqn:E; cbn [cur writes chunk_results].
  - split; [|left; reflexivity]. rewrite written_app. simpl. rewrite !app_nil_r.
    rewrite app_nil_r in H1. exact H1.
  - split; [|left; reflexivity]. rewrite !written_app, save_results_written,
      lines_items_map_Line. simpl. rewrite !app_nil_r. exact H1.
Qed.

Lemma py_last_full (k : Z) (c : list R) : (0 <= k)%Z ->
  (Z.of_nat (List.length c) <= k)%Z \/ k = 0%Z -> py_last k c = c.
Proof.
  intros H0 Hk. destruct k as [|k|k]; [reflexivity| |lia]. simpl.
  destruct Hk as [Hk|Hk]; [|discriminate].
  replace (List.length c - Pos.to_nat k) with 0 by lia. reflexivity.
Qed.

Lemma step_inv resume ps s item :
  inv s ->
  match step get_item_id process_func cfg resume ps s item with
  | inl s' => inv s'
  | inr (s', KeyboardInterrupt) => written (writes s') = chunk_results s'
  | inr (s', _) => inv s'
  end.
Proof.
  intros Hs. pose proof Hs as [H1 H2]. unfold step.
  destruct (resume_skips get_item_id resume ps item); [exact Hs|].
  destruct (process_func item) as [[r|]|e].
  - destruct (save_interval cfg <=? Z.of_nat (List.length (cur s ++ [r])))%Z eqn:E;
      apply end_of_item_inv; unfold inv; cbn [cur writes chunk_results]; split.
    + rewrite written_app, save_results_written. cbn [lines_items flat_map].
      rewrite py_last_full by (exact Hsi ||
        (rewrite length_app; simpl; destruct H2 as [->|H2]; simpl; [|lia];
         apply Z.leb_le in E; rewrite length_app in E; simpl in E; lia)).
      rewrite app_nil_r, app_nil_r, <- H1, app_assoc. reflexivity.
    + left. reflexivity.
    + rewrite <- H1, app_assoc. reflexivity.
    + right. apply Z.leb_gt in E. exact E.
  - apply end_of_item_inv. exact Hs.
  - destruct e; simpl.
    + rewrite written_app, written_checkpoint, save_results_written, lines_items_map_Line.
      exact H1.
    + destruct (isolated_errors cfg); [exact Hs|].
      split; [|exact H2]. simpl. rewrite written_app. simpl. rewrite app_nil_r. exact H1.
    + destruct (isolated_errors cfg); [exact Hs|].
      split; [|exact H2]. simpl. rewrite written_app. simpl. rewrite app_nil_r. exact H1.
    + destruct (isolated_errors cfg); [exact Hs|].
      split; [|exact H2]. simpl. rewrite written_app. simpl. rewrite app_nil_r. exact H1.
Qed.

Lemma loop_inv resume ps items : forall s,
  inv s ->
  let '(s', r) := loop get_item_id process_func cfg resume ps s items in
  match r with
  | None => inv s'
  | Some KeyboardInterrupt => written (writes s') = chunk_results s'
  | Some _ => inv s'
  end.
Proof.
  induction items as [|item items IH]; intros s Hs; simpl; [exact Hs|].
  pose proof (step_inv resume ps s item Hs) as Hst.
  destruct (step get_item_id process_func cfg resume ps s item) as [s'|[s' e]].
  - apply IH. exact Hst.
  - destruct e; exact Hst.
Qed.

End Durable.

Arguments inv {R} cfg s.
Arguments save_results_written {R} cfg Hfile b.
Lemma written_tail {R} cfg (s : st R) :
  has_result_file cfg = true ->
  written (match cur s with [] => [] | _ => save_results cfg (map Line (cur s)) end)
  = cur s.
Proof.
  intros Hf. destruct (cur s) as [|x xs]; [reflexivity|].
  rewrite (save_results_written cfg Hf), lines_items_map_Line. reflexivity.
Qed.

(** ** Every successful result reaches the results file exactly once
    With a result file and a non-negative [save_interval], whatever way
    [process_chunked] ends (normally, on [KeyboardInterrupt], or on an
    [Exception]), the lines it appends to the results file carry exactly
    the successful results of the run, each once and in processing order.
    A negative [save_interval] makes [current_chunk[-save_interval:]] drop
    the newest results. *)
Theorem process_chunked_results_durable {I R} (get_item_id : I -> string)
    (process_func : I -> call_result R) cfg p0 items total resume (d : disk R) :
  has_result_file cfg = true -> (0 <= save_interval cfg)%Z ->
  let '(s, _) := process_chunked get_item_id process_func cfg p0 items total resume in
  lines_items (result_file (disk_after d (writes s)))
  = lines_items (result_file d) ++ chunk_results s.
Proof.
  intros Hf Hsi. unfold process_chunked.
  destruct (init_progress cfg p0 total) as [p|]; [|simpl; rewrite !app_nil_r; reflexivity].
  assert (H0 : @inv R cfg (mkSt p [] [] 0 [])) by (split; [reflexivity|left; reflexivity]).
  pose proof (loop_inv I R get_item_id process_func cfg Hf Hsi resume
                (if resume then processed_ids p else []) items _ H0) as Hl.
  destruct (loop get_item_id process_func cfg resume _ _ items) as [s r].
  destruct r as [e|]; [destruct e|]; cbn [writes chunk_results];
    rewrite disk_after_results; f_equal.
  - exact Hl.
  - destruct Hl as [H1 _]. unfold save_checkpoint. rewrite !written_app, written_checkpoint,
      (written_tail cfg s Hf). exact H1.
  - destruct Hl as [H1 _]. unfold save_checkpoint. rewrite !written_app, written_checkpoint,
      (written_tail cfg s Hf). exact H1.
  - destruct Hl as [H1 _]. unfold save_checkpoint. rewrite !written_app, written_checkpoint,
      (written_tail cfg s Hf). exact H1.
  - destruct Hl as [H1 _].
    rewrite !written_app, (written_tail cfg s Hf). unfold save_checkpoint.
    rewrite written_checkpoint. simpl written at 2. rewrite app_nil_r. exact H1.
Qed.

Section Counters.
Variables (I R : Type).
Variable get_item_id : I -> string.
Variable process_func : I -> call_result R.
Variable cfg : config.
Variable p0 : ChunkProgress.
Variable items : list I.

Definition from_items (ids : list string) : Prop :=
  Forall (fun id => exists i, In i items /\ get_item_id i = id) ids.

(** How the progress counters of [s] relate to those of [p0]. *)
Definition counters_ok (s : st R) : Prop :=
  let p := prog s in
  exists new_ids new_failed,
    processed_ids p = processed_ids p0 ++ new_ids
    /\ List.length new_ids = List.length (chunk_results s)
    /\ successful_items p = successful_items p0 + List.length (chunk_results s)
    /\ failed_ids p = failed_ids p0 ++ new_failed
    /\ failed_items p = failed_items p0 + List.length new_failed
    /\ processed_items p0 + List.length (chunk_results s) + List.length new_failed
       <= processed_items p
    /\ from_items new_ids /\ from_items new_failed.

Lemma counters_ok_prog s s' :
  processed_ids (prog s') = processed_ids (prog s) ->
  successful_items (prog s') = successful_items (prog s) ->
  failed_ids (prog s') = failed_ids (prog s) ->
  failed_items (prog s') = failed_items (prog s) ->
  processed_items (prog s) <= processed_items (prog s') ->
  chunk_results s' = chunk_results s ->
  counters_ok s -> counters_ok s'.
Proof.
  intros H1 H2 H3 H4 H5 H6 (ni & nf & A1 & A2 & A3 & A4 & A5 & A6 & A7 & A8).
  exists ni, nf. rewrite H1, H2, H3, H4, H6. repeat split; auto. lia.
Qed.

Lemma end_of_item_counters s : counters_ok s -> counters_ok (end_of_item cfg s).
Proof.
  unfold end_of_item. destruct (chunk_size cfg <=? item_count s); [|exact id].
  destruct (cur s); apply counters_ok_prog; reflexivity.
Qed.

Lemma success_counters s s' item r :
  In item items -> counters_ok s ->
  prog s' = bump_processed (record_success (prog s) (get_item_id item)) ->
  chunk_results s' = chunk_results s ++ [r] ->
  counters_ok s'.
Proof.
  intros Hin (ni & nf & A1 & A2 & A3 & A4 & A5 & A6 & A7 & A8) Hp Hc.
  exists (ni ++ [get_item_id item]), nf. rewrite Hp, Hc. simpl.
  rewrite A1, A3, A4, A5, !length_app, <- app_assoc. simpl.
  split; [reflexivity|]. split; [lia|]. split; [lia|]. split; [reflexivity|].
  split; [reflexivity|]. split; [lia|]. split; [|exact A8].
  apply Forall_app. split; [exact A7|].
  apply Forall_cons; [exists item; split; [exact Hin|reflexivity]|apply Forall_nil].
Qed.

Lemma step_counters resume ps s item :
  In item items -> counters_ok s ->
  match step get_item_id process_func cfg resume ps s item with
  | inl s' => counters_ok s'
  | inr (s', _) => counters_ok s'
  end.
Proof.
  intros Hin Hs. unfold step.
  destruct (resume_skips get_item_id resume ps item).
  { revert Hs. apply counters_ok_prog; reflexivity. }
  destruct (process_func item) as [[r|]|e].
  - destruct (save_interval cfg <=? _)%Z; apply end_of_item_counters;
      apply (success_counters s _ item r); auto.
  - apply end_of_item_counters. revert Hs. apply counters_ok_prog; simpl; auto.
  - destruct Hs as (ni & nf & A1 & A2 & A3 & A4 & A5 & A6 & A7 & A8).
    assert (Hf : counters_ok (set_prog s (record_failure (prog s) (get_item_id item)))).
    { exists ni, (nf ++ [get_item_id item]). simpl.
      rewrite A1, A3, A4, A5, length_app, app_assoc. simpl.
      split; [reflexivity|]. split; [exact A2|]. split; [reflexivity|].
      split; [reflexivity|]. split; [lia|]. split; [lia|]. split; [exact A7|].
      apply Forall_app. split; [exact A8|].
      apply Forall_cons; [exists item; split; [exact Hin|reflexivity]|apply Forall_nil]. }
    destruct e; [|destruct (isolated_errors cfg)..];
      first [exact Hf | exists ni, nf; repeat split; assumption
            | revert Hf; apply counters_ok_prog; reflexivity].
Qed.

Lemma loop_counters resume ps rest : forall s,
  (forall i, In i rest -> In i items) -> counters_ok s ->
  counters_ok (fst (loop get_item_id process_func cfg resume ps s rest)).
Proof.
  induction rest as [|item rest IH]; intros s Hsub Hs; simpl; [exact Hs|].
  pose proof (step_counters resume ps s item (Hsub item (or_introl eq_refl)) Hs) as Hst.
  destruct (step get_item_id process_func cfg resume ps s item) as [s'|[s' e]].
  - apply IH; [intros i Hi; apply Hsub; right; exact Hi|exact Hst].
  - exact Hst.
Qed.

End Counters.
Lemma init_progress_fields cfg p0 total p :
  init_progress cfg p0 total = Some p ->
  processed_ids p = processed_ids p0 /\ successful_items p = successful_items p0
  /\ failed_ids p = failed_ids p0 /\ failed_items p = failed_items p0
  /\ processed_items p = processed_items p0.
Proof.
  unfold init_progress. destruct total as [[|n]|]; intros H;
    try (injection H as <-; repeat split; reflexivity).
  destruct (chunk_size cfg =? 0); [discriminate|]. injection H as <-. repeat split.
Qed.

(** ** The progress counters account for the run
    Whatever way [process_chunked] ends, [processed_ids] grows by one id
    per returned result and [successful_items] by the number of results;
    [failed_ids] grows by the ids of the failed items and [failed_items]
    by their number; [processed_items] grows by at least the successes
    plus the failures; every id added is the id of an item of the input. *)
Theorem process_chunked_progress_counters {I R} (get_item_id : I -> string)
    (process_func : I -> call_result R) cfg p0 items total resume :
  let '(s, _) := process_chunked get_item_id process_func cfg p0 items total resume in
  let p := prog s in
  exists new_ids new_failed,
    processed_ids p = processed_ids p0 ++ new_ids
    /\ List.length new_ids = List.length (chunk_results s)
    /\ successful_items p = successful_items p0 + List.length (chunk_results s)
    /\ failed_ids p = failed_ids p0 ++ new_failed
    /\ failed_items p = failed_items p0 + List.length new_failed
    /\ processed_items p0 + List.length (chunk_results s) + List.length new_failed
       <= processed_items p
    /\ Forall (fun id => exists i, In i items /\ get_item_id i = id) new_ids
    /\ Forall (fun id => exists i, In i items /\ get_item_id i = id) new_failed.
Proof.
  unfold process_chunked.
  destruct (init_progress cfg p0 total) as [p|] eqn:Ei.
  - destruct (init_progress_fields _ _ _ _ Ei) as (F1 & F2 & F3 & F4 & F5).
    assert (H0 : counters_ok I R get_item_id p0 items (mkSt p [] [] 0 [])).
    { exists [], []. simpl. rewrite F1, F2, F3, F4, F5, !app_nil_r.
      repeat split; try lia; apply Forall_nil. }
    pose proof (loop_counters I R get_item_id process_func cfg p0 items resume
                  (if resume then processed_ids p else []) items _ (fun i h => h) H0) as Hl.
    destruct (loop get_item_id process_func cfg resume _ _ items) as [s r].
    simpl in Hl. destruct r as [[]|]; exact Hl.
  - exists [], []. simpl. rewrite !app_nil_r. repeat split; try lia; apply Forall_nil.
Qed.

Lemma loop_ext {I R} (get_item_id : I -> string) (f g : I -> call_result R) cfg ps items :
  (forall i, In i items -> resume_skips get_item_id true ps i = false -> f i = g i) ->
  forall s, loop get_item_id f cfg true ps s items = loop get_item_id g cfg true ps s items.
Proof.
  induction items as [|item items IH]; intros Hfg s; [reflexivity|].
  simpl. unfold step.
  destruct (resume_skips get_item_id true ps item) eqn:Hs.
  - apply IH. intros i Hi. apply Hfg. right. exact Hi.
  - rewrite (Hfg item (or_introl eq_refl) Hs).
    assert (IH' : forall s, loop get_item_id f cfg true ps s items
                            = loop get_item_id g cfg true ps s items)
      by (apply IH; intros i Hi; apply Hfg; right; exact Hi).
    destruct (g item) as [[r|]|e]; [| |destruct e];
      repeat match goal with |- context [if ?b then _ else _] => destruct b end;
      first [reflexivity | apply IH'].
Qed.

(** ** Resuming never calls [process_func] on a checkpointed item
    With [resume=True], the run only depends on what [process_func] does
    on the items whose id is not among the checkpoint's
    [processed_ids]: two functions that agree there give the same run. *)
Theorem process_chunked_resume_skips {I R} (get_item_id : I -> string)
    (f g : I -> call_result R) cfg p0 items total :
  (forall i, In i items -> py_in (get_item_id i) (processed_ids p0) = false -> f i = g i) ->
  process_chunked get_item_id f cfg p0 items total true
  = process_chunked get_item_id g cfg p0 items total true.
Proof.
  intros Hfg. unfold process_chunked.
  destruct (init_progress cfg p0 total) as [p|] eqn:Ei; [|reflexivity].
  destruct (init_progress_fields _ _ _ _ Ei) as (F1 & _).
  rewrite (loop_ext get_item_id f g cfg (processed_ids p) items); [reflexivity|].
  intros i Hi Hs. apply Hfg; [exact Hi|]. rewrite <- F1. exact Hs.
Qed.

Definition w_items : list string := ["a"; "b"; "c"; "d"]%string.
Definition w_func (x : string) : call_result nat :=
  if String.eqb x "b" then Returns None
  else if String.eqb x "c" then Raises (PyException "bad input")
  else Returns (Some (String.length x)).
Definition w_cfg : config := mkConfig 2 1 true true.
Definition w_p0 : ChunkProgress := mkProgress 0 1 1 0 0 0 0 ["a"%string] [].

Lemma process_chunked_results_durable_witness :
  let '(s, _) := process_chunked (fun x : string => x) w_func w_cfg fresh_progress
                   w_items (Some 4) false in
  lines_items (result_file (disk_after (mkDisk None []) (writes s)))
  = lines_items (@result_file nat (mkDisk None [])) ++ chunk_results s.
Proof.
  apply (process_chunked_results_durable (fun x : string => x) w_func w_cfg fresh_progress
           w_items (Some 4) false (mkDisk None [])).
  - reflexivity.
  - simpl. lia.
Defined.

Lemma process_chunked_resume_skips_witness :
  process_chunked (fun x : string => x) w_func w_cfg w_p0 w_items None true
  = process_chunked (fun x : string => x)
      (fun x => if String.eqb x "a" then Raises KeyboardInterrupt else w_func x)
      w_cfg w_p0 w_items None true.
Proof.
  apply process_chunked_resume_skips.
  intros i Hi Hn. destruct (String.eqb i "a") eqn:E; [|reflexivity].
  apply String.eqb_eq in E. subst i. vm_compute in Hn. discriminate Hn.
Defined.

End ChunkedRunFacts.
Module LlmFacts.
Import Chunked Llm.

Section Attempts.
Variables (I R : Type).
Variable truthy : R -> bool.
Variable llm_func : nat -> I -> call_result R.
Variable item : I.

(** Attempt [j] neither returned a truthy result nor was interrupted. *)
Definition unproductive (j : nat) : Prop :=
  match llm_func j item with
  | Returns (Some r) => truthy r = false
  | Returns None => True
  | Raises e => e <> KeyboardInterrupt
  end.

Lemma attempts_return k r : forall d a n last,
  a + d = k -> d < n ->
  (forall j, a <= j < k -> unproductive j) ->
  llm_func k item = Returns (Some r) -> truthy r = true ->
  attempts truthy llm_func item a n last = LReturn r.
Proof.
  induction d as [|d IH]; intros a n last Hk Hn Hun Hr Ht;
    (destruct n as [|n]; [lia|]); simpl.
  - replace a with k by lia. rewrite Hr, Ht. reflexivity.
  - assert (Ha : unproductive a) by (apply Hun; lia).
    unfold unproductive in Ha.
    destruct (llm_func a item) as [[r'|]|e].
    + rewrite Ha. apply IH; auto; try lia. intros j Hj. apply Hun. lia.
    + apply IH; auto; try lia. intros j Hj. apply Hun. lia.
    + destruct e; [contradiction|..];
        apply IH; auto; try lia; intros j Hj; apply Hun; lia.
Qed.

End Attempts.

Arguments unproductive {I R} truthy llm_func item j.

(** ** The first truthy result is returned
    If attempt [k] (with [k <= max_retries]) returns a truthy result and
    every earlier attempt returned a falsy result or raised an
    [Exception], [__call__] returns that result, whatever the fallback
    and [continue_on_error]. *)
Theorem llm_call_first_truthy {I R} (truthy : R -> bool) llm_func fallback_func
    max_retries continue_on_error (item : I) k r :
  k <= max_retries ->
  (forall j, j < k -> unproductive truthy llm_func item j) ->
  llm_func k item = Returns (Some r) -> truthy r = true ->
  call truthy llm_func fallback_func max_retries continue_on_error item = Returns (Some r).
Proof.
  intros Hk Hun Hr Ht. unfold call.
  rewrite (attempts_return I R truthy llm_func item k r k 0 (S max_retries) None);
    auto; try lia.
  intros j Hj. apply Hun. lia.
Qed.


Section Exhaust.
Variables (I R : Type).
Variable truthy : R -> bool.
Variable llm_func : nat -> I -> call_result R.
Variable item : I.

(** Attempt [j] returned [None] or a falsy result. *)
Definition no_result (j : nat) : Prop :=
  llm_func j item = Returns None \/
  exists r, llm_func j item = Returns (Some r) /\ truthy r = false.

Lemma attempts_no_result : forall n a last,
  (forall j, a <= j < a + n -> no_result j) ->
  attempts truthy llm_func item a n last = LExhausted last.
Proof.
  induction n as [|n IH]; intros a last H; simpl; [reflexivity|].
  destruct (H a ltac:(lia)) as [Hn | [r [Hr Ht]]].
  - rewrite Hn. apply IH. intros j Hj. apply H. lia.
  - rewrite Hr, Ht. apply IH. intros j Hj. apply H. lia.
Qed.

Lemma attempts_last_error e : forall n a last,
  (forall j, a <= j < a + n -> unproductive truthy llm_func item j) ->
  llm_func (a + n) item = Raises e -> e <> KeyboardInterrupt ->
  attempts truthy llm_func item a (S n) last = LExhausted (Some e).
Proof.
  induction n as [|n IH]; intros a last H He Hki.
  - simpl. rewrite Nat.add_0_r in He. rewrite He.
    destruct e; [contradiction| reflexivity..].
  - change (attempts truthy llm_func item a (S (S n)) last) with
      (match llm_func a item with
       | Returns (Some r) =>
           if truthy r then LReturn r
           else attempts truthy llm_func item (S a) (S n) last
       | Returns None => attempts truthy llm_func item (S a) (S n) last
       | Raises KeyboardInterrupt => LInterrupt
       | Raises e => attempts truthy llm_func item (S a) (S n) (Some e)
       end).
    assert (Ha := H a ltac:(lia)). unfold unproductive in Ha.
    assert (H' : forall j, S a <= j < S a + n -> unproductive truthy llm_func item j)
      by (intros j Hj; apply H; lia).
    assert (He' : llm_func (S a + n) item = Raises e)
      by (rewrite <- He; f_equal; lia).
    destruct (llm_func a item) as [[r'|]|e'].
    + rewrite Ha. apply IH; auto.
    + apply IH; auto.
    + destruct e'; [contradiction|..]; apply IH; auto.
Qed.

End Exhaust.

Arguments no_result {I R} truthy llm_func item j.

(** ** No result and no error: the generic error
    Without a fallback and with [continue_on_error=False], when every
    attempt returns [None] or a falsy result, [__call__] raises
    [Exception("LLM processing failed")]. *)
Theorem llm_call_no_result_raises {I R} (truthy : R -> bool) llm_func max_retries
    (item : I) :
  (forall j, j <= max_retries -> no_result truthy llm_func item j) ->
  call truthy llm_func None max_retries false item
  = Raises (PyException "LLM processing failed").
Proof.
  intros H. unfold call.
  rewrite (attempts_no_result I R truthy llm_func item (S max_retries) 0 None);
    [reflexivity|].
  intros j Hj. apply H. lia.
Qed.

(** ** The last error is re-raised
    Without a fallback and with [continue_on_error=False], when the last
    attempt raises an [Exception] [e] and every earlier attempt was
    unproductive, [__call__] raises [e]. *)
Theorem llm_call_reraises_last_error {I R} (truthy : R -> bool) llm_func
    max_retries (item : I) e :
  (forall j, j < max_retries -> unproductive truthy llm_func item j) ->
  llm_func max_retries item = Raises e -> e <> KeyboardInterrupt ->
  call truthy llm_func None max_retries false item = Raises e.
Proof.
  intros H He Hki. unfold call.
  rewrite (attempts_last_error I R truthy llm_func item e max_retries 0 None);
    auto.
  intros j Hj. apply H. lia.
Qed.

(** [continue_on_error=True]: [__call__] raises nothing but
    [KeyboardInterrupt]. *)
Lemma call_continue_raises_only_interrupt {I R} (truthy : R -> bool) llm_func
    fallback_func max_retries (item : I) e :
  call truthy llm_func fallback_func max_retries true item = Raises e ->
  e = KeyboardInterrupt.
Proof.
  unfold call. intros H.
  destruct (attempts truthy llm_func item 0 (S max_retries) None) as [r| |le];
    [discriminate H | injection H as <-; reflexivity |].
  destruct fallback_func as [f|]; [|discriminate H].
  destruct (f item) as [v|e']; [discriminate H|].
  destruct e'; try discriminate H. injection H as <-. reflexivity.
Qed.

(** ** [continue_on_error=True]: no [Exception] escapes
    With [continue_on_error=True], [__call__] never raises an
    [Exception]: every [Exception] of the attempts or of the fallback ends
    in [None]; what can still escape is a [BaseException] that is not an
    [Exception], such as [KeyboardInterrupt]. *)
Theorem llm_call_continue_on_error {I R} (truthy : R -> bool) llm_func
    fallback_func max_retries (item : I) e :
  call truthy llm_func fallback_func max_retries true item = Raises e ->
  is_exception e = false.
Proof.
  intros H. apply call_continue_raises_only_interrupt in H. subst e. reflexivity.
Qed.

Section NoFailure.
Variables (I R : Type).
Variable get_item_id : I -> string.
Variable process_func : I -> call_result R.
Variable cfg : config.

(** [process_func] raises nothing but [KeyboardInterrupt] on the items. *)
Definition only_interrupts (items : list I) : Prop :=
  forall i e, In i items -> process_func i = Raises e -> e = KeyboardInterrupt.

Definition failures (p : ChunkProgress) : list string * nat :=
  (failed_ids p, failed_items p).

Lemma end_of_item_failures (s : st R) :
  failures (prog (end_of_item cfg s)) = failures (prog s).
Proof.
  unfold end_of_item. destruct (chunk_size cfg <=? item_count s); [|reflexivity].
  destruct (cur s); reflexivity.
Qed.

Lemma loop_no_failure resume ps : forall items s s' r,
  only_interrupts items ->
  loop get_item_id process_func cfg resume ps s items = (s', r) ->
  failures (prog s') = failures (prog s) /\ (r = None \/ r = Some KeyboardInterrupt).
Proof.
  induction items as [|i rest IH]; intros s s' r Honly H; simpl in H.
  - injection H as <- <-. auto.
  - assert (Hrest : only_interrupts rest)
      by (intros j e Hj; apply Honly; right; exact Hj).
    unfold step in H.
    destruct (resume_skips get_item_id resume ps i).
    { apply IH in H; [|exact Hrest]. destruct H as [H1 H2]. rewrite H1. auto. }
    destruct (process_func i) as [[x|]|e] eqn:Hp.
    + destruct (save_interval cfg <=? Z.of_nat (List.length (cur s ++ [x])))%Z;
        (apply IH in H; [|exact Hrest]); destruct H as [H1 H2];
        rewrite H1, end_of_item_failures; auto.
    + apply IH in H; [|exact Hrest]. destruct H as [H1 H2].
      rewrite H1, end_of_item_failures. auto.
    + assert (e = KeyboardInterrupt) by (eapply Honly; [left; reflexivity | exact Hp]).
      subst e. injection H as <- <-. auto.
Qed.

Lemma process_chunked_no_failure p0 items total resume :
  only_interrupts items ->
  let '(s, o) := process_chunked get_item_id process_func cfg p0 items total resume in
  failures (prog s) = failures p0 /\
  (o = Aborted KeyboardInterrupt \/ o = Aborted ZeroDivisionError \/
   o = Completed (chunk_results s)).
Proof.
  intros Honly. unfold process_chunked.
  destruct (init_progress cfg p0 total) as [p|] eqn:Hinit; [|auto].
  assert (Hp : failures p = failures p0).
  { unfold init_progress in Hinit. destruct total as [[|n]|];
      try (injection Hinit as <-; reflexivity).
    destruct (chunk_size cfg =? 0); [discriminate Hinit|].
    injection Hinit as <-. reflexivity. }
  destruct (loop get_item_id process_func cfg resume _ _ items) as [s r] eqn:Hl.
  apply loop_no_failure in Hl; auto. cbn [prog] in Hl.
  destruct Hl as [H1 [-> | ->]]; cbn [prog]; rewrite H1, Hp; auto.
Qed.

End NoFailure.

(** ** [IsolatedLLMProcessor] in [process_chunked]
    Run as the [process_func] of [process_chunked] with
    [continue_on_error=True], [__call__] never makes an item fail:
    [failed_ids] and [failed_items] stay as they were, and the run never
    ends on an [ExtractionError]. *)
Theorem llm_processor_no_failed_items {I R} (get_item_id : I -> string)
    (truthy : R -> bool) llm_func fallback_func max_retries cfg p0 items total
    resume :
  let '(s, o) := process_chunked get_item_id
                   (call truthy llm_func fallback_func max_retries true)
                   cfg p0 items total resume in
  failed_ids (prog s) = failed_ids p0 /\ failed_items (prog s) = failed_items p0 /\
  forall msg, o <> Aborted (ExtractionError msg).
Proof.
  pose proof (process_chunked_no_failure I R get_item_id
    (call truthy llm_func fallback_func max_retries true) cfg p0 items total resume) as H.
  destruct (process_chunked _ _ _ _ _ _ _) as [s o].
  destruct H as [Hf Ho].
  - intros i e _ He. exact (call_continue_raises_only_interrupt _ _ _ _ _ _ He).
  - unfold failures in Hf. injection Hf as H1 H2.
    split; [exact H1|]. split; [exact H2|].
    intros msg ->. destruct Ho as [Ho|[Ho|Ho]]; discriminate Ho.
Qed.

(** A model that times out once, then answers [0] (falsy), then [7]. *)
Definition w_truthy (n : nat) : bool := negb (n =? 0).

Definition w_llm (k : nat) (_ : string) : call_result nat :=
  match k with
  | 0 => Raises (PyException "timeout")
  | 1 => Returns (Some 0)
  | _ => Returns (Some 7)
  end.

Lemma llm_call_first_truthy_witness :
  call w_truthy w_llm None 3 false "item"%string = Returns (Some 7).
Proof.
  apply (llm_call_first_truthy w_truthy w_llm None 3 false "item"%string 2 7).
  - lia.
  - intros j Hj. destruct j as [|[|j]]; [discriminate | reflexivity | lia].
  - reflexivity.
  - reflexivity.
Defined.

Definition w_llm_empty (k : nat) (_ : string) : call_result nat :=
  if k =? 0 then Returns None else Returns (Some 0).

Lemma llm_call_no_result_raises_witness :
  call w_truthy w_llm_empty None 2 false "item"%string
  = Raises (PyException "LLM processing failed").
Proof.
  apply llm_call_no_result_raises.
  intros j Hj. unfold no_result, w_llm_empty.
  destruct j as [|j]; [left; reflexivity | right; exists 0; split; reflexivity].
Defined.

Definition w_llm_limit (k : nat) (_ : string) : call_result nat :=
  match k with
  | 0 => Returns None
  | _ => Raises (PyException "rate limit")
  end.

Lemma llm_call_reraises_last_error_witness :
  call w_truthy w_llm_limit None 1 false "item"%string
  = Raises (PyException "rate limit").
Proof.
  apply llm_call_reraises_last_error.
  - intros j Hj. destruct j as [|j]; [exact I | lia].
  - reflexivity.
  - discriminate.
Defined.

Definition w_llm_interrupt (k : nat) (_ : string) : call_result nat :=
  Raises KeyboardInterrupt.

Lemma llm_call_continue_on_error_witness :
  call w_truthy w_llm_interrupt None 2 true "item"%string = Raises KeyboardInterrupt
  /\ is_exception KeyboardInterrupt = false.
Proof.
  split; [reflexivity|].
  apply (llm_call_continue_on_error w_truthy w_llm_interrupt None 2 "item"%string).
  reflexivity.
Defined.

End LlmFacts.
Module RetryFacts.
Import Retry.

Section Backoff.
Variables (A E D : Type).
Variable caught : E -> bool.
Variable func : nat -> A + E.
Variable on_retry : option (E -> nat -> option E).
Variable sleep : D -> option E.
Variable next_delay : D -> D.
Variable max_attempts : Z.

(** The [time.sleep] arguments of [n] retries from [delay] on. *)
Fixpoint delays (n : nat) (delay : D) : list D :=
  match n with
  | O => []
  | S n => delay :: delays n (next_delay delay)
  end.

(** Attempt [j] raised one of the [exceptions]. *)
Definition retried (j : nat) : Prop :=
  exists e, func j = inr e /\ caught e = true.

(** [on_retry(e, j)] returns for the exception [e] of attempt [j]. *)
Definition on_retry_returns (j : nat) : Prop :=
  forall e, func j = inr e ->
  match on_retry with Some f => f e j = None | None => True end.

(** Every [time.sleep] call on the list returns. *)
Definition sleeps_return (ds : list D) : Prop :=
  Forall (fun d => sleep d = None) ds.

(** Attempt [k] ends the loop: it returned, raised an exception not in
    [exceptions], or was the last attempt. *)
Definition stops (k : nat) : Prop :=
  match func k with
  | inl _ => True
  | inr e => caught e = false \/ Z.of_nat k = max_attempts
  end.

Definition outcome (k : nat) : retry_result A E :=
  match func k with
  | inl a => RReturns a
  | inr e => RRaises e
  end.

(** The loop reaches attempt [k], with delay [dk], after [m] retries
    from [attempt]; what attempt [k] then does is [tail]. *)
Lemma retry_loop_reach k dk (tail : nat -> option E -> retry_result A E * list D) :
  (Z.of_nat k <= max_attempts)%Z ->
  (forall remaining last, 0 < remaining ->
     retry_loop caught func on_retry sleep next_delay max_attempts k remaining dk last
     = tail remaining last) ->
  forall m attempt remaining delay last,
  attempt + m = k -> m < remaining -> Nat.iter m next_delay delay = dk ->
  (forall j, attempt <= j < k -> retried j /\ on_retry_returns j) ->
  sleeps_return (delays m delay) ->
  exists last', retry_loop caught func on_retry sleep next_delay max_attempts attempt
                  remaining delay last
  = let '(r, ds) := tail (remaining - m) last' in (r, delays m delay ++ ds).
Proof.
  intros Hk Htail. induction m as [|m IH];
    intros attempt remaining delay last Heq Hm Hd Hr Hsl.
  - rewrite Nat.add_0_r in Heq. subst attempt. simpl in Hd. subst dk. exists last.
    rewrite Nat.sub_0_r, Htail by lia. simpl.
    destruct (tail remaining last). reflexivity.
  - destruct remaining as [|remaining]; [lia|]. cbn [retry_loop].
    destruct (Hr attempt ltac:(lia)) as [[e [He Hc]] Hcb].
    specialize (Hcb e He).
    inversion Hsl as [|d ds Hs0 Hsl']; subst.
    rewrite He, Hc.
    replace (Z.of_nat attempt =? max_attempts)%Z with false by (symmetry; apply Z.eqb_neq; lia).
    replace (match on_retry with Some f => f e attempt | None => None end) with (@None E)
      by (destruct on_retry; [symmetry; exact Hcb | reflexivity]).
    rewrite Hs0.
    destruct (IH (S attempt) remaining (next_delay delay) (Some e)) as [last' Hl];
      [lia | lia | rewrite <- Nat.iter_succ_r; reflexivity
       | intros j Hj; apply Hr; lia | exact Hsl' |].
    exists last'. rewrite Hl. simpl Nat.sub.
    destruct (tail _ _). reflexivity.
Qed.

Lemma retry_loop_stop k (Hk : (Z.of_nat k <= max_attempts)%Z) (Hs : stops k) :
  forall m attempt remaining delay last,
  attempt + m = k -> m < remaining ->
  (forall j, attempt <= j < k -> retried j /\ on_retry_returns j) ->
  sleeps_return (delays m delay) ->
  retry_loop caught func on_retry sleep next_delay max_attempts attempt remaining delay last
  = (outcome k, delays m delay).
Proof.
  intros m attempt remaining delay last Heq Hm Hr Hsl.
  destruct (retry_loop_reach k (Nat.iter m next_delay delay) (fun _ _ => (outcome k, [])))
    with (m := m) (attempt := attempt) (remaining := remaining) (delay := delay)
         (last := last) as [last' ->]; auto.
  - intros [|r] l Hr0; [lia|]. cbn [retry_loop].
    unfold stops in Hs. unfold outcome.
    destruct (func k) as [a|e]; [reflexivity|].
    destruct (caught e) eqn:Hc; [|reflexivity].
    destruct Hs as [Hs | Hs]; [discriminate Hs|].
    rewrite Hs, Z.eqb_refl. reflexivity.
  - rewrite app_nil_r. reflexivity.
Qed.

End Backoff.

Arguments delays {D} next_delay n delay.
Arguments retried {A E} caught func j.
Arguments on_retry_returns {A E} func on_retry j.
Arguments sleeps_return {E D} sleep ds.
Arguments stops {A E} caught func max_attempts k.
Arguments outcome {A E} func k.

Definition sp_exn_is_interrupt (e : sp_exn) : bool :=
  match e with SpKeyboardInterrupt => true | _ => false end.

Lemma retry_stop {A E D} (caught : E -> bool) (func : nat -> A + E) on_retry
    (sleep : D -> option E) (next_delay : D -> D) max_attempts initial_delay k :
  1 <= k -> (Z.of_nat k <= max_attempts)%Z ->
  (forall j, 1 <= j < k -> retried caught func j /\ on_retry_returns func on_retry j) ->
  sleeps_return sleep (delays next_delay (k - 1) initial_delay) ->
  stops caught func max_attempts k ->
  retry_with_backoff caught func on_retry sleep next_delay max_attempts initial_delay
  = (outcome func k, delays next_delay (k - 1) initial_delay).
Proof.
  intros H1 Hk Hr Hsl Hs. unfold retry_with_backoff.
  apply retry_loop_stop; auto; intros; try apply Hr; lia.
Qed.

Lemma retry_no_attempts {A E D} (caught : E -> bool) (func : nat -> A + E) on_retry
    (sleep : D -> option E) (next_delay : D -> D) max_attempts initial_delay :
  (max_attempts <= 0)%Z ->
  retry_with_backoff caught func on_retry sleep next_delay max_attempts initial_delay
  = (RRaiseNone, []).
Proof.
  intros H. unfold retry_with_backoff.
  replace (Z.to_nat max_attempts) with 0 by lia. reflexivity.
Qed.

(** ** How the retry loop ends
    If attempts [1 .. k-1] all raise one of the [exceptions], [on_retry]
    (when given) returns on each of them, every [time.sleep] call returns,
    and attempt [k] (at most [max_attempts]) returns, raises another
    exception, or is the last attempt, then [wrapper] returns what attempt
    [k] returned or re-raises its exception, after sleeping [k-1] times,
    for [initial_delay] and then each previous delay passed through the
    backoff. *)
Theorem retry_with_backoff_outcome {A E D} (caught : E -> bool) (func : nat -> A + E)
    on_retry (sleep : D -> option E) (next_delay : D -> D) max_attempts initial_delay k :
  1 <= k -> (Z.of_nat k <= max_attempts)%Z ->
  (forall j, 1 <= j < k -> retried caught func j /\ on_retry_returns func on_retry j) ->
  sleeps_return sleep (delays next_delay (k - 1) initial_delay) ->
  stops caught func max_attempts k ->
  retry_with_backoff caught func on_retry sleep next_delay max_attempts initial_delay
  = (outcome func k, delays next_delay (k - 1) initial_delay).
Proof.
  apply retry_stop.
Qed.

(** ** A raising [on_retry] or [time.sleep] ends the wrapper
    If attempts [1 .. k-1] raise one of the [exceptions] with [on_retry]
    and [time.sleep] returning, and attempt [k] (before the last one)
    raises one of the [exceptions] [e], then an exception [x] of
    [on_retry(e, k)] leaves [wrapper] at once; when [on_retry] returns
    there, an exception [x] of [time.sleep] on the [k]-th delay does. *)
Theorem retry_with_backoff_callback_raises {A E D} (caught : E -> bool)
    (func : nat -> A + E) on_retry (sleep : D -> option E) (next_delay : D -> D)
    max_attempts initial_delay k e x :
  1 <= k -> (Z.of_nat k < max_attempts)%Z ->
  (forall j, 1 <= j < k -> retried caught func j /\ on_retry_returns func on_retry j) ->
  sleeps_return sleep (delays next_delay (k - 1) initial_delay) ->
  func k = inr e -> caught e = true ->
  match on_retry with Some f => f e k | None => None end = Some x
  \/ (match on_retry with Some f => f e k | None => None end = None
      /\ sleep (Nat.iter (k - 1) next_delay initial_delay) = Some x) ->
  retry_with_backoff caught func on_retry sleep next_delay max_attempts initial_delay
  = (RRaises x, delays next_delay (k - 1) initial_delay).
Proof.
  intros H1 Hk Hr Hsl He Hc Hx. unfold retry_with_backoff.
  assert (Htail : forall remaining last, 0 < remaining ->
    retry_loop caught func on_retry sleep next_delay max_attempts k remaining
      (Nat.iter (k - 1) next_delay initial_delay) last = (RRaises x, [])).
  { intros [|r] l Hr0; [lia|]. cbn [retry_loop]. rewrite He, Hc.
    replace (Z.of_nat k =? max_attempts)%Z with false by (symmetry; apply Z.eqb_neq; lia).
    destruct Hx as [Hx|[Hx Hs]]; rewrite Hx; [reflexivity|]. rewrite Hs. reflexivity. }
  destruct (retry_loop_reach A E D caught func on_retry sleep next_delay max_attempts k
              (Nat.iter (k - 1) next_delay initial_delay) (fun _ _ => (RRaises x, []))
              ltac:(lia) Htail (k - 1) 1 (Z.to_nat max_attempts) initial_delay None
              ltac:(lia) ltac:(lia) eq_refl ltac:(intros j Hj; apply Hr; lia) Hsl)
    as [last' ->].
  rewrite app_nil_r. reflexivity.
Qed.

(** ** [max_attempts <= 0]
    With [max_attempts <= 0] the loop never runs: [wrapper] executes
    [raise last_exception] with [last_exception = None] (a [TypeError])
    without calling [func] or sleeping. *)
Theorem retry_with_backoff_no_attempts {A E D} (caught : E -> bool) (func : nat -> A + E)
    on_retry (sleep : D -> option E) (next_delay : D -> D) max_attempts initial_delay :
  (max_attempts <= 0)%Z ->
  retry_with_backoff caught func on_retry sleep next_delay max_attempts initial_delay
  = (RRaiseNone, []).
Proof.
  apply retry_no_attempts.
Qed.

Lemma sp_delays_bounded : forall n d,
  (1 <= d <= 60)%Z -> Forall (fun x => 1 <= x <= 60)%Z (delays sp_next_delay n d).
Proof.
  induction n as [|n IH]; intros d Hd; simpl; constructor; auto.
  apply IH. unfold sp_next_delay. lia.
Qed.

Lemma sp_sleeps_return n : sleeps_return sp_sleep (delays sp_next_delay n 1%Z).
Proof.
  unfold sleeps_return.
  apply (@Forall_impl Z (fun x => 1 <= x <= 60)%Z); [|apply sp_delays_bounded; lia].
  intros d Hd. unfold sp_sleep. destruct (Z.ltb_spec d 0); [lia | reflexivity].
Qed.

Lemma safe_subprocess_run_at {CP} (run : nat -> CP + sp_exn) retries k :
  1 <= k -> (Z.of_nat k <= retries + 1)%Z ->
  (forall j, 1 <= j < k -> retried sp_retryable run j) ->
  stops sp_retryable run (retries + 1) k ->
  safe_subprocess_run run retries
  = (match run k with
     | inl cp => inl (Some cp)
     | inr SpKeyboardInterrupt => inr SpKeyboardInterrupt
     | inr _ => inl None
     end, delays sp_next_delay (k - 1) 1%Z).
Proof.
  intros H1 Hk Hr Hs. unfold safe_subprocess_run.
  rewrite (retry_stop sp_retryable run None sp_sleep sp_next_delay (retries + 1) 1%Z k);
    auto.
  - unfold outcome. destruct (run k) as [cp|e]; [reflexivity|]. destruct e; reflexivity.
  - intros j Hj. split; [apply Hr; exact Hj | intros e _; exact I].
  - apply sp_sleeps_return.
Qed.
(** ** [safe_subprocess_run]: transient failures are retried
    If the runs before attempt [k] (at most [retries + 1]) raise
    [TimeoutExpired], [CalledProcessError] or an [OSError] and run [k]
    completes, [safe_subprocess_run] returns its [CompletedProcess] after
    [k-1] sleeps of 1, 2, 4, ... seconds, each between 1 and 60. *)
Theorem safe_subprocess_run_transient {CP} (run : nat -> CP + sp_exn) retries k cp :
  1 <= k -> (Z.of_nat k <= retries + 1)%Z ->
  (forall j, 1 <= j < k -> retried sp_retryable run j) ->
  run k = inl cp ->
  safe_subprocess_run run retries = (inl (Some cp), delays sp_next_delay (k - 1) 1%Z)
  /\ Forall (fun x => 1 <= x <= 60)%Z (delays sp_next_delay (k - 1) 1%Z).
Proof.
  intros H1 Hk Hr Hrun. split.
  - rewrite (safe_subprocess_run_at run retries k); auto.
    + rewrite Hrun. reflexivity.
    + unfold stops. rewrite Hrun. exact I.
  - apply sp_delays_bounded. lia.
Qed.

(** ** [safe_subprocess_run]: giving up
    If all [retries + 1] runs raise [TimeoutExpired], [CalledProcessError]
    or an [OSError], [safe_subprocess_run] returns [None] after [retries]
    sleeps. *)
Theorem safe_subprocess_run_gives_up {CP} (run : nat -> CP + sp_exn) retries :
  (0 <= retries)%Z ->
  (forall j, 1 <= j <= Z.to_nat retries + 1 -> retried sp_retryable run j) ->
  safe_subprocess_run run retries
  = (inl None, delays sp_next_delay (Z.to_nat retries) 1%Z).
Proof.
  intros H0 Hr.
  destruct (Hr (Z.to_nat retries + 1) ltac:(lia)) as [e [He Hc]].
  rewrite (safe_subprocess_run_at run retries (Z.to_nat retries + 1)); try lia.
  - rewrite He. replace (Z.to_nat retries + 1 - 1) with (Z.to_nat retries) by lia.
    destruct e; try discriminate Hc; reflexivity.
  - intros j Hj. apply Hr. lia.
  - unfold stops. rewrite He. right. lia.
Qed.

(** ** [safe_subprocess_run]: other errors are not retried
    If run [k] raises an exception that is neither a [SubprocessError]
    nor an [OSError], nothing is run again: a [KeyboardInterrupt]
    propagates, any other exception gives [None]. *)
Theorem safe_subprocess_run_no_retry {CP} (run : nat -> CP + sp_exn) retries k e :
  1 <= k -> (Z.of_nat k <= retries + 1)%Z ->
  (forall j, 1 <= j < k -> retried sp_retryable run j) ->
  run k = inr e -> sp_retryable e = false ->
  safe_subprocess_run run retries
  = (if sp_exn_is_interrupt e then inr SpKeyboardInterrupt else inl None,
     delays sp_next_delay (k - 1) 1%Z).
Proof.
  intros H1 Hk Hr He Hc.
  rewrite (safe_subprocess_run_at run retries k); auto.
  - rewrite He. destruct e; reflexivity.
  - unfold stops. rewrite He. left. exact Hc.
Qed.

(** ** [safe_subprocess_run] with [retries < 0]
    With a negative [retries], [subprocess.run] is never called and
    [safe_subprocess_run] returns [None] (the [TypeError] of
    [raise None] is caught by [except Exception]). *)
Theorem safe_subprocess_run_negative_retries {CP} (run : nat -> CP + sp_exn) retries :
  (retries < 0)%Z -> safe_subprocess_run run retries = (inl None, []).
Proof.
  intros H. unfold safe_subprocess_run.
  rewrite (retry_no_attempts sp_retryable run None sp_sleep sp_next_delay (retries + 1) 1%Z)
    by lia.
  reflexivity.
Qed.

(** A command that times out twice, then completes. *)
Definition w_run (k : nat) : nat + sp_exn :=
  if k <? 3 then inr TimeoutExpired else inl 0.

Lemma w_run_retried j : 1 <= j < 3 -> retried sp_retryable w_run j.
Proof.
  intros Hj. exists TimeoutExpired. unfold w_run.
  rewrite (proj2 (Nat.ltb_lt j 3)) by lia. split; reflexivity.
Qed.

(** An [on_retry] that returns, and one that raises on attempt 2. *)
Definition w_on_retry : option (sp_exn -> nat -> option sp_exn) :=
  Some (fun _ _ => None).
Definition w_on_retry_fail : option (sp_exn -> nat -> option sp_exn) :=
  Some (fun _ k => if k =? 2 then Some OtherException else None).

Lemma retry_with_backoff_outcome_witness :
  retry_with_backoff sp_retryable w_run w_on_retry sp_sleep sp_next_delay 5 1%Z
  = (RReturns 0, [1; 2]%Z).
Proof.
  apply (retry_with_backoff_outcome sp_retryable w_run w_on_retry sp_sleep
           sp_next_delay 5 1%Z 3).
  - lia.
  - lia.
  - intros j Hj. split; [apply w_run_retried; exact Hj | intros e _; reflexivity].
  - repeat apply Forall_cons; try apply Forall_nil; reflexivity.
  - exact I.
Defined.

Lemma retry_with_backoff_callback_raises_witness :
  retry_with_backoff sp_retryable w_run w_on_retry_fail sp_sleep sp_next_delay 5 1%Z
  = (RRaises OtherException, [1]%Z).
Proof.
  apply (retry_with_backoff_callback_raises sp_retryable w_run w_on_retry_fail sp_sleep
           sp_next_delay 5 1%Z 2 TimeoutExpired OtherException).
  - lia.
  - lia.
  - intros j Hj. replace j with 1 by lia.
    split; [apply w_run_retried; lia | intros e _; reflexivity].
  - repeat apply Forall_cons; try apply Forall_nil; reflexivity.
  - reflexivity.
  - reflexivity.
  - left. reflexivity.
Defined.

Lemma retry_with_backoff_no_attempts_witness :
  retry_with_backoff sp_retryable w_run None sp_sleep sp_next_delay 0 1%Z
  = (RRaiseNone, []).
Proof. apply retry_with_backoff_no_attempts. lia. Defined.

Lemma safe_subprocess_run_transient_witness :
  safe_subprocess_run w_run 2 = (inl (Some 0), [1; 2]%Z)
  /\ Forall (fun x => 1 <= x <= 60)%Z [1; 2]%Z.
Proof.
  apply (safe_subprocess_run_transient w_run 2 3 0).
  - lia.
  - lia.
  - exact w_run_retried.
  - reflexivity.
Defined.

Definition w_run_fail (k : nat) : nat + sp_exn := inr OSErr.

Lemma safe_subprocess_run_gives_up_witness :
  safe_subprocess_run w_run_fail 2 = (inl None, [1; 2]%Z).
Proof.
  apply (safe_subprocess_run_gives_up w_run_fail 2).
  - lia.
  - intros j Hj. exists OSErr. split; reflexivity.
Defined.

Definition w_run_interrupt (k : nat) : nat + sp_exn :=
  if k =? 1 then inr CalledProcessError else inr SpKeyboardInterrupt.

Lemma safe_subprocess_run_no_retry_witness :
  safe_subprocess_run w_run_interrupt 3 = (inr SpKeyboardInterrupt, [1]%Z).
Proof.
  apply (safe_subprocess_run_no_retry w_run_interrupt 3 2 SpKeyboardInterrupt).
  - lia.
  - lia.
  - intros j Hj. replace j with 1 by lia. exists CalledProcessError. split; reflexivity.
  - reflexivity.
  - reflexivity.
Defined.

Lemma safe_subprocess_run_negative_retries_witness :
  safe_subprocess_run w_run (-1) = (inl None, []).
Proof. apply safe_subprocess_run_negative_retries. lia. Defined.

End RetryFacts.
Module FileBackupFacts.
Import FileWrite.

Lemma string_length_append (s t : string) :
  String.length (s ++ t) = String.length s + String.length t.
Proof. induction s as [|c s IH]; simpl; [reflexivity | rewrite IH; reflexivity]. Qed.

Lemma backup_path_differs (p : string) : String.eqb (backup_path p) p = false.
Proof.
  apply String.eqb_neq. intros H. apply (f_equal String.length) in H.
  unfold backup_path in H. rewrite string_length_append in H. simpl in H. lia.
Qed.

(** ** [safe_file_write(..., backup=True)] never loses the old contents
    When [path] holds [old], every state the write goes through (where an
    interruption can leave the disk) keeps [old] in [path] or in its
    backup [path.bak]; at the end [path] holds the new contents and
    [path.bak] holds [old]. *)
Theorem safe_file_write_backup_keeps_old (m : fs) (path content old : string) :
  m path = Some old ->
  let ops := safe_file_write_ops m path content true in
  Forall (fun m' => m' path = Some old \/ m' (backup_path path) = Some old)
    (states_along m ops)
  /\ (forall m', last (states_along m ops) m = m' ->
        m' path = Some content /\ m' (backup_path path) = Some old).
Proof.
  intros Hm. unfold safe_file_write_ops. rewrite Hm. simpl.
  unfold fs_set.
  pose proof (backup_path_differs path) as Hd.
  assert (Hd' : String.eqb path (backup_path path) = false)
    by (rewrite String.eqb_sym; exact Hd).
  split.
  - repeat apply Forall_cons; try apply Forall_nil; cbv beta; rewrite ?Hd, ?Hd', ?String.eqb_refl, ?Hm; auto.
  - intros m' <-. simpl. rewrite ?Hd, ?Hd', ?String.eqb_refl, ?Hm. auto.
Qed.

Definition w_fs : fs :=
  fun q => if String.eqb q "notes.txt"%string then Some "v1"%string else None.

Lemma safe_file_write_backup_keeps_old_witness :
  w_fs "notes.txt"%string = Some "v1"%string /\
  let ops := safe_file_write_ops w_fs "notes.txt" "v2"%string true in
  Forall (fun m' => m' "notes.txt"%string = Some "v1"%string
                    \/ m' (backup_path "notes.txt"%string) = Some "v1"%string)
    (states_along w_fs ops)
  /\ (forall m', last (states_along w_fs ops) w_fs = m' ->
        m' "notes.txt"%string = Some "v2"%string
        /\ m' (backup_path "notes.txt"%string) = Some "v1"%string).
Proof.
  split; [reflexivity|].
  apply safe_file_write_backup_keeps_old. reflexivity.
Defined.

End FileBackupFacts.
Module WhatsAppTsFacts.
Import Db PyStr WhatsApp.

Lemma in_insert_by {A} (key : A -> Z) x y : forall l,
  In y (insert_by key x l) -> y = x \/ In y l.
Proof.
  induction l as [|z l IH]; simpl; [intuition|].
  destruct (key x <=? key z)%Z; simpl; [intuition|].
  intros [-> | H]; [right; left; reflexivity|].
  destruct (IH H) as [-> | H']; [left; reflexivity | right; right; exact H'].
Qed.

Lemma in_sort_by {A} (key : A -> Z) y : forall l, In y (sort_by key l) -> In y l.
Proof.
  induction l as [|x l IH]; simpl; [auto|].
  intros H. destruct (in_insert_by key x y _ H) as [-> | H']; auto.
Qed.

Lemma insert_by_nonempty {A} (key : A -> Z) x l : insert_by key x l <> [].
Proof. destruct l as [|z l]; simpl; [discriminate|]. destruct (key x <=? key z)%Z; discriminate. Qed.

(** Every message of the chat has a timestamp past the end of year 9999
    in seconds in every time zone (any millisecond timestamp after
    12 January 1978). *)
Definition all_past_max (cs : chat_store) : Prop :=
  forall m, In m (store_messages cs) ->
  exists t, wm_timestamp m = Some t /\ (253402300800 + 90000 <= t)%Z.

Lemma import_conversation_past_max now tz chat_id cs d :
  all_past_max cs ->
  import_conversation now tz chat_id cs d = (d, Ok tt)
  \/ import_conversation now tz chat_id cs d = (d, Err ValueError).
Proof.
  intros Hall. unfold import_conversation.
  destruct (store_messages cs) as [|m0 rest] eqn:Hs; [left; reflexivity|].
  destruct (7 <? count_participants chat_id cs (PyStr.sort_by sort_key (m0 :: rest)));
    [left; reflexivity|].
  right.
  destruct (PyStr.sort_by sort_key (m0 :: rest)) as [|m1 ms] eqn:Hsort.
  { simpl in Hsort. exfalso. exact (insert_by_nonempty _ _ _ Hsort). }
  assert (Hin : In m1 (store_messages cs)).
  { rewrite Hs. apply (in_sort_by sort_key). rewrite Hsort. left. reflexivity. }
  destruct (Hall m1 Hin) as [t [Ht Hb]].
  unfold bind at 1. unfold conv_ts. rewrite Ht.
  replace (t =? 0)%Z with false by (symmetry; apply Z.eqb_neq; lia).
  unfold bind at 1, fromtimestamp.
  pose proof (utc_offset_range tz t) as Ho.
  destruct (Z.ltb_spec (t + utc_offset tz t) 253402300800); [lia|].
  rewrite andb_false_r. reflexivity.
Qed.

Lemma import_all_past_max now tz : forall chats d,
  (forall c, In c chats -> all_past_max (snd c)) ->
  import_all now tz chats d = (d, Ok tt).
Proof.
  induction chats as [|c chats IH]; intros d H; [reflexivity|].
  unfold import_all. cbn [mapM_]. unfold bind at 1, try_ignore at 1.
  destruct (import_conversation_past_max now tz (fst c) (snd c) d) as [E | E];
    [apply H; left; reflexivity | |]; rewrite E; apply IH;
    intros c' Hc'; apply H; right; exact Hc'.
Qed.

(** ** Chats stamped in milliseconds are dropped
    [import_conversation] passes the first message's raw timestamp to
    [datetime.fromtimestamp] (only [import_messages] divides by 1000).
    When every message of every chat has a timestamp past year 9999 in
    seconds in every time zone, as every millisecond timestamp after
    12 January 1978 is, [import_all] raises and swallows a [ValueError]
    for each chat before any insert (or skips a chat with more than 7
    participants), whatever the local time zone: it returns normally and
    the database is unchanged. *)
Theorem import_all_millisecond_chats_unchanged now tz chats d :
  (forall c, In c chats -> all_past_max (snd c)) ->
  import_all now tz chats d = (d, Ok tt).
Proof. apply import_all_past_max. Qed.

Definition w_ms_msg : wa_msg :=
  mkWaMsg false (Some 1700000000000%Z) (Some "K1"%string) (Some "hi"%string)
    false false None (Some "Alice"%string).

(** A run with [TZ=EST5] (UTC-5). *)
Definition w_est : time_zone :=
  mkTimeZone (fun _ => (-18000)%Z) (fun _ => conj eq_refl eq_refl).

Definition w_ms_chats : list (string * chat_store) :=
  [("15551234567@s.whatsapp.net"%string, mkChatStore (Some "Alice"%string) [w_ms_msg])].

Lemma import_all_millisecond_chats_unchanged_witness :
  import_all 1700000000%Z w_est w_ms_chats empty_db = (empty_db, Ok tt).
Proof.
  apply import_all_millisecond_chats_unchanged.
  intros c [<- | []] m [<- | []]. exists 1700000000000%Z. split; [reflexivity | lia].
Defined.

End WhatsAppTsFacts.
